(** * Report index generator: the extraction pipeline of [generate_index.py]

    A shallow embedding of the name and period extraction of
    [generate_index.py] together with the properties of its specification.

    Python strings are sequences of Unicode code points; they are modelled as
    lists of integers.  The parts of the Python runtime the program calls are
    modelled as follows:
    - the regular expressions of module [re] by a backtracking matcher with
      Python's priorities (leftmost match, greedy repetition, ordered
      alternation), on the syntax trees of the patterns of the source;
    - the Unicode character database (case mappings, decimal digits) by the
      interface [CharDB], so that the theorems hold for every database that
      satisfies the stated laws; [basic_chardb] is the instance for Basic
      Latin and Cyrillic, used to evaluate the program on concrete documents;
    - the tokenizer of [html.parser.HTMLParser] by the sequence of handler
      calls it makes on a text ([tokenize]): [feed] is taken to return; a
      [feed] that raises, which depends on the version of the library, is
      outside this model. *)

From Stdlib Require Import ZArith List Bool Lia String Ascii.
Import ListNotations.
Local Open Scope Z_scope.

(** ** Strings *)

Definition char := Z.
Definition str := list char.

(** UTF-8 decoding, used only to write string constants legibly. *)
Fixpoint utf8_decode (bs : list Z) : str :=
  match bs with
  | [] => []
  | b :: rest =>
      if b <? 0x80 then b :: utf8_decode rest
      else if b <? 0xE0 then
        match rest with
        | b1 :: rest' => ((b - 0xC0) * 64 + (b1 - 0x80)) :: utf8_decode rest'
        | _ => []
        end
      else if b <? 0xF0 then
        match rest with
        | b1 :: b2 :: rest' =>
            ((b - 0xE0) * 4096 + (b1 - 0x80) * 64 + (b2 - 0x80)) :: utf8_decode rest'
        | _ => []
        end
      else
        match rest with
        | b1 :: b2 :: b3 :: rest' =>
            ((b - 0xF0) * 262144 + (b1 - 0x80) * 4096 + (b2 - 0x80) * 64 + (b3 - 0x80))
              :: utf8_decode rest'
        | _ => []
        end
  end.

Definition u (s : string) : str :=
  utf8_decode (map (fun a => Z.of_N (N_of_ascii a)) (list_ascii_of_string s)).
Arguments u s%_string.

Definition str_eqb (a b : str) : bool :=
  if list_eq_dec Z.eq_dec a b then true else false.

(** [str.isspace] of a single character, which is also the class [\s] of
    [re] on [str] patterns. *)
Definition isspace (c : char) : bool :=
  ((0x09 <=? c) && (c <=? 0x0D)) || ((0x1C <=? c) && (c <=? 0x20))
  || (c =? 0x85) || (c =? 0xA0) || (c =? 0x1680)
  || ((0x2000 <=? c) && (c <=? 0x200A))
  || (c =? 0x2028) || (c =? 0x2029) || (c =? 0x202F) || (c =? 0x205F)
  || (c =? 0x3000).

(** [s.lstrip()], [s.rstrip()] and [s.strip()]. *)
Fixpoint lstrip (s : str) : str :=
  match s with
  | [] => []
  | c :: s' => if isspace c then lstrip s' else s
  end.

Definition rstrip (s : str) : str := rev (lstrip (rev s)).

Definition strip (s : str) : str := rstrip (lstrip s).

(** [sep.join(xs)]. *)
Fixpoint join (sep : str) (xs : list str) : str :=
  match xs with
  | [] => []
  | x :: xs' =>
      match xs' with
      | [] => x
      | _ :: _ => x ++ sep ++ join sep xs'
      end
  end.

(** [s[a:b]] for [0 <= a] and [0 <= b]. *)
Definition slice (s : str) (a b : Z) : str :=
  firstn (Z.to_nat (b - a)) (skipn (Z.to_nat a) s).

Definition len (s : str) : Z := Z.of_nat (List.length s).

(** The truth value of a string: the empty string is falsy. *)
Definition nonempty (s : str) : bool :=
  match s with [] => false | _ :: _ => true end.

(** ** The character database *)

Definition is_ascii (c : char) : bool := (0 <=? c) && (c <? 128).

Definition ascii_tolower (c : char) : char :=
  if (0x41 <=? c) && (c <=? 0x5A) then c + 32 else c.

Definition ascii_toupper (c : char) : char :=
  if (0x61 <=? c) && (c <=? 0x7A) then c - 32 else c.

Definition ascii_capitalize (s : str) : str :=
  match s with
  | [] => []
  | c :: s' => ascii_toupper c :: map ascii_tolower s'
  end.

Definition has_nonspace (s : str) : bool := existsb (fun c => negb (isspace c)) s.

(** What the program uses of the Unicode database of the Python runtime. *)
Class CharDB : Type := {
  (** simple lower and upper case mappings, as [re] uses them under [re.I] *)
  tolower : char -> char;
  toupper : char -> char;
  (** the extra case equivalences of [re] under [re.I] (letters with the
      same upper case and different lower cases) *)
  casefix : char -> list char;
  (** [str.isdecimal] of a character (the class [\d]) and its digit value *)
  isdecimal : char -> bool;
  decimal : char -> Z;
  (** [s.lower()] and [s.capitalize()] *)
  str_lower : str -> str;
  str_capitalize : str -> str
}.

(** What the proofs use of the database: its values on ASCII, and that a
    case mapping never turns a character into white space, nor erases it.
    The database of CPython satisfies these laws. *)
Class CharDBLaws (U : CharDB) : Prop := {
  tolower_ascii : forall c, is_ascii c = true -> tolower c = ascii_tolower c;
  toupper_ascii : forall c, is_ascii c = true -> toupper c = ascii_toupper c;
  casefix_ascii : forall c x, is_ascii c = true -> In x (casefix c) -> is_ascii x = false;
  isdecimal_ascii : forall c, is_ascii c = true ->
    isdecimal c = (0x30 <=? c) && (c <=? 0x39);
  decimal_ascii : forall c, 0x30 <= c <= 0x39 -> decimal c = c - 0x30;
  str_lower_ascii : forall s, forallb is_ascii s = true ->
    str_lower s = map ascii_tolower s;
  str_capitalize_ascii : forall s, forallb is_ascii s = true ->
    str_capitalize s = ascii_capitalize s;
  str_capitalize_nonspace : forall s, has_nonspace s = true ->
    has_nonspace (str_capitalize s) = true
}.

(** *** The database on Basic Latin and Cyrillic *)

Definition basic_tolower (c : char) : char :=
  if (0x41 <=? c) && (c <=? 0x5A) then c + 32          (* A-Z *)
  else if (0x410 <=? c) && (c <=? 0x42F) then c + 32   (* А-Я *)
  else if (0x400 <=? c) && (c <=? 0x40F) then c + 80   (* Ѐ-Џ, with Ё *)
  else c.

Definition basic_toupper (c : char) : char :=
  if (0x61 <=? c) && (c <=? 0x7A) then c - 32          (* a-z *)
  else if (0x430 <=? c) && (c <=? 0x44F) then c - 32   (* а-я *)
  else if (0x450 <=? c) && (c <=? 0x45F) then c - 80   (* ѐ-џ, with ё *)
  else c.

Definition basic_isdecimal (c : char) : bool := (0x30 <=? c) && (c <=? 0x39).

Definition basic_capitalize (s : str) : str :=
  match s with
  | [] => []
  | c :: s' => basic_toupper c :: map basic_tolower s'
  end.

Definition basic_chardb : CharDB := {|
  tolower := basic_tolower;
  toupper := basic_toupper;
  casefix := fun _ => [];
  isdecimal := basic_isdecimal;
  decimal := fun c => c - 0x30;
  str_lower := map basic_tolower;
  str_capitalize := basic_capitalize
|}.

(** ** Regular expressions of module [re]

    The syntax covers the constructs the patterns of the source use:
    literals, the classes [\s] and [\d], bracketed sets, concatenation,
    alternation, [?], bounded and unbounded greedy repetition of a single
    character class, capture groups and [$]. *)

Inductive item : Type :=
| Single (c : char)          (* a character of a set *)
| Range (lo hi : char).      (* lo-hi in a set *)

Inductive atom : Type :=
| Lit (c : char)             (* a literal character *)
| Space                      (* \s *)
| Digit                      (* \d *)
| OneOf (items : list item)  (* [...] *)
| NoneOf (items : list item). (* [^...] *)

Inductive regex : Type :=
| Empty
| Atom (a : atom)
| Cat (r1 r2 : regex)
| Alt (r1 r2 : regex)                      (* r1|r2 *)
| Opt (r : regex)                          (* r? *)
| Rep (a : atom) (lo : nat) (hi : option nat) (* a{lo,hi}, a* , a+ *)
| Group (n : nat) (r : regex)              (* (r), the n-th group *)
| Eos.                                     (* $ *)

(** A compiled pattern: [re.compile(pat, flags)]. *)
Record pattern : Type := Compile { pat : regex; ignorecase : bool }.

(** A match object: [start()], [end()] and the spans of the groups. *)
Definition caps := list (nat * (nat * nat)).
Record match_obj : Type := Match { m_start : nat; m_end : nat; m_caps : caps }.

Fixpoint lookup_cap (n : nat) (cs : caps) : option (nat * nat) :=
  match cs with
  | [] => None
  | (k, span) :: cs' => if Nat.eqb k n then Some span else lookup_cap n cs'
  end.

(** [m.group(n)] on the subject string [s]. *)
Definition group (s : str) (mt : match_obj) (n : nat) : str :=
  match lookup_cap n (m_caps mt) with
  | Some (a, b) => firstn (b - a) (skipn a s)
  | None => []
  end.

(** The literal string [w] as a pattern. *)
Fixpoint lits (w : str) : regex :=
  match w with
  | [] => Empty
  | c :: w' => Cat (Atom (Lit c)) (lits w')
  end.

(** Concatenation and alternation of several patterns. *)
Fixpoint cat (rs : list regex) : regex :=
  match rs with
  | [] => Empty
  | r :: rs' => match rs' with [] => r | _ :: _ => Cat r (cat rs') end
  end.

Fixpoint alt (rs : list regex) : regex :=
  match rs with
  | [] => Empty
  | r :: rs' => match rs' with [] => r | _ :: _ => Alt r (alt rs') end
  end.

Definition more (hi : option nat) : bool :=
  match hi with
  | Some O => false
  | _ => true
  end.

Definition dec (hi : option nat) : option nat := option_map Nat.pred hi.

(** [$]: at the end of the string, or just before a newline that ends it. *)
Definition at_end (s : str) : bool :=
  match s with
  | [] => true
  | c :: s' => (c =? 10) && negb (nonempty s')
  end.

Section Matcher.

Context {U : CharDB}.

(** [_sre.unicode_iscased]. *)
Definition iscased (c : char) : bool :=
  negb (c =? tolower c) || negb (c =? toupper c).

(** The characters a cased literal stands for under [re.I], lower-cased. *)
Definition lowered (c : char) : list char := tolower c :: casefix (tolower c).

Definition range_chars (lo hi : char) : list char :=
  map (fun i => lo + Z.of_nat i) (seq 0 (Z.to_nat (hi - lo + 1))).

Definition item_chars (it : item) : list char :=
  match it with
  | Single c => [c]
  | Range lo hi => range_chars lo hi
  end.

Definition item_has (it : item) (c : char) : bool :=
  match it with
  | Single x => c =? x
  | Range lo hi => (lo <=? c) && (c <=? hi)
  end.

Definition in_items (items : list item) (c : char) : bool :=
  existsb (fun it => item_has it c) items.

(** A set under [re.I]: its characters are lower-cased when the pattern is
    compiled, and the subject character is lower-cased before the test when
    the set has a cased character. *)
Definition charmap (items : list item) : list char :=
  flat_map lowered (flat_map item_chars items).

Definition hascased (items : list item) : bool :=
  existsb iscased (flat_map item_chars items).

Definition in_items_i (items : list item) (ch : char) : bool :=
  existsb (Z.eqb (if hascased items then tolower ch else ch)) (charmap items).

Section WithFlags.

Variable icase : bool.

Definition set_match (items : list item) (ch : char) : bool :=
  if icase then in_items_i items ch else in_items items ch.

Definition atom_match (a : atom) (ch : char) : bool :=
  match a with
  | Lit c =>
      if icase && iscased c then existsb (Z.eqb (tolower ch)) (lowered c)
      else ch =? c
  | Space => isspace ch
  | Digit => isdecimal ch
  | OneOf items => set_match items ch
  | NoneOf items => negb (set_match items ch)
  end.

(** The matcher, in continuation-passing style: [k] is what remains to be
    matched after the pattern; alternatives are tried in Python's order and
    the first success is the result. [s] is the rest of the subject and [i]
    the position of its first character. *)
Definition cont := str -> nat -> caps -> option (nat * caps).

Fixpoint rep (a : atom) (lo : nat) (hi : option nat)
    (s : str) (i : nat) (cs : caps) (k : cont) : option (nat * caps) :=
  let stop := match lo with O => k s i cs | S _ => None end in
  match s with
  | [] => stop
  | c :: s' =>
      if atom_match a c && more hi then
        match rep a (Nat.pred lo) (dec hi) s' (S i) cs k with
        | Some x => Some x
        | None => stop
        end
      else stop
  end.

Fixpoint m (r : regex) (s : str) (i : nat) (cs : caps) (k : cont)
    : option (nat * caps) :=
  match r with
  | Empty => k s i cs
  | Atom a =>
      match s with
      | [] => None
      | c :: s' => if atom_match a c then k s' (S i) cs else None
      end
  | Cat r1 r2 => m r1 s i cs (fun s' i' cs' => m r2 s' i' cs' k)
  | Alt r1 r2 =>
      match m r1 s i cs k with
      | Some x => Some x
      | None => m r2 s i cs k
      end
  | Opt r1 =>
      match m r1 s i cs k with
      | Some x => Some x
      | None => k s i cs
      end
  | Rep a lo hi => rep a lo hi s i cs k
  | Group n r1 => m r1 s i cs (fun s' i' cs' => k s' i' ((n, (i, i')) :: cs'))
  | Eos => if at_end s then k s i cs else None
  end.

Definition accept : cont := fun _ j cs => Some (j, cs).

(** A match that starts at position [i], where [s] is the subject from [i]. *)
Definition match_at (r : regex) (s : str) (i : nat) : option (nat * caps) :=
  m r s i [] accept.

(** The leftmost match at or after position [i]. *)
Fixpoint search_from (r : regex) (s : str) (i : nat) : option match_obj :=
  match match_at r s i with
  | Some (j, cs) => Some (Match i j cs)
  | None =>
      match s with
      | [] => None
      | _ :: s' => search_from r s' (S i)
      end
  end.

End WithFlags.

(** [rx.search(s)]. *)
Definition search (rx : pattern) (s : str) : option match_obj :=
  search_from (ignorecase rx) (pat rx) s 0.

(** [int(s)] for a string of decimal digits. *)
Definition int_of (s : str) : Z :=
  fold_left (fun acc c => 10 * acc + decimal c) s 0.

End Matcher.

(** [re.split(rx, s)] and [re.sub(rx, repl, s)] for a pattern that matches
    no empty string: every match consumes a character, so that
    [length s] rounds after the first are enough (see [re_split_enough]
    and [re_sub_enough]). *)
Section SplitSub.

Context {U : CharDB}.

Fixpoint re_split_fuel (fuel : nat) (rx : pattern) (s : str) : list str :=
  match fuel with
  | O => [s]
  | S fuel' =>
      match search rx s with
      | Some mt => firstn (m_start mt) s :: re_split_fuel fuel' rx (skipn (m_end mt) s)
      | None => [s]
      end
  end.

Definition re_split (rx : pattern) (s : str) : list str :=
  re_split_fuel (S (List.length s)) rx s.

Fixpoint re_sub_fuel (fuel : nat) (rx : pattern) (repl s : str) : str :=
  match fuel with
  | O => s
  | S fuel' =>
      match search rx s with
      | Some mt =>
          firstn (m_start mt) s ++ repl ++ re_sub_fuel fuel' rx repl (skipn (m_end mt) s)
      | None => s
      end
  end.

Definition re_sub (rx : pattern) (repl s : str) : str :=
  re_sub_fuel (S (List.length s)) rx repl s.

End SplitSub.

(** ** The program *)

Definition ch (s : string) : char := hd 0 (u s).
Arguments ch s%_string.

(** The double quote, and the string of one space. *)
Definition dquote : char := 34.
Definition SP : str := [32].

(** *** [MONTHS] and [MONTH_COMPILED]

    A Python [dict] iterates in insertion order: the table is an association
    list in the order of the source. *)
Definition MONTHS : list (Z * (regex * str)) := Eval vm_compute in
  [ (1,  (cat [lits (u "янв"); alt [lits (u "арь"); lits (u "аря"); Opt (Atom (Lit (ch ".")))]],
          u "Январь"));
    (2,  (cat [lits (u "фев"); Opt (Atom (Lit (ch "р")));
               alt [lits (u "аль"); lits (u "аля"); Opt (Atom (Lit (ch ".")))]],
          u "Февраль"));
    (3,  (cat [lits (u "март"); Opt (lits (u "а"))], u "Март"));
    (4,  (cat [lits (u "апрел");
               alt [lits (u "ь"); lits (u "я"); Opt (Atom (Lit (ch ".")))]],
          u "Апрель"));
    (5,  (cat [lits (u "ма"); Atom (OneOf [Single (ch "й"); Single (ch "я")])], u "Май"));
    (6,  (cat [lits (u "июн"); alt [lits (u "ь"); lits (u "я")]], u "Июнь"));
    (7,  (cat [lits (u "июл"); alt [lits (u "ь"); lits (u "я")]], u "Июль"));
    (8,  (cat [lits (u "август"); Opt (lits (u "а"))], u "Август"));
    (9,  (cat [lits (u "сентябр"); alt [lits (u "ь"); lits (u "я")]], u "Сентябрь"));
    (10, (cat [lits (u "октябр"); alt [lits (u "ь"); lits (u "я")]], u "Октябрь"));
    (11, (cat [lits (u "ноябр"); alt [lits (u "ь"); lits (u "я")]], u "Ноябрь"));
    (12, (cat [lits (u "декабр"); alt [lits (u "ь"); lits (u "я")]], u "Декабрь")) ].

(** [MONTHS.get(m, (None, None))[1]]. *)
Fixpoint MONTHS_get (table : list (Z * (regex * str))) (key : Z) : option str :=
  match table with
  | [] => None
  | (num, (_, name)) :: rest => if num =? key then Some name else MONTHS_get rest key
  end.

(** [re.compile(pat, re.I | re.U)] for every entry. *)
Definition MONTH_COMPILED : list (Z * str * pattern) :=
  map (fun e => match e with (num, (p, name)) => (num, name, Compile p true) end) MONTHS.

(** [(20\d{2})] *)
Definition YEAR_RE : pattern := Eval vm_compute in
  Compile (Group 1 (cat [lits (u "20"); Rep Digit 2 (Some 2%nat)])) false.

(** [<meta\s+name=["']report-month["']\s+content=["'](\d{4})-(\d{2})["']],
    with [re.I] *)
Definition quotes : list item := Eval vm_compute in [Single dquote; Single (ch "'")].

Definition META_RE : pattern := Eval vm_compute in
  Compile (cat [lits (u "<meta"); Rep Space 1 None; lits (u "name=");
                Atom (OneOf quotes); lits (u "report-month"); Atom (OneOf quotes);
                Rep Space 1 None; lits (u "content="); Atom (OneOf quotes);
                Group 1 (Rep Digit 4 (Some 4%nat)); Atom (Lit (ch "-"));
                Group 2 (Rep Digit 2 (Some 2%nat)); Atom (OneOf quotes)]) true.

(** [[:\-–]\s*([А-ЯA-ZЁ][^|<>()]{2,})$] *)
Definition separators : list item := Eval vm_compute in
  [Single (ch ":"); Single (ch "-"); Single (ch "–")].

Definition capitals : list item := Eval vm_compute in
  [Range (ch "А") (ch "Я"); Range (ch "A") (ch "Z"); Single (ch "Ё")].

Definition excluded : list item := Eval vm_compute in
  [Single (ch "|"); Single (ch "<"); Single (ch ">"); Single (ch "("); Single (ch ")")].

Definition NAME_RE : pattern :=
  Compile (cat [Atom (OneOf separators); Rep Space 0 None;
                Group 1 (Cat (Atom (OneOf capitals)) (Rep (NoneOf excluded) 2 None));
                Eos]) false.

(** [[_\-\.]+] *)
Definition stem_separators : list item := Eval vm_compute in
  [Single (ch "_"); Single (ch "-"); Single (ch ".")].

Definition STEM_SPLIT_RE : pattern := Compile (Rep (OneOf stem_separators) 1 None) false.

(** [\s+] *)
Definition SPACES_RE : pattern := Compile (Rep Space 1 None) false.

(** *** [SimpleTitleH1Parser] *)

Record SimpleTitleH1Parser : Type := Parser {
  in_title : bool;
  in_h1 : bool;
  title_text : list str;
  h1_text : list str;
  all_text : list str
}.

(** [__init__] *)
Definition new_parser : SimpleTitleH1Parser := Parser false false [] [] [].

(** The calls [HTMLParser.feed] makes to the handlers the class overrides.
    (An empty-element tag is a start tag followed by an end tag.) *)
Inductive event : Type :=
| StartTag (tag : str) (attrs : list (str * option str))
| EndTag (tag : str)
| Data (data : str).

Definition set_in_title (b : bool) (p : SimpleTitleH1Parser) : SimpleTitleH1Parser :=
  Parser b (in_h1 p) (title_text p) (h1_text p) (all_text p).

Definition set_in_h1 (b : bool) (p : SimpleTitleH1Parser) : SimpleTitleH1Parser :=
  Parser (in_title p) b (title_text p) (h1_text p) (all_text p).

Section Program.

Context {U : CharDB}.

(** The tokenizer of [html.parser]: the handler calls of one [feed] of a
    whole document to a new parser, in their order. *)
Variable tokenize : str -> list event.

Definition handle_starttag (p : SimpleTitleH1Parser) (tag : str)
    (attrs : list (str * option str)) : SimpleTitleH1Parser :=
  if str_eqb (str_lower tag) (u "title") then set_in_title true p
  else if str_eqb (str_lower tag) (u "h1") then set_in_h1 true p
  else p.

Definition handle_endtag (p : SimpleTitleH1Parser) (tag : str) : SimpleTitleH1Parser :=
  if str_eqb (str_lower tag) (u "title") then set_in_title false p
  else if str_eqb (str_lower tag) (u "h1") then set_in_h1 false p
  else p.

Definition handle_data (p : SimpleTitleH1Parser) (data : str) : SimpleTitleH1Parser :=
  let s := strip data in
  if negb (nonempty s) then p
  else
    Parser (in_title p) (in_h1 p)
      (if in_title p then title_text p ++ [s] else title_text p)
      (if in_h1 p then h1_text p ++ [s] else h1_text p)
      (all_text p ++ [s]).

Definition handle (p : SimpleTitleH1Parser) (e : event) : SimpleTitleH1Parser :=
  match e with
  | StartTag tag attrs => handle_starttag p tag attrs
  | EndTag tag => handle_endtag p tag
  | Data data => handle_data p data
  end.

(** [p.feed(text)] *)
Definition feed (p : SimpleTitleH1Parser) (text : str) : SimpleTitleH1Parser :=
  fold_left handle (tokenize text) p.

Definition extract_name_from_html (text : str) : option str :=
  let p := feed new_parser text in
  let title := strip (join SP (title_text p)) in
  if nonempty title then
    match search NAME_RE title with
    | Some mt => Some (strip (group title mt 1))
    | None => Some title
    end
  else
    let h1 := strip (join SP (h1_text p)) in
    if nonempty h1 then Some h1 else None.

(** The loop over [MONTH_COMPILED]: the first entry whose pattern is found,
    with the start of the match. *)
Fixpoint find_month (table : list (Z * str * pattern)) (blob : str)
    : option (Z * str * Z) :=
  match table with
  | [] => None
  | (num, name, rx) :: rest =>
      match search rx blob with
      | Some mt => Some (num, name, Z.of_nat (m_start mt))
      | None => find_month rest blob
      end
  end.

(** The search of the visible text, from [p = SimpleTitleH1Parser()] on. *)
Definition month_year_of_blob (blob : str) : option Z * option Z * option str :=
  match find_month MONTH_COMPILED blob with
  | None => (None, None, None)
  | Some (found_month, found_month_name, pos) =>
      let window_start := Z.max 0 (pos - 40) in
      let window_end := Z.min (len blob) (pos + 40) in
      let around := slice blob window_start window_end in
      let year :=
        match search YEAR_RE around with
        | Some ym => Some (int_of (group around ym 1))
        | None => None
        end in
      (Some found_month, year, Some found_month_name)
  end.

Definition visible_blob (text : str) : str :=
  join SP (all_text (feed new_parser text)).

Definition extract_month_year (text : str) : option Z * option Z * option str :=
  match search META_RE text with
  | Some meta =>
      let y := int_of (group text meta 1) in
      let mo := int_of (group text meta 2) in
      let pretty := MONTHS_get MONTHS mo in
      (Some mo, Some y, pretty)
  | None => month_year_of_blob (visible_blob text)
  end.

(** [humanize_from_filename], on the stem of the path. *)
Definition humanize_from_filename (stem : str) : str :=
  let parts := re_split STEM_SPLIT_RE stem in
  join SP (map str_capitalize (filter nonempty parts)).

(** An entry of [items]. *)
Record item_record : Type := Item {
  name : str;
  url : str;
  month : option Z;
  month_name : option str;
  year : option Z
}.

(** [extract_name_from_html(text) or humanize_from_filename(html_path)] *)
Definition resolved_name (text stem : str) : str :=
  match extract_name_from_html text with
  | Some n => if nonempty n then n else humanize_from_filename stem
  | None => humanize_from_filename stem
  end.

(** [re.sub(r"\s+", " ", name).strip()] *)
Definition display_name (text stem : str) : str :=
  strip (re_sub SPACES_RE SP (resolved_name text stem)).

(** The body of the loop of [main] for one file: [stem] and [filename] are
    [html_path.stem] and [html_path.name]. *)
Definition index_item (filename stem text : str) : item_record :=
  let name := display_name text stem in
  match extract_month_year text with
  | (month, year, month_name) =>
      Item name (u "reports/" ++ filename) month month_name year
  end.

End Program.

(** ** Notions of the specification *)

(** The decimal numeral of [v] on [n] digits. *)
Fixpoint digits (n : nat) (v : Z) : str :=
  match n with
  | O => []
  | S n' => digits n' (v / 10) ++ [0x30 + v mod 10]
  end.

(** The tag [<meta name="report-month" content="YYYY-MM">]. *)
Definition meta_tag (y mo : Z) : str :=
  u "<meta" ++ SP ++ u "name=" ++ [dquote] ++ u "report-month" ++ [dquote] ++ SP
    ++ u "content=" ++ [dquote] ++ digits 4 y ++ u "-" ++ digits 2 mo ++ [dquote]
    ++ u ">".

Definition is_separator (c : char) : bool := in_items separators c.
Definition is_capital (c : char) : bool := in_items capitals c.
Definition is_excluded (c : char) : bool := in_items excluded c.
Definition is_stem_separator (c : char) : bool := in_items stem_separators c.

(** [t] is a separator, white space (none, when [spaced] is [false]), and
    then the segment [seg] up to the end of [t]: a capital letter and at
    least two more characters, none of them excluded. *)
Definition name_suffix (spaced : bool) (t seg : str) : Prop :=
  exists sep ws c rest,
    t = sep :: ws ++ seg /\ seg = c :: rest /\
    is_separator sep = true /\
    forallb isspace ws = true /\ (spaced = true -> ws <> []) /\
    is_capital c = true /\
    forallb (fun x => negb (is_excluded x)) rest = true /\
    (2 <= List.length rest)%nat.

(** The pieces of a stem between its separator characters, and the
    segments: the pieces that are not empty, which are the maximal runs of
    characters other than separators. *)
Fixpoint pieces (s : str) : list str :=
  match s with
  | [] => [[]]
  | c :: s' =>
      if is_stem_separator c then [] :: pieces s'
      else
        match pieces s' with
        | x :: xs => (c :: x) :: xs
        | [] => [[c]]
        end
  end.

Definition segments (s : str) : list str := filter nonempty (pieces s).

Section SpecNotions.

Context {U : CharDB}.

(** The pattern of month [n] is found in [blob]. *)
Definition month_matches (n : Z) (blob : str) : Prop :=
  exists name rx, In (n, name, rx) MONTH_COMPILED /\ search rx blob <> None.

(** At offset [i] of [w] stand the characters [2], [0] and two decimal
    digits, of value [y]. *)
Definition year_at (w : str) (i : nat) (y : Z) : Prop :=
  exists d1 d2 rest,
    skipn i w = 0x32 :: 0x30 :: d1 :: d2 :: rest /\
    isdecimal d1 = true /\ isdecimal d2 = true /\
    y = 2000 + 10 * decimal d1 + decimal d2.

(** [l] is the word [w] up to the case of its letters, as [re.I] compares. *)
Definition same_word (w l : str) : Prop :=
  Forall2 (fun c x => atom_match true (Lit c) x = true) w l.

(** Capitalizing the first letter of a segment and nothing else, and the
    name of a stem as the specification words it. *)
Definition capitalize_first (s : str) : str :=
  match s with
  | [] => []
  | c :: s' => toupper c :: s'
  end.

Definition spec_humanize (stem : str) : str :=
  join SP (map capitalize_first (segments stem)).

(** The strings a pattern matches, [rest] being what follows in the
    subject. *)
Fixpoint lang (icase : bool) (r : regex) (w rest : str) : Prop :=
  match r with
  | Empty => w = []
  | Atom a => exists c, w = [c] /\ atom_match icase a c = true
  | Cat r1 r2 =>
      exists w1 w2, w = w1 ++ w2 /\ lang icase r1 w1 (w2 ++ rest) /\ lang icase r2 w2 rest
  | Alt r1 r2 => lang icase r1 w rest \/ lang icase r2 w rest
  | Opt r1 => lang icase r1 w rest \/ w = []
  | Rep a lo hi =>
      forallb (atom_match icase a) w = true /\ (lo <= List.length w)%nat /\
      match hi with Some h => (List.length w <= h)%nat | None => True end
  | Group _ r1 => lang icase r1 w rest
  | Eos => w = [] /\ at_end rest = true
  end.

End SpecNotions.

(** ** Notions used in the proofs *)

(** The number of leading characters of [s] that satisfy [p]. *)
Fixpoint run (p : char -> bool) (s : str) : nat :=
  match s with
  | [] => O
  | c :: s' => if p c then S (run p s') else O
  end.

Definition hd_nonspace (s : str) : bool :=
  match s with
  | [] => true
  | c :: _ => negb (isspace c)
  end.

(** [s] is the subject from position [i] on. *)
Definition name_match (s : str) (i : nat) : option (nat * caps) :=
  match s with
  | [] => None
  | c0 :: s0 =>
      if is_separator c0 then
        match lstrip s0 with
        | [] => None
        | c :: r =>
            if is_capital c && forallb (fun x => negb (is_excluded x)) r
               && (2 <=? List.length r)%nat
            then Some ((i + List.length s)%nat,
                       [(1%nat, ((i + List.length s - S (List.length r))%nat,
                                 (i + List.length s)%nat))])
            else None
        end
      else None
  end.

(** The tag with any decimal digits for the year and the month. *)
Definition meta_tag_of (ys ms : str) : str :=
  u "<meta" ++ SP ++ u "name=" ++ [dquote] ++ u "report-month" ++ [dquote] ++ SP
    ++ u "content=" ++ [dquote] ++ ys ++ u "-" ++ ms ++ [dquote] ++ u ">".

Definition meta_head : str := Eval vm_compute in
  u "<meta" ++ SP ++ u "name=" ++ [dquote] ++ u "report-month" ++ [dquote] ++ SP
    ++ u "content=" ++ [dquote].

Definition month_key (e : Z * str * pattern) : Z := fst (fst e).

Fixpoint ascending (table : list (Z * str * pattern)) : bool :=
  match table with
  | [] => true
  | e :: rest => forallb (fun e' => month_key e <? month_key e') rest && ascending rest
  end.








(** The window of the blob around the offset [p] of the month: 40
    characters before and 40 characters after, within the blob. *)
Definition year_window (blob : str) (p : Z) : str :=
  slice blob (Z.max 0 (p - 40)) (Z.min (len blob) (p + 40)).

Section ProofNotions.

Context {U : CharDB}.

(** [n] characters are a possible repetition of [a] at the head of [s]. *)
Definition rep_ok (icase : bool) (a : atom) (lo : nat) (hi : option nat) (s : str) (n : nat) : Prop :=
  (n <= List.length s)%nat /\ (lo <= n)%nat /\
  match hi with Some h => (n <= h)%nat | None => True end /\
  forallb (atom_match icase a) (firstn n s) = true.

(** A pattern that matches no empty string. *)
Definition never_empty (rx : pattern) : Prop :=
  forall s mt, search rx s = Some mt -> (m_start mt < m_end mt)%nat.

(** What [META_RE] recognizes: the words [<meta], [name=], [report-month]
    and [content=] up to case, in this order, with white space and nothing
    else after [<meta] and between the two attributes. *)
Definition meta_shape (w : str) : Prop :=
  exists lt ws1 nm q1 rm q2 ws2 ct q3 ys dash ms q4,
    w = lt ++ ws1 ++ nm ++ [q1] ++ rm ++ [q2] ++ ws2 ++ ct ++ [q3]
           ++ ys ++ dash ++ ms ++ [q4] /\
    same_word (u "<meta") lt /\
    (ws1 <> [] /\ forallb isspace ws1 = true) /\
    same_word (u "name=") nm /\
    atom_match true (OneOf quotes) q1 = true /\
    same_word (u "report-month") rm /\
    atom_match true (OneOf quotes) q2 = true /\
    (ws2 <> [] /\ forallb isspace ws2 = true) /\
    same_word (u "content=") ct /\
    atom_match true (OneOf quotes) q3 = true /\
    (List.length ys = 4%nat /\ forallb isdecimal ys = true) /\
    same_word (u "-") dash /\
    (List.length ms = 2%nat /\ forallb isdecimal ms = true) /\
    atom_match true (OneOf quotes) q4 = true.

(** [META_RE] matches nowhere before offset [n] of [text]. *)
Definition no_meta_before (text : str) (n : nat) : Prop :=
  forall i, (i < n)%nat -> match_at true (pat META_RE) (skipn i text) i = None.

End ProofNotions.

(** The trimmed title of a document: [" ".join(p.title_text).strip()]. *)
Definition page_title {U : CharDB} (tokenize : str -> list event) (text : str) : str :=
  strip (join SP (title_text (feed tokenize new_parser text))).

(** * Sample documents

    Each document comes with the handler calls [html.parser] makes on it;
    [sample_tokenize] is the tokenizer restricted to these documents. *)

Definition quoted (s : string) : str := [dquote] ++ u s ++ [dquote].
Arguments quoted s%_string.

(** [<title>Report: Smith John</title><p>за март 2024 года</p>] *)
Definition doc_report : str := Eval vm_compute in
  u "<title>Report: Smith John</title><p>за март 2024 года</p>".

Definition doc_report_events : list event := Eval vm_compute in
  [StartTag (u "title") []; Data (u "Report: Smith John"); EndTag (u "title");
   StartTag (u "p") []; Data (u "за март 2024 года"); EndTag (u "p")].

(** [<meta name="report-month" content="2025-07">] *)
Definition doc_tagged : str := Eval vm_compute in meta_tag 2025 7.

Definition meta_attrs (ym : string) : list (str * option str) :=
  [(u "name", Some (u "report-month")); (u "content", Some (u ym))].
Arguments meta_attrs ym%_string.

Definition doc_tagged_events : list event := Eval vm_compute in
  [StartTag (u "meta") (meta_attrs "2025-07")].

(** [<meta name="report-month" content="2025-13">] *)
Definition doc_month_13 : str := Eval vm_compute in meta_tag 2025 13.

Definition doc_month_13_events : list event := Eval vm_compute in
  [StartTag (u "meta") (meta_attrs "2025-13")].

(** [<html><head><meta name="report-month" content="2025-07"></head><body>
    <p>Отчёт за март 2024 года</p></body></html>] (on one line) *)
Definition page_head : str := Eval vm_compute in u "<html><head>".
Definition page_rest : str := Eval vm_compute in
  u "</head><body><p>Отчёт за март 2024 года</p></body></html>".
Definition doc_page : str := Eval vm_compute in page_head ++ meta_tag 2025 7 ++ page_rest.

Definition doc_page_events : list event := Eval vm_compute in
  [StartTag (u "html") []; StartTag (u "head") [];
   StartTag (u "meta") (meta_attrs "2025-07"); EndTag (u "head");
   StartTag (u "body") []; StartTag (u "p") []; Data (u "Отчёт за март 2024 года");
   EndTag (u "p"); EndTag (u "body"); EndTag (u "html")].

(** Two tags: [<meta name="report-month" content="2025-07">] and then
    [<meta name="report-month" content="2024-03">] *)
Definition doc_two_tags : str := Eval vm_compute in meta_tag 2025 7 ++ meta_tag 2024 3 ++ [].

Definition doc_two_tags_events : list event := Eval vm_compute in
  [StartTag (u "meta") (meta_attrs "2025-07"); StartTag (u "meta") (meta_attrs "2024-03")].

(** [<p>июль ... январь 2025</p>] *)
Definition doc_two_months : str := Eval vm_compute in u "<p>июль ... январь 2025</p>".

Definition doc_two_months_events : list event := Eval vm_compute in
  [StartTag (u "p") []; Data (u "июль ... январь 2025"); EndTag (u "p")].

(** [<title>Report:Ivanov</title>] *)
Definition doc_unspaced : str := Eval vm_compute in u "<title>Report:Ivanov</title>".

Definition doc_unspaced_events : list event := Eval vm_compute in
  [StartTag (u "title") []; Data (u "Report:Ivanov"); EndTag (u "title")].

(** [<p>no name here</p>] *)
Definition doc_untitled : str := Eval vm_compute in u "<p>no name here</p>".

Definition doc_untitled_events : list event := Eval vm_compute in
  [StartTag (u "p") []; Data (u "no name here"); EndTag (u "p")].

(** [<title><h1>both</h1></title>] *)
Definition doc_nested : str := Eval vm_compute in u "<title><h1>both</h1></title>".

Definition doc_nested_events : list event := Eval vm_compute in
  [StartTag (u "title") []; StartTag (u "h1") []; Data (u "both");
   EndTag (u "h1"); EndTag (u "title")].

(** [<meta content="2025-07" name="report-month">] *)
Definition doc_reversed : str := Eval vm_compute in
  u "<meta content=" ++ quoted "2025-07" ++ u " name=" ++ quoted "report-month" ++ u ">".

Definition doc_reversed_events : list event := Eval vm_compute in
  [StartTag (u "meta") [(u "content", Some (u "2025-07")); (u "name", Some (u "report-month"))]].

(** [<meta name="report-month" id="x" content="2025-07">] *)
Definition doc_between : str := Eval vm_compute in
  u "<meta name=" ++ quoted "report-month" ++ u " id=" ++ quoted "x"
    ++ u " content=" ++ quoted "2025-07" ++ u ">".

Definition doc_between_events : list event := Eval vm_compute in
  [StartTag (u "meta") [(u "name", Some (u "report-month")); (u "id", Some (u "x"));
                        (u "content", Some (u "2025-07"))]].

Definition sample_documents : list (str * list event) :=
  [(doc_report, doc_report_events); (doc_tagged, doc_tagged_events);
   (doc_month_13, doc_month_13_events); (doc_page, doc_page_events);
   (doc_two_tags, doc_two_tags_events); (doc_two_months, doc_two_months_events);
   (doc_unspaced, doc_unspaced_events); (doc_untitled, doc_untitled_events);
   (doc_nested, doc_nested_events); (doc_reversed, doc_reversed_events);
   (doc_between, doc_between_events)].

Definition sample_tokenize (text : str) : list event :=
  match find (fun d => str_eqb (fst d) text) sample_documents with
  | Some d => snd d
  | None => []
  end.

(** * Notions of the further properties *)

(** A string that neither begins nor ends with white space. *)
Definition trimmed (s : str) : bool := hd_nonspace s && hd_nonspace (rev s).

(** The words of a string: its maximal runs of characters other than white
    space, which is what [s.split()] returns. *)
Fixpoint space_pieces (s : str) : list str :=
  match s with
  | [] => [[]]
  | c :: s' =>
      if isspace c then [] :: space_pieces s'
      else
        match space_pieces s' with
        | x :: xs => (c :: x) :: xs
        | [] => [[c]]
        end
  end.

Definition words (s : str) : list str := filter nonempty (space_pieces s).

(** [a] is [b] with some of its elements left out, the rest in order. *)
Inductive subseq : list str -> list str -> Prop :=
| subseq_nil : subseq [] []
| subseq_keep x a b : subseq a b -> subseq (x :: a) (x :: b)
| subseq_skip x a b : subseq a b -> subseq a (x :: b).

(** A pattern that matches the empty string wherever it stands. *)
Fixpoint nullable (r : regex) : bool :=
  match r with
  | Empty => true
  | Atom _ => false
  | Cat r1 r2 => nullable r1 && nullable r2
  | Alt r1 r2 => nullable r1 || nullable r2
  | Opt _ => true
  | Rep _ lo _ => match lo with O => true | S _ => false end
  | Group _ r1 => nullable r1
  | Eos => false
  end.

(** What every call of a handler of the parser keeps: the chunks are not
    empty and trimmed, and those of the title and of the heading are among
    those of the text. *)
Definition chunks_kept (p : SimpleTitleH1Parser) : Prop :=
  Forall (fun s => s <> [] /\ trimmed s = true) (all_text p) /\
  subseq (title_text p) (all_text p) /\ subseq (h1_text p) (all_text p).

(** The data of the handler calls, in their order. *)
Fixpoint data_of (evs : list event) : list str :=
  match evs with
  | [] => []
  | Data d :: rest => d :: data_of rest
  | _ :: rest => data_of rest
  end.

(** The months whose pattern is a stem followed by endings that may all be
    absent: January, February, March, April and August. *)
Definition month_stems : list (Z * str) := Eval vm_compute in
  [(1, u "янв"); (2, u "фев"); (3, u "март"); (4, u "апрел"); (8, u "август")].

(** [<h1>Report: Ivanov</h1>] *)
Definition doc_heading : str := Eval vm_compute in u "<h1>Report: Ivanov</h1>".

Definition doc_heading_events : list event := Eval vm_compute in
  [StartTag (u "h1") []; Data (u "Report: Ivanov"); EndTag (u "h1")].

(** [<p>Новый смартфон 2024</p>] *)
Definition doc_smartphone : str := Eval vm_compute in u "<p>Новый смартфон 2024</p>".

Definition doc_smartphone_events : list event := Eval vm_compute in
  [StartTag (u "p") []; Data (u "Новый смартфон 2024"); EndTag (u "p")].

(** [<META  NAME='report-month' CONTENT='2031-11'>], with two spaces after
    [<META]. *)
Definition doc_upper_tag : str := Eval vm_compute in
  u "<META  NAME='report-month' CONTENT='2031-11'>".

Definition doc_upper_tag_events : list event := Eval vm_compute in
  [StartTag (u "meta") (meta_attrs "2031-11")].

Definition more_documents : list (str * list event) :=
  [(doc_heading, doc_heading_events); (doc_smartphone, doc_smartphone_events);
   (doc_upper_tag, doc_upper_tag_events)].

Definition more_tokenize (text : str) : list event :=
  match find (fun d => str_eqb (fst d) text) (sample_documents ++ more_documents) with
  | Some d => snd d
  | None => []
  end.

(** A tag of the shape of [META_RE] whose year is written [ys] and whose
    month is written [ms]. *)
Definition meta_shape_of {U : CharDB} (ys ms w : str) : Prop :=
  exists lt ws1 nm q1 rm q2 ws2 ct q3 dash q4,
    w = lt ++ ws1 ++ nm ++ [q1] ++ rm ++ [q2] ++ ws2 ++ ct ++ [q3]
           ++ ys ++ dash ++ ms ++ [q4] /\
    same_word (u "<meta") lt /\
    (ws1 <> [] /\ forallb isspace ws1 = true) /\
    same_word (u "name=") nm /\
    atom_match true (OneOf quotes) q1 = true /\
    same_word (u "report-month") rm /\
    atom_match true (OneOf quotes) q2 = true /\
    (ws2 <> [] /\ forallb isspace ws2 = true) /\
    same_word (u "content=") ct /\
    atom_match true (OneOf quotes) q3 = true /\
    (List.length ys = 4%nat /\ forallb isdecimal ys = true) /\
    same_word (u "-") dash /\
    (List.length ms = 2%nat /\ forallb isdecimal ms = true) /\
    atom_match true (OneOf quotes) q4 = true.

(** [<p>2019 sales of the northern branch office март is the period of this
    long list 2031</p>]: the month stands at offset 41 of the text, the
    first year one character before the window and the last one one
    character after it. *)
Definition doc_years_outside : str := Eval vm_compute in
  u "<p>2019 sales of the northern branch office март is the period of this long list 2031</p>".

Definition doc_years_outside_events : list event := Eval vm_compute in
  [StartTag (u "p") [];
   Data (u "2019 sales of the northern branch office март is the period of this long list 2031");
   EndTag (u "p")].

(** The same with the last year one character earlier: it ends where the
    window ends. *)
Definition doc_year_at_end : str := Eval vm_compute in
  u "<p>2019 sales of the northern branch office март is the period of this long list2031</p>".

Definition doc_year_at_end_events : list event := Eval vm_compute in
  [StartTag (u "p") [];
   Data (u "2019 sales of the northern branch office март is the period of this long list2031");
   EndTag (u "p")].

(** The same with the month one character earlier: the first year begins
    where the window begins. *)
Definition doc_year_at_start : str := Eval vm_compute in
  u "<p>2019 sales of the northern branch officeмарт is the period of this long list 2031</p>".

Definition doc_year_at_start_events : list event := Eval vm_compute in
  [StartTag (u "p") [];
   Data (u "2019 sales of the northern branch officeмарт is the period of this long list 2031");
   EndTag (u "p")].

Definition window_documents : list (str * list event) :=
  [(doc_years_outside, doc_years_outside_events); (doc_year_at_end, doc_year_at_end_events);
   (doc_year_at_start, doc_year_at_start_events)].

Definition window_tokenize (text : str) : list event :=
  match find (fun d => str_eqb (fst d) text) (sample_documents ++ window_documents) with
  | Some d => snd d
  | None => []
  end.

(** * Properties of strings *)

Lemma str_eqb_eq (a b : str) : str_eqb a b = true <-> a = b.
Proof. unfold str_eqb. destruct (list_eq_dec Z.eq_dec a b); split; congruence. Qed.

Lemma nonempty_false (s : str) : nonempty s = false -> s = [].
Proof. destruct s; [reflexivity | discriminate]. Qed.

Lemma nonempty_true (s : str) : nonempty s = true <-> s <> [].
Proof. destruct s; simpl; split; congruence. Qed.

Lemma run_le p s : (run p s <= List.length s)%nat.
Proof. induction s as [|c s IH]; simpl; [lia|]. destruct (p c); lia. Qed.

Lemma run_firstn p s : forallb p (firstn (run p s) s) = true.
Proof.
  induction s as [|c s IH]; simpl; [reflexivity|].
  destruct (p c) eqn:E; simpl; [now rewrite E|reflexivity].
Qed.

Lemma run_stop p s : match skipn (run p s) s with [] => True | c :: _ => p c = false end.
Proof.
  induction s as [|c s IH]; simpl; [exact I|].
  destruct (p c) eqn:E; simpl; [exact IH|exact E].
Qed.

Lemma firstn_all_le_run p s n :
  (n <= List.length s)%nat -> forallb p (firstn n s) = true -> (n <= run p s)%nat.
Proof.
  revert n. induction s as [|c s IH]; intros [|n] Hn H; simpl in *; try lia.
  apply andb_true_iff in H. destruct H as [Hc H]. rewrite Hc.
  apply le_n_S, IH; [lia|assumption].
Qed.

Lemma lstrip_run s : lstrip s = skipn (run isspace s) s.
Proof.
  induction s as [|c s IH]; simpl; [reflexivity|].
  destruct (isspace c); simpl; [exact IH|reflexivity].
Qed.

Lemma lstrip_spaces ws s :
  forallb isspace ws = true -> lstrip (ws ++ s) = lstrip s.
Proof.
  induction ws as [|c ws IH]; simpl; [reflexivity|].
  intros H. apply andb_true_iff in H. destruct H as [Hc H]. now rewrite Hc, IH.
Qed.

Lemma lstrip_nonspace c s : isspace c = false -> lstrip (c :: s) = c :: s.
Proof. intros H. simpl. now rewrite H. Qed.

Lemma has_nonspace_app a b :
  has_nonspace (a ++ b) = has_nonspace a || has_nonspace b.
Proof. unfold has_nonspace. apply existsb_app. Qed.

Lemma has_nonspace_rev s : has_nonspace (rev s) = has_nonspace s.
Proof.
  induction s as [|c s IH]; simpl; [reflexivity|].
  rewrite has_nonspace_app, IH. simpl. rewrite orb_false_r. apply orb_comm.
Qed.

Lemma has_nonspace_lstrip s : has_nonspace (lstrip s) = has_nonspace s.
Proof.
  induction s as [|c s IH]; simpl; [reflexivity|].
  destruct (isspace c) eqn:E; simpl; [exact IH|now rewrite E].
Qed.

Lemma has_nonspace_strip s : has_nonspace (strip s) = has_nonspace s.
Proof.
  unfold strip, rstrip.
  now rewrite has_nonspace_rev, has_nonspace_lstrip, has_nonspace_rev, has_nonspace_lstrip.
Qed.

Lemma has_nonspace_nonempty s : has_nonspace s = true -> nonempty s = true.
Proof. destruct s; [discriminate|reflexivity]. Qed.

Lemma lstrip_nonempty s : nonempty (lstrip s) = has_nonspace s.
Proof.
  induction s as [|c s IH]; simpl; [reflexivity|].
  destruct (isspace c); simpl; [exact IH|reflexivity].
Qed.

Lemma nonempty_rev (s : str) : nonempty (rev s) = nonempty s.
Proof. destruct s as [|c s]; simpl; [reflexivity|]. now destruct (rev s). Qed.

Lemma strip_nonempty s : nonempty (strip s) = has_nonspace s.
Proof.
  unfold strip, rstrip.
  now rewrite nonempty_rev, lstrip_nonempty, has_nonspace_rev, has_nonspace_lstrip.
Qed.

Lemma has_nonspace_join sep xs x :
  In x xs -> has_nonspace x = true -> has_nonspace (join sep xs) = true.
Proof.
  induction xs as [|y ys IH]; [intros []|].
  intros Hin Hx. cbn [join]. destruct ys as [|z zs].
  - destruct Hin as [->|[]]. exact Hx.
  - rewrite !has_nonspace_app. destruct Hin as [->|Hin].
    + now rewrite Hx.
    + rewrite (IH Hin Hx). now rewrite !orb_true_r.
Qed.

(** * Properties of the matcher *)

Section MatcherFacts.

Context {U : CharDB} {HU : CharDBLaws U}.
Variable icase : bool.

Lemma rep_ok_zero a hi s : rep_ok icase a 0 hi s 0.
Proof. unfold rep_ok. simpl. repeat split; try lia. destruct hi; [lia|exact I]. Qed.

Lemma rep_ok_cons a lo hi c s n :
  rep_ok icase a lo hi (c :: s) (S n) <->
  atom_match icase a c = true /\ more hi = true /\ rep_ok icase a (Nat.pred lo) (dec hi) s n.
Proof.
  unfold rep_ok. simpl. rewrite andb_true_iff. split.
  - intros (H1 & H2 & H3 & H4 & H5). repeat split; try assumption; try lia.
    + destruct hi as [[|h]|]; simpl; try reflexivity; lia.
    + destruct hi as [h|]; simpl; [lia|exact I].
  - intros (H1 & H2 & H3 & H4 & H5 & H6). repeat split; try assumption; try lia.
    destruct hi as [[|h]|]; simpl in *; try discriminate; try lia; exact I.
Qed.

Lemma rep_ok_nil a lo hi n : rep_ok icase a lo hi [] n -> n = O /\ lo = O.
Proof. unfold rep_ok. simpl. lia. Qed.

Lemma rep_sound a : forall s lo hi i cs k x,
  rep icase a lo hi s i cs k = Some x ->
  exists n, rep_ok icase a lo hi s n /\ k (skipn n s) (i + n)%nat cs = Some x.
Proof.
  induction s as [|c s IH]; intros lo hi i cs k x H; simpl in H.
  - destruct lo; [|discriminate]. exists O. split; [apply rep_ok_zero|].
    now rewrite Nat.add_0_r.
  - assert (Hstop : match lo with O => k (c :: s) i cs | S _ => None end = Some x ->
                    exists n, rep_ok icase a lo hi (c :: s) n /\
                              k (skipn n (c :: s)) (i + n)%nat cs = Some x).
    { destruct lo; [|discriminate]. intros Hk. exists O. split; [apply rep_ok_zero|].
      now rewrite Nat.add_0_r. }
    destruct (atom_match icase a c && more hi) eqn:E; [|exact (Hstop H)].
    destruct (rep icase a (Nat.pred lo) (dec hi) s (S i) cs k) eqn:R; [|exact (Hstop H)].
    inversion H; subst. apply IH in R. destruct R as (n & Hok & Hk).
    apply andb_true_iff in E. destruct E as [E1 E2].
    exists (S n). split.
    + apply rep_ok_cons. auto.
    + simpl. now rewrite Nat.add_succ_r.
Qed.

Lemma rep_complete a : forall s lo hi i cs k n,
  rep icase a lo hi s i cs k = None ->
  rep_ok icase a lo hi s n -> k (skipn n s) (i + n)%nat cs = None.
Proof.
  induction s as [|c s IH]; intros lo hi i cs k n H Hok; simpl in H.
  - apply rep_ok_nil in Hok. destruct Hok; subst. simpl. now rewrite Nat.add_0_r.
  - destruct n as [|n].
    + destruct Hok as (_ & Hlo & _). assert (lo = O) by lia. subst lo.
      simpl. rewrite Nat.add_0_r.
      destruct (atom_match icase a c && more hi); [|exact H].
      now destruct (rep icase a (Nat.pred 0) (dec hi) s (S i) cs k).
    + apply rep_ok_cons in Hok. destruct Hok as (E1 & E2 & Hok).
      rewrite E1, E2 in H. simpl in H.
      destruct (rep icase a (Nat.pred lo) (dec hi) s (S i) cs k) eqn:R; [discriminate|].
      simpl. rewrite Nat.add_succ_r. exact (IH _ _ _ _ _ _ R Hok).
Qed.

Lemma rep_greedy a : forall s lo hi i cs k n x,
  rep_ok icase a lo hi s n ->
  k (skipn n s) (i + n)%nat cs = Some x ->
  (forall n', (n < n')%nat -> rep_ok icase a lo hi s n' ->
              k (skipn n' s) (i + n')%nat cs = None) ->
  rep icase a lo hi s i cs k = Some x.
Proof.
  induction s as [|c s IH]; intros lo hi i cs k n x Hok Hk Hmax; simpl.
  - apply rep_ok_nil in Hok. destruct Hok; subst. simpl in Hk.
    now rewrite Nat.add_0_r in Hk.
  - destruct n as [|n].
    + destruct Hok as (_ & Hlo & _). assert (lo = O) by lia. subst lo.
      simpl in Hk. rewrite Nat.add_0_r in Hk.
      destruct (atom_match icase a c && more hi) eqn:E; [|exact Hk].
      destruct (rep icase a (Nat.pred 0) (dec hi) s (S i) cs k) eqn:R; [|exact Hk].
      apply rep_sound in R. destruct R as (n' & Hok' & Hk').
      apply andb_true_iff in E. destruct E as [E1 E2].
      assert (Hc : rep_ok icase a 0 hi (c :: s) (S n')) by (apply rep_ok_cons; auto).
      specialize (Hmax (S n') ltac:(lia) Hc). simpl in Hmax.
      rewrite Nat.add_succ_r in Hmax. cbn [Nat.add] in Hk'. congruence.
    + apply rep_ok_cons in Hok. destruct Hok as (E1 & E2 & Hok).
      rewrite E1, E2. simpl.
      simpl in Hk. rewrite Nat.add_succ_r in Hk.
      rewrite (IH (Nat.pred lo) (dec hi) (S i) cs k n x Hok Hk); [reflexivity|].
      intros n' Hlt Hok'.
      assert (Hc : rep_ok icase a lo hi (c :: s) (S n')) by (apply rep_ok_cons; auto).
      specialize (Hmax (S n') ltac:(lia) Hc). simpl in Hmax.
      now rewrite Nat.add_succ_r in Hmax.
Qed.

(** With a continuation that accepts everything, a repetition takes the
    longest run allowed. *)
Lemma rep_ok_le_run a lo s n :
  rep_ok icase a lo None s n -> (n <= run (atom_match icase a) s)%nat.
Proof. intros (H1 & _ & _ & H4). now apply firstn_all_le_run. Qed.

Lemma rep_ok_run a lo s :
  (lo <= run (atom_match icase a) s)%nat ->
  rep_ok icase a lo None s (run (atom_match icase a) s).
Proof.
  intros H. repeat split; try assumption; [apply run_le|apply run_firstn].
Qed.

(** Matching a word against itself. *)
Lemma lit_self c : atom_match icase (Lit c) c = true.
Proof.
  unfold atom_match, lowered. destruct (icase && iscased c).
  - simpl. now rewrite Z.eqb_refl.
  - apply Z.eqb_refl.
Qed.

Lemma m_lits_self w r : forall s i cs k,
  m icase (Cat (lits w) r) (w ++ s) i cs k = m icase r s (i + List.length w)%nat cs k.
Proof.
  induction w as [|c w IH]; intros s i cs k.
  - simpl. now rewrite Nat.add_0_r.
  - cbn [lits app List.length m]. rewrite lit_self.
    specialize (IH s (S i) cs k). cbn [m] in IH. rewrite IH.
    now rewrite Nat.add_succ_r.
Qed.

Lemma m_sound : forall r s i cs k x,
  m icase r s i cs k = Some x ->
  exists w s' cs', s = w ++ s' /\ lang icase r w s' /\
                   k s' (i + List.length w)%nat cs' = Some x.
Proof.
  induction r as [|a|r1 IH1 r2 IH2|r1 IH1 r2 IH2|r1 IH1|a lo hi|g r1 IH1|];
    intros s i cs k x H; simpl in H.
  - exists [], s, cs. simpl. now rewrite Nat.add_0_r.
  - destruct s as [|c s]; [discriminate|].
    destruct (atom_match icase a c) eqn:E; [|discriminate].
    exists [c], s, cs. simpl. repeat split; [exists c; auto|].
    now rewrite Nat.add_1_r.
  - apply IH1 in H. destruct H as (w1 & s1 & cs1 & -> & L1 & H).
    apply IH2 in H. destruct H as (w2 & s2 & cs2 & -> & L2 & H).
    exists (w1 ++ w2), s2, cs2. repeat split.
    + now rewrite app_assoc.
    + simpl. exists w1, w2. auto.
    + now rewrite length_app, Nat.add_assoc.
  - destruct (m icase r1 s i cs k) eqn:E.
    + inversion H; subst. apply IH1 in E. destruct E as (w & s' & cs' & -> & L & E').
      exists w, s', cs'. simpl. auto.
    + apply IH2 in H. destruct H as (w & s' & cs' & -> & L & E').
      exists w, s', cs'. simpl. auto.
  - destruct (m icase r1 s i cs k) eqn:E.
    + inversion H; subst. apply IH1 in E. destruct E as (w & s' & cs' & -> & L & E').
      exists w, s', cs'. simpl. auto.
    + exists [], s, cs. simpl. rewrite Nat.add_0_r. auto.
  - apply rep_sound in H. destruct H as (n & (H1 & H2 & H3 & H4) & H).
    exists (firstn n s), (skipn n s), cs. repeat split.
    + now rewrite firstn_skipn.
    + exact H4.
    + rewrite length_firstn. lia.
    + destruct hi; [rewrite length_firstn; lia|exact I].
    + rewrite length_firstn. now replace (Nat.min n (List.length s)) with n by lia.
  - apply IH1 in H. destruct H as (w & s' & cs' & -> & L & H).
    exists w, s', ((g, (i, (i + List.length w)%nat)) :: cs'). auto.
  - destruct (at_end s) eqn:E; [|discriminate].
    exists [], s, cs. simpl. rewrite Nat.add_0_r. auto.
Qed.

(** The leftmost match. *)
Lemma search_from_some r : forall s i mt,
  search_from icase r s i = Some mt ->
  exists n, (n <= List.length s)%nat /\ m_start mt = (i + n)%nat /\
    match_at icase r (skipn n s) (i + n) = Some (m_end mt, m_caps mt) /\
    forall n', (n' < n)%nat -> match_at icase r (skipn n' s) (i + n') = None.
Proof.
  induction s as [|c s IH]; intros i mt H; simpl in H.
  - destruct (match_at icase r [] i) as [[j cs]|] eqn:E; [|discriminate].
    inversion H; subst. exists O. simpl. rewrite Nat.add_0_r.
    repeat split; [lia|assumption|intros; lia].
  - destruct (match_at icase r (c :: s) i) as [[j cs]|] eqn:E.
    + inversion H; subst. exists O. simpl. rewrite Nat.add_0_r.
      repeat split; [lia|assumption|intros; lia].
    + apply IH in H. destruct H as (n & Hn & Hs & Hm & Hmin).
      exists (S n). simpl. rewrite Nat.add_succ_r. repeat split; try assumption; try lia.
      intros [|n'] Hlt; simpl.
      * now rewrite Nat.add_0_r.
      * rewrite Nat.add_succ_r. apply Hmin. lia.
Qed.

Lemma search_from_none r : forall s i n,
  search_from icase r s i = None -> (n <= List.length s)%nat ->
  match_at icase r (skipn n s) (i + n) = None.
Proof.
  induction s as [|c s IH]; intros i n H Hn; simpl in H.
  - destruct (match_at icase r [] i) as [[j cs]|] eqn:E; [discriminate|].
    simpl in Hn. assert (n = O) by lia. subst. simpl. now rewrite Nat.add_0_r.
  - destruct (match_at icase r (c :: s) i) as [[j cs]|] eqn:E; [discriminate|].
    destruct n as [|n]; simpl.
    + now rewrite Nat.add_0_r.
    + rewrite Nat.add_succ_r. apply (IH (S i) n H). simpl in Hn. lia.
Qed.

Lemma search_from_first r : forall s i n e cs,
  (n <= List.length s)%nat ->
  match_at icase r (skipn n s) (i + n) = Some (e, cs) ->
  (forall n', (n' < n)%nat -> match_at icase r (skipn n' s) (i + n') = None) ->
  search_from icase r s i = Some (Match (i + n) e cs).
Proof.
  induction s as [|c s IH]; intros i n e cs Hn Hm Hmin.
  - simpl in Hn. assert (n = O) by lia. subst. simpl in *.
    rewrite Nat.add_0_r in *. now rewrite Hm.
  - destruct n as [|n]; simpl in *.
    + rewrite Nat.add_0_r in *. now rewrite Hm.
    + pose proof (Hmin O ltac:(lia)) as H0. simpl in H0. rewrite Nat.add_0_r in H0.
      rewrite H0. rewrite Nat.add_succ_r in *.
      apply (IH (S i) n e cs); [lia|assumption|].
      intros n' Hlt. specialize (Hmin (S n') ltac:(lia)). simpl in Hmin.
      now rewrite Nat.add_succ_r in Hmin.
Qed.

Lemma search_from_all_none r : forall s i,
  (forall n, (n <= List.length s)%nat -> match_at icase r (skipn n s) (i + n) = None) ->
  search_from icase r s i = None.
Proof.
  intros s i H. destruct (search_from icase r s i) as [mt|] eqn:E; [|reflexivity].
  apply search_from_some in E. destruct E as (n & Hn & _ & Hm & _).
  rewrite (H n Hn) in Hm. discriminate.
Qed.

End MatcherFacts.

(** * Patterns that are a run of one class: [re.split] and [re.sub] *)

Section RunPatterns.

Context {U : CharDB} {HU : CharDBLaws U}.
Variable icase : bool.

Lemma rep_accept a lo : forall s i cs,
  rep icase a lo None s i cs accept =
  if (lo <=? run (atom_match icase a) s)%nat
  then Some ((i + run (atom_match icase a) s)%nat, cs) else None.
Proof.
  intros s i cs. destruct (lo <=? run (atom_match icase a) s)%nat eqn:E.
  - apply Nat.leb_le in E.
    apply rep_greedy with (n := run (atom_match icase a) s).
    + now apply rep_ok_run.
    + reflexivity.
    + intros n' Hlt Hok. apply rep_ok_le_run in Hok. lia.
  - apply Nat.leb_gt in E.
    destruct (rep icase a lo None s i cs accept) eqn:R; [|reflexivity].
    apply rep_sound in R. destruct R as (n & Hok & _).
    pose proof (rep_ok_le_run _ _ _ _ _ Hok). destruct Hok as (_ & Hlo & _). lia.
Qed.

(** The leftmost match of [a+]: after the longest prefix without [a], the
    longest run of [a]. *)
Lemma search_plus a : forall s i,
  search_from icase (Rep a 1 None) s i =
  match skipn (run (fun c => negb (atom_match icase a c)) s) s with
  | [] => None
  | _ :: rest =>
      Some (Match (i + run (fun c => negb (atom_match icase a c)) s)
                  (i + run (fun c => negb (atom_match icase a c)) s
                   + S (run (atom_match icase a) rest)) [])
  end.
Proof.
  induction s as [|c s IH]; intros i.
  - reflexivity.
  - cbn [search_from]. unfold match_at. cbn [m]. rewrite rep_accept.
    cbn [run]. destruct (atom_match icase a c) eqn:E; cbn [negb].
    + cbn [Nat.leb skipn]. now rewrite !Nat.add_0_r, Nat.add_succ_r.
    + cbn [Nat.leb skipn]. rewrite IH.
      destruct (skipn (run (fun c0 => negb (atom_match icase a c0)) s) s); [reflexivity|].
      now rewrite !Nat.add_succ_r.
Qed.

End RunPatterns.

Section SplitSubFacts.

Context {U : CharDB} {HU : CharDBLaws U}.

Lemma search_end_le rx s mt : search rx s = Some mt -> (m_end mt <= List.length s)%nat.
Proof.
  unfold search. intros H. apply search_from_some in H.
  destruct H as (n & Hn & _ & Hm & _). unfold match_at in Hm.
  apply m_sound in Hm. destruct Hm as (w & s' & cs' & Hs & _ & Hk).
  unfold accept in Hk. inversion Hk; subst.
  assert (Hl : List.length (skipn n s) = (List.length w + List.length s')%nat)
    by (rewrite Hs; apply length_app).
  rewrite length_skipn in Hl. lia.
Qed.

Lemma run_pattern_never_empty a ic : never_empty (Compile (Rep a 1 None) ic).
Proof.
  intros s mt H. unfold search in H. cbn [pat ignorecase] in H.
  rewrite search_plus in H.
  destruct (skipn _ s); [discriminate|]. inversion H; subst. simpl. lia.
Qed.

(** More rounds than [length s] change nothing: the rounds of [re_split]
    and [re_sub] are enough. *)
Lemma re_split_fuel_enough rx : never_empty rx -> forall f1 f2 s,
  (List.length s < f1)%nat -> (List.length s < f2)%nat ->
  re_split_fuel f1 rx s = re_split_fuel f2 rx s.
Proof.
  intros Hne. induction f1 as [|f1 IH]; intros f2 s H1 H2; [lia|].
  destruct f2 as [|f2]; [lia|]. cbn [re_split_fuel].
  destruct (search rx s) as [mt|] eqn:E; [|reflexivity].
  pose proof (Hne _ _ E). pose proof (search_end_le _ _ _ E).
  f_equal. apply IH; rewrite length_skipn; lia.
Qed.

Lemma re_sub_fuel_enough rx repl : never_empty rx -> forall f1 f2 s,
  (List.length s < f1)%nat -> (List.length s < f2)%nat ->
  re_sub_fuel f1 rx repl s = re_sub_fuel f2 rx repl s.
Proof.
  intros Hne. induction f1 as [|f1 IH]; intros f2 s H1 H2; [lia|].
  destruct f2 as [|f2]; [lia|]. cbn [re_sub_fuel].
  destruct (search rx s) as [mt|] eqn:E; [|reflexivity].
  pose proof (Hne _ _ E). pose proof (search_end_le _ _ _ E).
  do 2 f_equal. apply IH; rewrite length_skipn; lia.
Qed.

(** *** [re.split(r"[_\-\.]+", stem)] *)

Lemma pieces_free pre :
  forallb (fun c => negb (is_stem_separator c)) pre = true -> pieces pre = [pre].
Proof.
  induction pre as [|x pre IH]; cbn [pieces forallb]; [reflexivity|].
  intros H. apply andb_true_iff in H. destruct H as [Hx H].
  apply negb_true_iff in Hx. now rewrite Hx, (IH H).
Qed.

Lemma pieces_split pre c rest :
  forallb (fun c => negb (is_stem_separator c)) pre = true ->
  is_stem_separator c = true ->
  pieces (pre ++ c :: rest) = pre :: pieces rest.
Proof.
  intros Hpre Hc. induction pre as [|x pre IH]; cbn [pieces app].
  - now rewrite Hc.
  - cbn [forallb] in Hpre. apply andb_true_iff in Hpre. destruct Hpre as [Hx Hpre].
    apply negb_true_iff in Hx. now rewrite Hx, (IH Hpre).
Qed.

Lemma segments_skip ws t :
  forallb is_stem_separator ws = true -> segments (ws ++ t) = segments t.
Proof.
  unfold segments. induction ws as [|c ws IH]; cbn [app forallb pieces]; [reflexivity|].
  intros H. apply andb_true_iff in H. destruct H as [Hc H].
  rewrite Hc. cbn [filter nonempty]. exact (IH H).
Qed.

Lemma stem_split_search s :
  search STEM_SPLIT_RE s =
  match skipn (run (fun c => negb (is_stem_separator c)) s) s with
  | [] => None
  | _ :: rest =>
      Some (Match (run (fun c => negb (is_stem_separator c)) s)
                  (run (fun c => negb (is_stem_separator c)) s
                   + S (run is_stem_separator rest)) [])
  end.
Proof. unfold search. cbn [pat ignorecase STEM_SPLIT_RE]. now rewrite search_plus. Qed.

Lemma segments_split pre c rest :
  forallb (fun c => negb (is_stem_separator c)) pre = true ->
  is_stem_separator c = true ->
  segments (pre ++ c :: rest) =
  filter nonempty [pre] ++ segments (skipn (run is_stem_separator rest) rest).
Proof.
  intros Hpre Hc. unfold segments at 1. rewrite (pieces_split _ _ rest Hpre Hc).
  change (filter nonempty (pre :: pieces rest))
    with (filter nonempty ([pre] ++ pieces rest)).
  rewrite filter_app. f_equal. fold (segments rest).
  rewrite <- (firstn_skipn (run is_stem_separator rest) rest) at 1.
  apply segments_skip, run_firstn.
Qed.

Lemma re_split_fuel_segments : forall fuel s,
  (List.length s < fuel)%nat ->
  filter nonempty (re_split_fuel fuel STEM_SPLIT_RE s) = segments s.
Proof.
  induction fuel as [|fuel IH]; intros s Hlen; [lia|].
  cbn [re_split_fuel]. rewrite stem_split_search.
  set (n := run (fun c => negb (is_stem_separator c)) s).
  pose proof (run_firstn (fun c => negb (is_stem_separator c)) s) as Hpre.
  pose proof (run_stop (fun c => negb (is_stem_separator c)) s) as Hstop.
  pose proof (firstn_skipn n s) as Hs. fold n in Hpre, Hstop.
  destruct (skipn n s) as [|c rest] eqn:E.
  - rewrite app_nil_r in Hs. rewrite Hs in Hpre.
    unfold segments. now rewrite (pieces_free _ Hpre).
  - apply negb_false_iff in Hstop. cbn [m_start m_end].
    replace (skipn (n + S (run is_stem_separator rest)) s)
      with (skipn (run is_stem_separator rest) rest).
    2:{ rewrite Nat.add_comm, <- skipn_skipn, E. reflexivity. }
    change (filter nonempty (firstn n s :: ?l))
      with (filter nonempty ([firstn n s] ++ l)).
    rewrite filter_app, IH.
    2:{ rewrite length_skipn. rewrite <- Hs in Hlen. rewrite length_app in Hlen.
        simpl in Hlen. lia. }
    rewrite <- (segments_split _ _ _ Hpre Hstop). now rewrite Hs.
Qed.

Lemma re_split_segments s :
  filter nonempty (re_split STEM_SPLIT_RE s) = segments s.
Proof. apply re_split_fuel_segments. lia. Qed.

(** *** [re.sub(r"\s+", " ", name)] *)

Lemma spaces_search s :
  search SPACES_RE s =
  match skipn (run (fun c => negb (isspace c)) s) s with
  | [] => None
  | _ :: rest =>
      Some (Match (run (fun c => negb (isspace c)) s)
                  (run (fun c => negb (isspace c)) s + S (run isspace rest)) [])
  end.
Proof. unfold search. cbn [pat ignorecase SPACES_RE]. now rewrite search_plus. Qed.

Lemma re_sub_fuel_nonspace repl : forall fuel s,
  (List.length s < fuel)%nat -> has_nonspace s = true ->
  has_nonspace (re_sub_fuel fuel SPACES_RE repl s) = true.
Proof.
  induction fuel as [|fuel IH]; intros s Hlen Hs; [lia|].
  cbn [re_sub_fuel]. rewrite spaces_search.
  set (n := run (fun c => negb (isspace c)) s).
  pose proof (run_firstn (fun c => negb (isspace c)) s) as Hpre.
  pose proof (run_stop (fun c => negb (isspace c)) s) as Hstop.
  pose proof (firstn_skipn n s) as Hsplit. fold n in Hpre, Hstop.
  destruct (skipn n s) as [|c rest] eqn:E; [exact Hs|].
  apply negb_false_iff in Hstop. cbn [m_start m_end].
  replace (skipn (n + S (run isspace rest)) s) with (skipn (run isspace rest) rest).
  2:{ rewrite Nat.add_comm, <- skipn_skipn, E. reflexivity. }
  rewrite !has_nonspace_app.
  destruct (firstn n s) as [|x pre] eqn:Ef.
  - rewrite IH; [now rewrite !orb_true_r| |].
    + rewrite length_skipn. rewrite <- Hsplit in Hlen. simpl in Hlen. lia.
    + rewrite <- Hsplit in Hs. cbn [app] in Hs. unfold has_nonspace in Hs.
      cbn [existsb] in Hs. rewrite Hstop in Hs. cbn [negb orb] in Hs.
      fold (has_nonspace rest) in Hs.
      rewrite <- (firstn_skipn (run isspace rest) rest), has_nonspace_app in Hs.
      apply orb_true_iff in Hs. destruct Hs as [Hs|Hs]; [|exact Hs].
      exfalso. pose proof (run_firstn isspace rest) as Hr.
      unfold has_nonspace in Hs. apply existsb_exists in Hs.
      destruct Hs as (y & Hy & Hny). rewrite forallb_forall in Hr.
      rewrite (Hr y Hy) in Hny. discriminate.
  - cbn [forallb] in Hpre. apply andb_true_iff in Hpre. destruct Hpre as [Hx _].
    unfold has_nonspace at 1. cbn [existsb]. now rewrite Hx.
Qed.

(** The rounds of [re_split] and [re_sub] are enough for the two patterns
    of the program. *)
Lemma re_split_enough fuel s :
  (List.length s < fuel)%nat ->
  re_split_fuel fuel STEM_SPLIT_RE s = re_split STEM_SPLIT_RE s.
Proof.
  intros H. apply re_split_fuel_enough; [apply run_pattern_never_empty|exact H|lia].
Qed.

Lemma re_sub_enough fuel repl s :
  (List.length s < fuel)%nat ->
  re_sub_fuel fuel SPACES_RE repl s = re_sub SPACES_RE repl s.
Proof.
  intros H. apply re_sub_fuel_enough; [apply run_pattern_never_empty|exact H|lia].
Qed.

Lemma re_sub_spaces_nonspace repl s :
  has_nonspace s = true -> has_nonspace (re_sub SPACES_RE repl s) = true.
Proof. apply re_sub_fuel_nonspace. lia. Qed.

End SplitSubFacts.

(** * The patterns of the program *)

Section PatternFacts.

Context {U : CharDB} {HU : CharDBLaws U}.

(** *** [YEAR_RE] *)

Lemma year_match_at s i :
  match_at false (pat YEAR_RE) s i =
  match s with
  | c1 :: c2 :: d1 :: d2 :: _ =>
      if (c1 =? 0x32) && (c2 =? 0x30) && isdecimal d1 && isdecimal d2
      then Some ((4 + i)%nat, [(1%nat, (i, (4 + i)%nat))]) else None
  | _ => None
  end.
Proof.
  unfold match_at.
  destruct s as [|c1 [|c2 [|d1 [|d2 s]]]];
    cbn [pat YEAR_RE m rep atom_match andb more dec option_map Nat.pred accept];
    try reflexivity.
  - now destruct (c1 =? 50).
  - destruct (c1 =? 50); [|reflexivity]. now destruct (c2 =? 48).
  - destruct (c1 =? 50); [|reflexivity]. destruct (c2 =? 48); [|reflexivity].
    cbn [andb]. now destruct (isdecimal d1).
  - destruct (c1 =? 50); [|reflexivity]. destruct (c2 =? 48); [|reflexivity].
    cbn [andb]. destruct (isdecimal d1); [|reflexivity].
    cbn [andb]. destruct (isdecimal d2); [|reflexivity].
    cbn [andb]. destruct s as [|c s]; [reflexivity|].
    cbn [rep more]. now rewrite andb_false_r.
Qed.

Lemma year_match_some w n i e cs :
  match_at false (pat YEAR_RE) (skipn n w) i = Some (e, cs) ->
  exists d1 d2 rest,
    skipn n w = 0x32 :: 0x30 :: d1 :: d2 :: rest /\
    isdecimal d1 = true /\ isdecimal d2 = true /\
    e = (4 + i)%nat /\ cs = [(1%nat, (i, (4 + i)%nat))].
Proof.
  rewrite year_match_at. destruct (skipn n w) as [|c1 [|c2 [|d1 [|d2 rest]]]];
    try discriminate.
  destruct (c1 =? 50) eqn:E1; [|discriminate].
  destruct (c2 =? 48) eqn:E2; [|discriminate].
  destruct (isdecimal d1) eqn:E3; [|discriminate].
  destruct (isdecimal d2) eqn:E4; [|discriminate].
  cbn [andb]. intros H. inversion H; subst.
  apply Z.eqb_eq in E1, E2. subst. exists d1, d2, rest. auto.
Qed.

Lemma year_match_none w n i :
  match_at false (pat YEAR_RE) (skipn n w) i = None -> forall y, ~ year_at w n y.
Proof.
  rewrite year_match_at. intros H y (d1 & d2 & rest & Hs & H1 & H2 & _).
  rewrite Hs in H. rewrite H1, H2 in H. discriminate.
Qed.

Lemma year_value d1 d2 :
  int_of [0x32; 0x30; d1; d2] = 2000 + 10 * decimal d1 + decimal d2.
Proof.
  unfold int_of. cbn [fold_left].
  rewrite (decimal_ascii 0x32), (decimal_ascii 0x30); lia.
Qed.

(** *** [NAME_RE] *)

Lemma rep_space_commit k :
  (forall c r j cs, isspace c = true -> k (c :: r) j cs = None) ->
  forall s i cs,
    rep false Space 0 None s i cs k = k (lstrip s) (i + run isspace s)%nat cs.
Proof.
  intros Hk. induction s as [|c s IH]; intros i cs.
  - cbn. now rewrite Nat.add_0_r.
  - cbn [rep atom_match more andb lstrip run Nat.pred dec option_map].
    destruct (isspace c) eqn:E.
    + cbn [andb]. rewrite IH, Nat.add_succ_r. cbn [Nat.add].
      destruct (k (lstrip s) (S (i + run isspace s)) cs); [reflexivity|].
      now apply Hk.
    + cbn [andb]. now rewrite Nat.add_0_r.
Qed.

Lemma at_end_cons c s : at_end (c :: s) = true -> c = 10 /\ s = [].
Proof.
  cbn [at_end]. intros H. apply andb_true_iff in H. destruct H as [H1 H2].
  apply Z.eqb_eq in H1. apply negb_true_iff, nonempty_false in H2. auto.
Qed.

Lemma rep_to_end a (F : nat -> caps -> nat * caps) :
  atom_match false a 10 = true ->
  forall s lo i cs,
    rep false a lo None s i cs
        (fun s' j cs' => if at_end s' then Some (F j cs') else None) =
    if forallb (atom_match false a) s && (lo <=? List.length s)%nat
    then Some (F (i + List.length s)%nat cs) else None.
Proof.
  intros Hnl. induction s as [|c s IH]; intros lo i cs.
  - cbn. destruct lo; [now rewrite Nat.add_0_r|reflexivity].
  - cbn [rep more andb forallb List.length].
    destruct (atom_match false a c) eqn:E; cbn [andb].
    + rewrite IH. rewrite Nat.add_succ_r. cbn [Nat.add].
      destruct (forallb (atom_match false a) s) eqn:Ea; cbn [andb].
      * destruct lo as [|lo]; cbn [Nat.pred Nat.leb].
        -- reflexivity.
        -- destruct (lo <=? List.length s)%nat; reflexivity.
      * destruct lo as [|lo]; [|reflexivity].
        destruct (at_end (c :: s)) eqn:Ee; [|reflexivity].
        apply at_end_cons in Ee. destruct Ee as [_ ->]. discriminate.
    + destruct lo as [|lo]; [|reflexivity].
      destruct (at_end (c :: s)) eqn:Ee; [|reflexivity].
      apply at_end_cons in Ee. destruct Ee as [-> _]. congruence.
Qed.

Lemma capital_nonspace c : is_capital c = true -> isspace c = false.
Proof. unfold is_capital, in_items, capitals, isspace. cbn [existsb item_has]. lia. Qed.

Lemma name_match_at s i : match_at false (pat NAME_RE) s i = name_match s i.
Proof.
  unfold match_at, name_match. destruct s as [|c0 s0]; [reflexivity|].
  cbn [pat NAME_RE cat m atom_match set_match].
  fold (is_separator c0). destruct (is_separator c0); [|reflexivity].
  rewrite rep_space_commit.
  2:{ intros c r j cs Hc. fold (is_capital c).
      destruct (is_capital c) eqn:E; [|reflexivity].
      apply capital_nonspace in E. congruence. }
  pose proof (run_le isspace s0) as Hrun.
  assert (Hlen : List.length (lstrip s0) = (List.length s0 - run isspace s0)%nat)
    by (rewrite lstrip_run; apply length_skipn).
  destruct (lstrip s0) as [|c r]; [reflexivity|].
  fold (is_capital c). destruct (is_capital c); [|reflexivity].
  rewrite (rep_to_end (NoneOf excluded)
             (fun j cs' => (j, (1%nat, ((S i + run isspace s0)%nat, j)) :: cs')));
    [|reflexivity].
  cbn [andb]. change (atom_match false (NoneOf excluded))
    with (fun x => negb (is_excluded x)).
  destruct (forallb (fun x => negb (is_excluded x)) r); [|reflexivity].
  cbn [andb]. destruct (2 <=? List.length r)%nat; [|reflexivity].
  cbn [List.length] in *.
  replace (S (S i + run isspace s0) + List.length r)%nat
    with (i + S (List.length s0))%nat by lia.
  replace (S i + run isspace s0)%nat
    with (i + S (List.length s0) - S (List.length r))%nat by lia.
  reflexivity.
Qed.

End PatternFacts.

Section PatternFacts2.

Context {U : CharDB} {HU : CharDBLaws U}.

Lemma name_suffix_match s seg i :
  name_suffix false s seg ->
  name_match s i =
  Some ((i + List.length s)%nat,
        [(1%nat, ((i + List.length s - List.length seg)%nat, (i + List.length s)%nat))]).
Proof.
  intros (sep & ws & c & rest & -> & -> & Hsep & Hws & _ & Hc & Hrest & Hlen).
  unfold name_match. rewrite Hsep, (lstrip_spaces _ _ Hws).
  rewrite (lstrip_nonspace _ _ (capital_nonspace _ Hc)).
  rewrite Hc, Hrest. cbn [andb].
  apply Nat.leb_le in Hlen. now rewrite Hlen.
Qed.

Lemma name_match_suffix s i e cs :
  name_match s i = Some (e, cs) ->
  exists seg, name_suffix false s seg /\ e = (i + List.length s)%nat /\
    cs = [(1%nat, ((i + List.length s - List.length seg)%nat, (i + List.length s)%nat))].
Proof.
  unfold name_match. destruct s as [|c0 s0]; [discriminate|].
  destruct (is_separator c0) eqn:Hsep; [|discriminate].
  pose proof (firstn_skipn (run isspace s0) s0) as Hs0.
  pose proof (run_firstn isspace s0) as Hws.
  rewrite <- lstrip_run in Hs0.
  destruct (lstrip s0) as [|c r] eqn:El; [discriminate|].
  destruct (is_capital c) eqn:Hc; [|discriminate].
  destruct (forallb (fun x => negb (is_excluded x)) r) eqn:Hr; [|discriminate].
  destruct (2 <=? List.length r)%nat eqn:Hl; [|discriminate].
  cbn [andb]. intros H. inversion H; subst e cs.
  exists (c :: r). split; [|split; reflexivity].
  exists c0, (firstn (run isspace s0) s0), c, r.
  rewrite Hs0. apply Nat.leb_le in Hl. repeat split; auto. discriminate.
Qed.

Lemma skipn_suffix (l seg : str) :
  skipn (List.length (l ++ seg) - List.length seg) (l ++ seg) = seg.
Proof.
  rewrite length_app. replace (List.length l + List.length seg - List.length seg)%nat
    with (List.length l) by lia.
  rewrite skipn_app, Nat.sub_diag, skipn_all. reflexivity.
Qed.

Lemma name_suffix_is_suffix spaced t seg :
  name_suffix spaced t seg -> exists l, t = l ++ seg.
Proof.
  intros (sep & ws & c & rest & -> & _). now exists (sep :: ws).
Qed.

(** The group of a match of [NAME_RE] that starts at offset [n]. *)
Lemma name_group title n seg :
  (n <= List.length title)%nat ->
  name_suffix false (skipn n title) seg ->
  group title
    (Match n (n + List.length (skipn n title))
       [(1%nat, ((n + List.length (skipn n title) - List.length seg)%nat,
                 (n + List.length (skipn n title))%nat))]) 1 = seg.
Proof.
  intros Hn Hsuf. unfold group. cbn [m_caps lookup_cap Nat.eqb].
  destruct (name_suffix_is_suffix _ _ _ Hsuf) as (l & Hl).
  rewrite length_skipn.
  replace (n + (List.length title - n))%nat with (List.length title) by lia.
  assert (Ht : title = (firstn n title ++ l) ++ seg)
    by (rewrite <- app_assoc, <- Hl; symmetry; apply firstn_skipn).
  revert Ht. generalize (firstn n title ++ l). intros l' ->.
  rewrite skipn_suffix.
  rewrite length_app.
  replace (List.length l' + List.length seg - (List.length l' + List.length seg - List.length seg))%nat
    with (List.length seg) by lia.
  apply firstn_all.
Qed.

Lemma name_search_some title n seg :
  name_suffix false (skipn n title) seg ->
  (forall n' seg', (n' < n)%nat -> ~ name_suffix false (skipn n' title) seg') ->
  exists mt, search NAME_RE title = Some mt /\ group title mt 1 = seg.
Proof.
  intros Hsuf Hmin.
  assert (Hn : (n <= List.length title)%nat).
  { destruct (Nat.le_gt_cases n (List.length title)) as [H|H]; [exact H|].
    rewrite skipn_all2 in Hsuf by lia.
    destruct Hsuf as (? & ? & ? & ? & H0 & _). discriminate. }
  eexists. split.
  - unfold search. cbn [ignorecase].
    apply (search_from_first false (pat NAME_RE) title 0 n).
    + exact Hn.
    + rewrite name_match_at. apply name_suffix_match. exact Hsuf.
    + intros n' Hlt. rewrite name_match_at.
      destruct (name_match (skipn n' title) (0 + n')) as [[e cs]|] eqn:E; [|reflexivity].
      apply name_match_suffix in E. destruct E as (seg' & Hs' & _).
      exfalso. exact (Hmin n' seg' Hlt Hs').
  - cbn [Nat.add]. now apply name_group.
Qed.

Lemma name_search_none title :
  (forall n seg, ~ name_suffix false (skipn n title) seg) ->
  search NAME_RE title = None.
Proof.
  intros H. unfold search. apply search_from_all_none. intros n Hn.
  rewrite name_match_at.
  destruct (name_match (skipn n title) (0 + n)) as [[e cs]|] eqn:E; [|reflexivity].
  apply name_match_suffix in E. destruct E as (seg & Hs & _).
  exfalso. exact (H n seg Hs).
Qed.

Lemma name_search_inv title mt :
  search NAME_RE title = Some mt ->
  exists n seg, name_suffix false (skipn n title) seg /\ group title mt 1 = seg.
Proof.
  unfold search. intros H. apply search_from_some in H.
  destruct H as (n & Hn & Hs & Hm & _). rewrite name_match_at in Hm.
  apply name_match_suffix in Hm. destruct Hm as (seg & Hsuf & He & Hcs).
  exists n, seg. split; [exact Hsuf|].
  destruct mt as [st e cs]. cbn [m_start m_end m_caps] in *. subst.
  cbn [Nat.add]. now apply name_group.
Qed.

(** *** [META_RE] *)

Lemma in_items_i_single items c : In (Single c) items -> in_items_i items c = true.
Proof.
  intros Hin. unfold in_items_i, charmap, hascased.
  assert (Hc : In c (flat_map item_chars items)).
  { apply in_flat_map. exists (Single c). split; [exact Hin|now left]. }
  apply existsb_exists.
  destruct (existsb iscased (flat_map item_chars items)) eqn:E.
  - exists (tolower c). split; [|apply Z.eqb_refl].
    apply in_flat_map. exists c. split; [exact Hc|now left].
  - exists c. split; [|apply Z.eqb_refl].
    apply in_flat_map. exists c. split; [exact Hc|].
    assert (Hi : iscased c = false).
    { destruct (iscased c) eqn:Ei; [|reflexivity].
      assert (existsb iscased (flat_map item_chars items) = true)
        by (apply existsb_exists; eauto). congruence. }
    unfold iscased in Hi. apply orb_false_iff in Hi. destruct Hi as [Hi _].
    apply negb_false_iff, Z.eqb_eq in Hi. left. now symmetry.
Qed.

Lemma m_atom_step ic a r c s i cs k :
  atom_match ic a c = true ->
  m ic (Cat (Atom a) r) ([c] ++ s) i cs k = m ic r s (S i) cs k.
Proof. intros H. cbn [m app]. now rewrite H. Qed.

Lemma m_atom_last ic a c s i cs k :
  atom_match ic a c = true -> m ic (Atom a) ([c] ++ s) i cs k = k s (S i) cs.
Proof. intros H. cbn [m app]. now rewrite H. Qed.

Lemma m_space_step ic r s i cs k :
  hd_nonspace s = true ->
  m ic (Cat (Rep Space 1 None) r) (SP ++ s) i cs k = m ic r s (S i) cs k.
Proof.
  intros H. cbn [m SP app rep atom_match more andb Nat.pred dec option_map].
  change (isspace 32) with true. cbn [andb].
  destruct s as [|c s].
  - cbn [rep]. now destruct (m ic r [] (S i) cs k).
  - cbn [hd_nonspace] in H. apply negb_true_iff in H.
    cbn [rep atom_match]. rewrite H. cbn [andb].
    now destruct (m ic r (c :: s) (S i) cs k).
Qed.

Lemma rep_exact ic a : forall ds n s i cs k,
  List.length ds = n -> forallb (atom_match ic a) ds = true ->
  rep ic a n (Some n) (ds ++ s) i cs k = k s (i + n)%nat cs.
Proof.
  induction ds as [|d ds IH]; intros n s i cs k Hn Hds; cbn [List.length] in Hn; subst n.
  - cbn [app]. rewrite Nat.add_0_r. destruct s as [|c s]; cbn [rep more]; [reflexivity|].
    now rewrite andb_false_r.
  - cbn [forallb] in Hds. apply andb_true_iff in Hds. destruct Hds as [Hd Hds].
    cbn [app rep more Nat.pred dec option_map]. rewrite Hd. cbn [andb].
    rewrite (IH (List.length ds) s (S i) cs k eq_refl Hds).
    rewrite Nat.add_succ_r. cbn [Nat.add].
    now destruct (k s (S (i + List.length ds)) cs).
Qed.

Lemma m_group_digits ic g n r ds s i cs k :
  List.length ds = n -> forallb isdecimal ds = true ->
  m ic (Cat (Group g (Rep Digit n (Some n))) r) (ds ++ s) i cs k =
  m ic r s (i + n)%nat ((g, (i, (i + n)%nat)) :: cs) k.
Proof.
  intros Hn Hds. cbn [m]. now rewrite (rep_exact ic Digit ds n s i cs _ Hn Hds).
Qed.

Lemma meta_pat :
  pat META_RE =
  cat [lits (u "<meta"); Rep Space 1 None; lits (u "name=");
       Atom (OneOf quotes); lits (u "report-month"); Atom (OneOf quotes);
       Rep Space 1 None; lits (u "content="); Atom (OneOf quotes);
       Group 1 (Rep Digit 4 (Some 4%nat)); Atom (Lit (ch "-"));
       Group 2 (Rep Digit 2 (Some 2%nat)); Atom (OneOf quotes)].
Proof. reflexivity. Qed.

Lemma dquote_quote ic : atom_match ic (OneOf quotes) dquote = true.
Proof.
  destruct ic; cbn [atom_match set_match]; [|reflexivity].
  apply in_items_i_single. now left.
Qed.

Lemma meta_match_tag ys ms s i :
  List.length ys = 4%nat -> List.length ms = 2%nat ->
  forallb isdecimal ys = true -> forallb isdecimal ms = true ->
  match_at true (pat META_RE) (meta_tag_of ys ms ++ s) i =
  Some ((i + 43)%nat, [(2%nat, ((i + 40)%nat, (i + 42)%nat));
                       (1%nat, ((i + 35)%nat, (i + 39)%nat))]).
Proof.
  intros Hy Hm Hyd Hmd. unfold match_at, meta_tag_of.
  rewrite meta_pat. cbn [cat]. rewrite <- !app_assoc.
  rewrite m_lits_self.
  rewrite m_space_step by reflexivity.
  rewrite m_lits_self.
  rewrite (m_atom_step _ _ _ _ _ _ _ _ (dquote_quote true)).
  rewrite m_lits_self.
  rewrite (m_atom_step _ _ _ _ _ _ _ _ (dquote_quote true)).
  rewrite m_space_step by reflexivity.
  rewrite m_lits_self.
  rewrite (m_atom_step _ _ _ _ _ _ _ _ (dquote_quote true)).
  rewrite (m_group_digits _ _ _ _ _ _ _ _ _ Hy Hyd).
  change (u "-") with [ch "-"].
  rewrite (m_atom_step _ _ _ _ _ _ _ _ (lit_self true (ch "-"))).
  rewrite (m_group_digits _ _ _ _ _ _ _ _ _ Hm Hmd).
  rewrite (m_atom_last _ _ _ _ _ _ _ (dquote_quote true)).
  unfold accept.
  change (List.length (u "<meta")) with 5%nat.
  change (List.length (u "name=")) with 5%nat.
  change (List.length (u "report-month")) with 12%nat.
  change (List.length (u "content=")) with 8%nat.
  f_equal. apply f_equal2; [lia|].
  apply f_equal2; [apply f_equal2; [reflexivity|apply f_equal2; lia]|].
  apply f_equal2; [apply f_equal2; [reflexivity|apply f_equal2; lia]|reflexivity].
Qed.

End PatternFacts2.

Section MetaFacts.

Context {U : CharDB} {HU : CharDBLaws U}.

Lemma lang_lits ic w : forall l rest,
  lang ic (lits w) l rest ->
  Forall2 (fun c x => atom_match ic (Lit c) x = true) w l.
Proof.
  induction w as [|c w IH]; intros l rest H; cbn [lits lang] in H.
  - subst. constructor.
  - destruct H as (w1 & w2 & -> & (x & -> & Hx) & H2).
    cbn [app]. constructor; [exact Hx|]. exact (IH _ _ H2).
Qed.

Lemma lang_spaces w rest :
  lang true (Rep Space 1 None) w rest -> w <> [] /\ forallb isspace w = true.
Proof.
  cbn [lang atom_match]. intros (H1 & H2 & _). split; [|exact H1].
  destruct w; [simpl in H2; lia|discriminate].
Qed.




(** *** Decimal numerals *)

Lemma digits_length n : forall v, List.length (digits n v) = n.
Proof.
  induction n as [|n IH]; intros v; cbn [digits]; [reflexivity|].
  rewrite length_app, IH. simpl. lia.
Qed.

Lemma digit_isdecimal v : isdecimal (0x30 + v mod 10) = true.
Proof.
  pose proof (Z.mod_pos_bound v 10 ltac:(lia)).
  rewrite isdecimal_ascii; [lia|]. unfold is_ascii. lia.
Qed.

Lemma digits_decimal n : forall v, forallb isdecimal (digits n v) = true.
Proof.
  induction n as [|n IH]; intros v; cbn [digits]; [reflexivity|].
  rewrite forallb_app, IH. cbn [forallb]. now rewrite digit_isdecimal.
Qed.

Lemma int_of_app a c : int_of (a ++ [c]) = 10 * int_of a + decimal c.
Proof. unfold int_of. now rewrite fold_left_app. Qed.

Lemma int_of_digits n : forall v, 0 <= v -> int_of (digits n v) = v mod 10 ^ Z.of_nat n.
Proof.
  induction n as [|n IH]; intros v Hv.
  - cbn. now rewrite Z.mod_1_r.
  - cbn [digits]. rewrite int_of_app, IH by (apply Z.div_pos; lia).
    pose proof (Z.mod_pos_bound v 10 ltac:(lia)).
    rewrite decimal_ascii by lia.
    rewrite Nat2Z.inj_succ, Z.pow_succ_r by lia.
    rewrite (Z.rem_mul_r v 10 (10 ^ Z.of_nat n)) by lia. lia.
Qed.

End MetaFacts.

(** * ASCII patterns on ASCII subjects

    On these the matcher does not depend on the character database: the
    result can be computed with any instance. *)

Section AsciiAtoms.

Context {U : CharDB} {HU : CharDBLaws U}.










End AsciiAtoms.

Section Agreement.

Variables U1 U2 : CharDB.
Context {L1 : CharDBLaws U1} {L2 : CharDBLaws U2}.
Variable ic : bool.




End Agreement.


(** * The character database on Basic Latin and Cyrillic *)

Lemma basic_tolower_ascii c : is_ascii c = true -> basic_tolower c = ascii_tolower c.
Proof.
  unfold is_ascii, basic_tolower, ascii_tolower. intros H.
  destruct ((0x41 <=? c) && (c <=? 0x5A)) eqn:E1; [reflexivity|].
  destruct ((0x410 <=? c) && (c <=? 0x42F)) eqn:E2; [lia|].
  destruct ((0x400 <=? c) && (c <=? 0x40F)) eqn:E3; [lia|reflexivity].
Qed.

Lemma basic_toupper_ascii c : is_ascii c = true -> basic_toupper c = ascii_toupper c.
Proof.
  unfold is_ascii, basic_toupper, ascii_toupper. intros H.
  destruct ((0x61 <=? c) && (c <=? 0x7A)) eqn:E1; [reflexivity|].
  destruct ((0x430 <=? c) && (c <=? 0x44F)) eqn:E2; [lia|].
  destruct ((0x450 <=? c) && (c <=? 0x45F)) eqn:E3; [lia|reflexivity].
Qed.

Lemma basic_toupper_nonspace c : isspace c = false -> isspace (basic_toupper c) = false.
Proof.
  unfold basic_toupper. intros H.
  destruct ((0x61 <=? c) && (c <=? 0x7A)) eqn:E1; [unfold isspace; lia|].
  destruct ((0x430 <=? c) && (c <=? 0x44F)) eqn:E2; [unfold isspace; lia|].
  destruct ((0x450 <=? c) && (c <=? 0x45F)) eqn:E3; [unfold isspace; lia|assumption].
Qed.

Lemma basic_tolower_nonspace c : isspace c = false -> isspace (basic_tolower c) = false.
Proof.
  unfold basic_tolower. intros H.
  destruct ((0x41 <=? c) && (c <=? 0x5A)) eqn:E1; [unfold isspace; lia|].
  destruct ((0x410 <=? c) && (c <=? 0x42F)) eqn:E2; [unfold isspace; lia|].
  destruct ((0x400 <=? c) && (c <=? 0x40F)) eqn:E3; [unfold isspace; lia|assumption].
Qed.

Lemma has_nonspace_map_tolower s :
  has_nonspace s = true -> has_nonspace (map basic_tolower s) = true.
Proof.
  unfold has_nonspace. induction s as [|c s IH]; simpl; [discriminate|].
  destruct (isspace c) eqn:E; simpl.
  - intros H. rewrite (IH H). apply orb_true_r.
  - intros _. now rewrite (basic_tolower_nonspace _ E).
Qed.

Lemma basic_capitalize_nonspace s :
  has_nonspace s = true -> has_nonspace (basic_capitalize s) = true.
Proof.
  destruct s as [|c s]; [discriminate|].
  unfold has_nonspace at 1. simpl.
  destruct (isspace c) eqn:E; simpl.
  - intros H. unfold has_nonspace. simpl.
    apply orb_true_iff. right. now apply has_nonspace_map_tolower.
  - intros _. unfold has_nonspace. simpl.
    now rewrite (basic_toupper_nonspace _ E).
Qed.

Lemma basic_lower_ascii s :
  forallb is_ascii s = true -> map basic_tolower s = map ascii_tolower s.
Proof.
  induction s as [|c s IH]; simpl; [reflexivity|].
  intros H. apply andb_true_iff in H. destruct H as [Hc Hs].
  now rewrite (basic_tolower_ascii _ Hc), (IH Hs).
Qed.

Lemma basic_capitalize_ascii s :
  forallb is_ascii s = true -> basic_capitalize s = ascii_capitalize s.
Proof.
  destruct s as [|c s]; simpl; [reflexivity|].
  intros H. apply andb_true_iff in H. destruct H as [Hc Hs].
  now rewrite (basic_toupper_ascii _ Hc), (basic_lower_ascii _ Hs).
Qed.

Lemma basic_chardb_laws : CharDBLaws basic_chardb.
Proof.
  split.
  - exact basic_tolower_ascii.
  - exact basic_toupper_ascii.
  - intros c x _ [].
  - intros c _. reflexivity.
  - intros c _. reflexivity.
  - exact basic_lower_ascii.
  - exact basic_capitalize_ascii.
  - exact basic_capitalize_nonspace.
Qed.

(** * Properties of the program *)

Section ProgramFacts.

Context {U : CharDB} {HU : CharDBLaws U}.
Variable tokenize : str -> list event.

(** *** The metadata tag *)

Lemma skipn_app_exact (pre s : str) n k :
  List.length pre = n -> skipn (n + k) (pre ++ s) = skipn k s.
Proof.
  intros <-. rewrite skipn_app.
  rewrite skipn_all2 by lia.
  now replace (List.length pre + k - List.length pre)%nat with k by lia.
Qed.

Lemma firstn_prefix (a b : str) : firstn (List.length a) (a ++ b) = a.
Proof. induction a as [|c a IH]; cbn; [reflexivity|now rewrite IH]. Qed.

Lemma skipn_prefix (a b : str) : skipn (List.length a) (a ++ b) = b.
Proof. induction a as [|c a IH]; cbn; [reflexivity|exact IH]. Qed.

Lemma meta_tag_of_eq ys ms :
  meta_tag_of ys ms = meta_head ++ ys ++ u "-" ++ ms ++ [dquote] ++ u ">".
Proof. reflexivity. Qed.

Lemma meta_groups pre ys ms post cs e :
  List.length ys = 4%nat -> List.length ms = 2%nat ->
  cs = [(2%nat, ((List.length pre + 40)%nat, (List.length pre + 42)%nat));
        (1%nat, ((List.length pre + 35)%nat, (List.length pre + 39)%nat))] ->
  group (pre ++ meta_tag_of ys ms ++ post) (Match (List.length pre) e cs) 1 = ys /\
  group (pre ++ meta_tag_of ys ms ++ post) (Match (List.length pre) e cs) 2 = ms.
Proof.
  intros Hy Hm ->. unfold group. cbn [m_caps lookup_cap Nat.eqb].
  rewrite meta_tag_of_eq. split.
  - rewrite (skipn_app_exact pre _ (List.length pre) 35 eq_refl).
    replace (List.length pre + 39 - (List.length pre + 35))%nat with 4%nat by lia.
    change 35%nat with (List.length meta_head + 0)%nat.
    rewrite <- app_assoc, (skipn_app_exact meta_head _ _ 0 eq_refl).
    cbn [skipn]. rewrite <- app_assoc, <- Hy. apply firstn_prefix.
  - rewrite (skipn_app_exact pre _ (List.length pre) 40 eq_refl).
    replace (List.length pre + 42 - (List.length pre + 40))%nat with 2%nat by lia.
    change 40%nat with (List.length meta_head + 5)%nat.
    rewrite <- app_assoc, (skipn_app_exact meta_head _ _ 5 eq_refl).
    rewrite <- !app_assoc.
    replace 5%nat with (List.length ys + 1)%nat by lia.
    rewrite (skipn_app_exact ys _ _ 1 eq_refl).
    cbn [u skipn app]. change (skipn 1 (u "-" ++ ?x)) with x.
    rewrite <- Hm. apply firstn_prefix.
Qed.

Lemma meta_search_tag pre ys ms post :
  List.length ys = 4%nat -> List.length ms = 2%nat ->
  forallb isdecimal ys = true -> forallb isdecimal ms = true ->
  no_meta_before (pre ++ meta_tag_of ys ms ++ post) (List.length pre) ->
  extract_month_year tokenize (pre ++ meta_tag_of ys ms ++ post) =
  (Some (int_of ms), Some (int_of ys), MONTHS_get MONTHS (int_of ms)).
Proof.
  intros Hy Hm Hyd Hmd Hfirst. unfold extract_month_year.
  assert (Hs : search META_RE (pre ++ meta_tag_of ys ms ++ post) =
               Some (Match (0 + List.length pre) (0 + List.length pre + 43)
                       [(2%nat, ((0 + List.length pre + 40)%nat, (0 + List.length pre + 42)%nat));
                        (1%nat, ((0 + List.length pre + 35)%nat, (0 + List.length pre + 39)%nat))])).
  { unfold search. cbn [ignorecase].
    apply search_from_first.
    - rewrite length_app. lia.
    - rewrite skipn_prefix. now apply meta_match_tag.
    - intros n' Hlt. exact (Hfirst n' Hlt). }
  rewrite Hs. cbn [Nat.add].
  destruct (meta_groups pre ys ms post _ (List.length pre + 43) Hy Hm eq_refl) as [-> ->].
  reflexivity.
Qed.

Lemma meta_tag_result pre y mo post :
  0 <= y < 10000 -> 0 <= mo < 100 ->
  no_meta_before (pre ++ meta_tag y mo ++ post) (List.length pre) ->
  extract_month_year tokenize (pre ++ meta_tag y mo ++ post) =
  (Some mo, Some y, MONTHS_get MONTHS mo).
Proof.
  intros Hy Hmo Hfirst.
  change (meta_tag y mo) with (meta_tag_of (digits 4 y) (digits 2 mo)) in *.
  rewrite (meta_search_tag pre _ _ post (digits_length 4 y) (digits_length 2 mo)
             (digits_decimal 4 y) (digits_decimal 2 mo) Hfirst).
  rewrite !int_of_digits by lia.
  change (10 ^ Z.of_nat 4) with 10000. change (10 ^ Z.of_nat 2) with 100.
  now rewrite !Z.mod_small by lia.
Qed.

(** *** The loop over the months *)

Lemma find_month_none table blob :
  find_month table blob = None ->
  forall num name rx, In (num, name, rx) table -> search rx blob = None.
Proof.
  induction table as [|[[k nm] rx0] rest IH]; intros H num name rx Hin; [destruct Hin|].
  cbn [find_month] in H. destruct (search rx0 blob) eqn:E; [discriminate|].
  destruct Hin as [Heq|Hin]; [now inversion Heq; subst|]. exact (IH H _ _ _ Hin).
Qed.

Lemma find_month_some table blob num name pos :
  find_month table blob = Some (num, name, pos) ->
  exists rx mt, In (num, name, rx) table /\ search rx blob = Some mt /\
                pos = Z.of_nat (m_start mt).
Proof.
  induction table as [|[[k nm] rx0] rest IH]; intros H; [discriminate|].
  cbn [find_month] in H. destruct (search rx0 blob) as [mt|] eqn:E.
  - inversion H; subst. exists rx0, mt. split; [now left|auto].
  - destruct (IH H) as (rx & mt & Hin & Hs & Hp). exists rx, mt. split; [now right|auto].
Qed.

Lemma find_month_least table blob num name pos :
  ascending table = true ->
  find_month table blob = Some (num, name, pos) ->
  forall n name' rx', In (n, name', rx') table -> search rx' blob <> None -> num <= n.
Proof.
  induction table as [|[[k nm] rx0] rest IH]; intros Hasc H n name' rx' Hin Hm;
    [destruct Hin|].
  cbn [ascending] in Hasc. apply andb_true_iff in Hasc. destruct Hasc as [Hhd Hasc].
  cbn [find_month] in H. destruct (search rx0 blob) as [mt|] eqn:E.
  - inversion H; subst. destruct Hin as [Heq|Hin].
    + inversion Heq; subst. lia.
    + rewrite forallb_forall in Hhd. specialize (Hhd _ Hin).
      unfold month_key in Hhd. cbn [fst] in Hhd. lia.
  - destruct Hin as [Heq|Hin].
    + inversion Heq; subst. congruence.
    + exact (IH Hasc H _ _ _ Hin Hm).
Qed.

Lemma month_compiled_ascending : ascending MONTH_COMPILED = true.
Proof. reflexivity. Qed.

Lemma month_compiled_range num name rx :
  In (num, name, rx) MONTH_COMPILED -> 1 <= num <= 12.
Proof.
  intros H.
  assert (Hall : forallb (fun e => (1 <=? month_key e) && (month_key e <=? 12))
                   MONTH_COMPILED = true) by reflexivity.
  rewrite forallb_forall in Hall. specialize (Hall _ H).
  unfold month_key in Hall. cbn [fst] in Hall. lia.
Qed.

(** *** The year near the month *)

Lemma year_search around :
  match search YEAR_RE around with
  | Some ym =>
      exists d1 d2 rest,
        skipn (m_start ym) around = 0x32 :: 0x30 :: d1 :: d2 :: rest /\
        isdecimal d1 = true /\ isdecimal d2 = true /\
        group around ym 1 = [0x32; 0x30; d1; d2] /\
        forall j y, (j < m_start ym)%nat -> ~ year_at around j y
  | None => forall i y, ~ year_at around i y
  end.
Proof.
  destruct (search YEAR_RE around) as [ym|] eqn:E; unfold search in E; cbn [ignorecase] in E.
  - apply search_from_some in E. destruct E as (n & Hn & Hst & Hm & Hmin).
    cbn [Nat.add] in *. subst n.
    apply year_match_some in Hm.
    destruct Hm as (d1 & d2 & rest & Hs & H1 & H2 & He & Hcs).
    exists d1, d2, rest. repeat split; try assumption.
    + unfold group. rewrite Hcs. cbn [lookup_cap Nat.eqb].
      replace (4 + m_start ym - m_start ym)%nat with 4%nat by lia.
      now rewrite Hs.
    + intros j y Hj. apply year_match_none with (i := j). exact (Hmin j Hj).
  - intros i y Hy.
    destruct (Nat.le_gt_cases i (List.length around)) as [Hi|Hi].
    + pose proof (search_from_none false (pat YEAR_RE) around 0 i E Hi) as Hn.
      exact (year_match_none _ _ _ Hn y Hy).
    + destruct Hy as (d1 & d2 & rest & Hs & _).
      rewrite skipn_all2 in Hs by lia. discriminate.
Qed.

Lemma year_at_fun w i y y' : year_at w i y -> year_at w i y' -> y = y'.
Proof.
  intros (d1 & d2 & r & Hs & _ & _ & ->) (d1' & d2' & r' & Hs' & _ & _ & ->).
  rewrite Hs in Hs'. now inversion Hs'; subst.
Qed.

(** *** The name *)

Lemma name_suffix_nonspace spaced t seg : name_suffix spaced t seg -> has_nonspace seg = true.
Proof.
  intros (sep & ws & c & rest & _ & -> & _ & _ & _ & Hc & _).
  unfold has_nonspace. cbn [existsb]. now rewrite (capital_nonspace _ Hc).
Qed.

Lemma extract_name_nonspace text nm :
  extract_name_from_html tokenize text = Some nm -> has_nonspace nm = true.
Proof.
  unfold extract_name_from_html.
  set (p := feed tokenize new_parser text).
  destruct (nonempty (strip (join SP (title_text p)))) eqn:Et.
  - destruct (search NAME_RE (strip (join SP (title_text p)))) as [mt|] eqn:Es;
      intros H; inversion H; subst nm.
    + apply name_search_inv in Es. destruct Es as (n & seg & Hsuf & ->).
      rewrite has_nonspace_strip. exact (name_suffix_nonspace _ _ _ Hsuf).
    + rewrite has_nonspace_strip. now rewrite strip_nonempty in Et.
  - destruct (nonempty (strip (join SP (h1_text p)))) eqn:Eh; [|discriminate].
    intros H. inversion H; subst nm.
    rewrite has_nonspace_strip. now rewrite strip_nonempty in Eh.
Qed.

Lemma pieces_cover c : forall s,
  In c s -> is_stem_separator c = false -> exists seg, In seg (segments s) /\ In c seg.
Proof.
  assert (H : forall s, In c s -> is_stem_separator c = false ->
                        exists seg, In seg (pieces s) /\ In c seg).
  { induction s as [|x s IH]; intros Hin Hc; [destruct Hin|].
    cbn [pieces]. destruct (is_stem_separator x) eqn:Ex.
    - destruct Hin as [->|Hin]; [congruence|].
      destruct (IH Hin Hc) as (seg & Hs & Hcs). exists seg. split; [now right|exact Hcs].
    - destruct (pieces s) as [|y ys] eqn:Ep.
      + destruct Hin as [->|Hin]; [exists [c]; split; now left|].
        destruct (IH Hin Hc) as (seg & [] & _).
      + destruct Hin as [->|Hin]; [exists (c :: y); split; now left|].
        destruct (IH Hin Hc) as (seg & [<-|Hs] & Hcs).
        * exists (x :: y). split; [now left|now right].
        * exists seg. split; [now right|exact Hcs]. }
  intros s Hin Hc. destruct (H s Hin Hc) as (seg & Hs & Hcs).
  exists seg. split; [|exact Hcs]. unfold segments. apply filter_In.
  split; [exact Hs|]. destruct seg; [destruct Hcs|reflexivity].
Qed.

Lemma pieces_forall (P : char -> bool) : forall s,
  forallb P s = true -> forall seg, In seg (pieces s) -> forallb P seg = true.
Proof.
  induction s as [|x s IH]; intros Hs seg Hin.
  - destruct Hin as [<-|[]]. reflexivity.
  - cbn [forallb] in Hs. apply andb_true_iff in Hs. destruct Hs as [Hx Hs].
    cbn [pieces] in Hin. destruct (is_stem_separator x).
    + destruct Hin as [<-|Hin]; [reflexivity|exact (IH Hs _ Hin)].
    + destruct (pieces s) as [|y ys] eqn:Ep.
      * destruct Hin as [<-|[]]. cbn [forallb]. now rewrite Hx.
      * destruct Hin as [<-|Hin].
        -- cbn [forallb]. rewrite Hx. exact (IH Hs y (or_introl eq_refl)).
        -- exact (IH Hs seg (or_intror Hin)).
Qed.

Lemma humanize_segments stem :
  humanize_from_filename stem = join SP (map str_capitalize (segments stem)).
Proof. unfold humanize_from_filename. now rewrite re_split_segments. Qed.

Lemma humanize_nonspace stem :
  existsb (fun c => negb (is_stem_separator c) && negb (isspace c)) stem = true ->
  has_nonspace (humanize_from_filename stem) = true.
Proof.
  intros H. apply existsb_exists in H. destruct H as (c & Hin & Hc).
  apply andb_true_iff in Hc. destruct Hc as [Hsep Hsp].
  apply negb_true_iff in Hsep.
  destruct (pieces_cover c stem Hin Hsep) as (seg & Hseg & Hcs).
  rewrite humanize_segments.
  apply has_nonspace_join with (x := str_capitalize seg).
  - now apply in_map.
  - apply str_capitalize_nonspace. unfold has_nonspace. apply existsb_exists.
    exists c. auto.
Qed.

End ProgramFacts.

(** * The window of the year *)

Section WindowFacts.

Context {U : CharDB}.

Lemma firstn_four (n : nat) (l : str) x1 x2 x3 x4 r :
  firstn n l = x1 :: x2 :: x3 :: x4 :: r ->
  (4 <= n)%nat /\ exists r', l = x1 :: x2 :: x3 :: x4 :: r'.
Proof.
  intros H.
  do 4 (destruct n as [|n]; [discriminate|]; destruct l as [|? l]; [discriminate|];
        cbn [firstn] in H; injection H as <- H).
  split; [lia|]. now exists l.
Qed.

Lemma year_at_length w i y : year_at w i y -> (i + 4 <= List.length w)%nat.
Proof.
  intros (d1 & d2 & rest & Hs & _).
  assert (Hl : List.length (skipn i w) = (4 + List.length rest)%nat) by now rewrite Hs.
  rewrite length_skipn in Hl. lia.
Qed.

(** A year stands at offset [k] of the slice of [n] characters from offset
    [a] exactly when it stands at offset [a + k] of the string and its four
    characters end within the slice. *)
Lemma year_at_slice blob a n k y :
  year_at (firstn n (skipn a blob)) k y <->
  year_at blob (a + k) y /\ (k + 4 <= n)%nat.
Proof.
  unfold year_at. rewrite skipn_firstn_comm, skipn_skipn, (Nat.add_comm k a). split.
  - intros (d1 & d2 & rest & Hs & H1 & H2 & Hy).
    apply firstn_four in Hs. destruct Hs as [Hn (r' & Hs)].
    split; [|lia]. now exists d1, d2, r'.
  - intros [(d1 & d2 & rest & Hs & H1 & H2 & Hy) Hn].
    assert (Hm : exists m, (n - k)%nat = S (S (S (S m)))) by (exists (n - k - 4)%nat; lia).
    destruct Hm as [m Hm]. exists d1, d2, (firstn m rest). rewrite Hs, Hm.
    cbn [firstn]. repeat split; assumption.
Qed.

(** The years of the window around offset [p] are the years of the blob
    whose four characters lie between 40 characters before [p] and 40
    characters after [p]. *)
Lemma window_years blob (p : Z) :
  0 <= p <= len blob ->
  (forall k y, year_at (year_window blob p) k y ->
     year_at blob (Z.to_nat (Z.max 0 (p - 40)) + k) y /\
     p - 40 <= Z.of_nat (Z.to_nat (Z.max 0 (p - 40)) + k) /\
     Z.of_nat (Z.to_nat (Z.max 0 (p - 40)) + k) + 4 <= p + 40) /\
  (forall i y, year_at blob i y ->
     p - 40 <= Z.of_nat i -> Z.of_nat i + 4 <= p + 40 ->
     exists k, i = (Z.to_nat (Z.max 0 (p - 40)) + k)%nat /\ year_at (year_window blob p) k y).
Proof.
  intros Hp. unfold year_window, slice, len in *. split.
  - intros k y H. apply year_at_slice in H. destruct H as [H Hk].
    split; [exact H|]. lia.
  - intros i y H H1 H2. pose proof (year_at_length _ _ _ H) as Hl.
    exists (i - Z.to_nat (Z.max 0 (p - 40)))%nat. split; [lia|].
    apply year_at_slice.
    replace (Z.to_nat (Z.max 0 (p - 40)) + (i - Z.to_nat (Z.max 0 (p - 40))))%nat with i by lia.
    split; [exact H|lia].
Qed.

Lemma search_start_le rx s mt : search rx s = Some mt -> (m_start mt <= List.length s)%nat.
Proof.
  unfold search. intros H. apply search_from_some in H.
  destruct H as (n & Hn & Hs & _). cbn [Nat.add] in Hs. lia.
Qed.

End WindowFacts.

(** * The example of the specification: [a.html] and [b.html] *)

Example index_item_a :
  index_item (U := basic_chardb) sample_tokenize (u "a.html") (u "a") doc_report =
  Item (u "Smith John") (u "reports/a.html") (Some 3) (Some (u "Март")) (Some 2024).
Proof. vm_compute. reflexivity. Qed.

Example index_item_b :
  index_item (U := basic_chardb) sample_tokenize (u "b.html") (u "b") doc_tagged =
  Item (u "B") (u "reports/b.html") (Some 7) (Some (u "Июль")) (Some 2025).
Proof. vm_compute. reflexivity. Qed.

(** * The claims of the specification *)

(** ** Period resolution *)

(** The search of the visible text returns the month and its name
    together. *)
Lemma blob_month_with_name (U : CharDB) blob mo yr label :
  month_year_of_blob blob = (mo, yr, label) -> (mo = None <-> label = None).
Proof.
  unfold month_year_of_blob.
  destruct (find_month MONTH_COMPILED blob) as [[[num nm] pos]|];
    intros H; inversion H; subst; split; congruence.
Qed.

(** A month outside the table comes back with the year and without a
    name. *)
Lemma months_get_outside mo : ~ 1 <= mo <= 12 -> MONTHS_get MONTHS mo = None.
Proof.
  intros H. unfold MONTHS. cbn [MONTHS_get].
  repeat match goal with
         | |- context [?k =? mo] => destruct (k =? mo) eqn:?; [lia|]
         end.
  reflexivity.
Qed.

Lemma month_outside_table (U : CharDB) (HU : CharDBLaws U) (tokenize : str -> list event)
    (pre post : str) (y mo : Z) :
  0 <= y < 10000 -> 0 <= mo < 100 -> ~ 1 <= mo <= 12 ->
  no_meta_before (pre ++ meta_tag y mo ++ post) (List.length pre) ->
  extract_month_year tokenize (pre ++ meta_tag y mo ++ post) = (Some mo, Some y, None).
Proof.
  intros Hy Hmo Hout Hfirst.
  rewrite (meta_tag_result tokenize pre y mo post Hy Hmo Hfirst).
  now rewrite (months_get_outside mo Hout).
Qed.

(** C1 (the code departs from the claim): on the document
    [<meta name="report-month" content="2025-13">] period resolution returns
    the month 13 and the year 2025 and no month name: [month] is present
    while [month_name] is absent. *)
Theorem month_13_without_name (U : CharDB) (HU : CharDBLaws U)
    (tokenize : str -> list event) :
  extract_month_year tokenize doc_month_13 = (Some 13, Some 2025, None).
Proof.
  change doc_month_13 with ([] ++ meta_tag 2025 13 ++ []).
  rewrite meta_tag_result; [reflexivity|lia|lia|].
  intros i Hi. cbn [List.length] in Hi. lia.
Qed.

Lemma month_13_without_name_witness :
  extract_month_year (U := basic_chardb) sample_tokenize doc_month_13 =
  (Some 13, Some 2025, None).
Proof. exact (month_13_without_name basic_chardb basic_chardb_laws sample_tokenize). Defined.

(** C2, the claim as stated fails: a document that contains the tag of
    March 2024 after the tag of July 2025 resolves to July 2025. *)
Lemma second_meta_tag_ignored :
  extract_month_year (U := basic_chardb) sample_tokenize
    (meta_tag 2025 7 ++ meta_tag 2024 3 ++ []) =
  (Some 7, Some 2025, Some (u "Июль")) /\
  (Some 7, Some 2025, Some (u "Июль")) <> (Some 3, Some 2024, MONTHS_get MONTHS 3).
Proof. split; [vm_compute; reflexivity|vm_compute; discriminate]. Qed.

(** C2, amended: for every document that contains the tag
    [<meta name="report-month" content="YYYY-MM">] with a month in 1-12, and
    in which the metadata pattern matches nowhere before this tag, period
    resolution returns exactly the declared year, the declared month and the
    label of this month in [MONTHS], whatever the rest of the document and
    whatever the scan of the visible text (the tokenizer) would deliver. *)
Theorem first_meta_tag_wins (U : CharDB) (HU : CharDBLaws U) (tokenize : str -> list event)
    (pre post : str) (y mo : Z) :
  0 <= y < 10000 -> 1 <= mo <= 12 ->
  no_meta_before (pre ++ meta_tag y mo ++ post) (List.length pre) ->
  exists p label,
    In (mo, (p, label)) MONTHS /\
    extract_month_year tokenize (pre ++ meta_tag y mo ++ post) =
    (Some mo, Some y, Some label).
Proof.
  intros Hy Hmo Hfirst.
  rewrite (meta_tag_result tokenize pre y mo post Hy ltac:(lia) Hfirst).
  assert (Hc : mo = 1 \/ mo = 2 \/ mo = 3 \/ mo = 4 \/ mo = 5 \/ mo = 6 \/ mo = 7 \/
               mo = 8 \/ mo = 9 \/ mo = 10 \/ mo = 11 \/ mo = 12) by lia.
  unfold MONTHS.
  repeat (destruct Hc as [->|Hc];
          [eexists; eexists; split; [|reflexivity]; cbn [In]; tauto|]).
  subst mo. eexists; eexists; split; [|reflexivity]; cbn [In]; tauto.
Qed.

Lemma first_meta_tag_wins_witness :
  (0 <= 2025 < 10000) /\ (1 <= 7 <= 12) /\
  no_meta_before (U := basic_chardb) (page_head ++ meta_tag 2025 7 ++ page_rest)
    (List.length page_head) /\
  exists p label,
    In (7, (p, label)) MONTHS /\
    extract_month_year (U := basic_chardb) sample_tokenize
      (page_head ++ meta_tag 2025 7 ++ page_rest) =
    (Some 7, Some 2025, Some label).
Proof.
  assert (H1 : 0 <= 2025 < 10000) by lia.
  assert (H2 : 1 <= 7 <= 12) by lia.
  assert (H3 : no_meta_before (U := basic_chardb)
                 (page_head ++ meta_tag 2025 7 ++ page_rest) (List.length page_head)).
  { intros i Hi. cbn [List.length page_head] in Hi.
    do 12 (destruct i as [|i]; [vm_compute; reflexivity|]). lia. }
  split; [exact H1|]. split; [exact H2|]. split; [exact H3|].
  exact (first_meta_tag_wins basic_chardb basic_chardb_laws sample_tokenize
           page_head page_rest 2025 7 H1 H2 H3).
Defined.

(** C3: for every document in which the metadata pattern is not found, if
    the pattern of at least one month is found in the joined visible text,
    then the month returned is the smallest month number, in 1-12, whose
    pattern is found anywhere in this text, with the name of this month:
    the selection is by the order of the table, not by the place of the
    matches. *)
Theorem smallest_matching_month (U : CharDB) (tokenize : str -> list event) (text : str) :
  search META_RE text = None ->
  (exists n, month_matches n (visible_blob tokenize text)) ->
  exists mo label yr,
    extract_month_year tokenize text = (Some mo, yr, Some label) /\
    1 <= mo <= 12 /\
    (exists rx, In (mo, label, rx) MONTH_COMPILED /\
                search rx (visible_blob tokenize text) <> None) /\
    forall n, month_matches n (visible_blob tokenize text) -> mo <= n.
Proof.
  intros Hmeta (n & name & rx & Hin & Hm).
  unfold extract_month_year, month_year_of_blob. rewrite Hmeta.
  set (blob := visible_blob tokenize text) in *.
  destruct (find_month MONTH_COMPILED blob) as [[[mo label] pos]|] eqn:E.
  - destruct (find_month_some _ _ _ _ _ E) as (rx0 & mt & Hin0 & Hs0 & _).
    eexists mo, label, _. split; [reflexivity|].
    split; [exact (month_compiled_range _ _ _ Hin0)|].
    split; [exists rx0; split; [exact Hin0|congruence]|].
    intros n' (name' & rx' & Hin' & Hm').
    exact (find_month_least _ _ _ _ _ month_compiled_ascending E _ _ _ Hin' Hm').
  - exfalso. apply Hm. exact (find_month_none _ _ E _ _ _ Hin).
Qed.

Lemma smallest_matching_month_witness :
  search (U := basic_chardb) META_RE doc_two_months = None /\
  month_matches (U := basic_chardb) 7
    (visible_blob (U := basic_chardb) sample_tokenize doc_two_months) /\
  extract_month_year (U := basic_chardb) sample_tokenize doc_two_months =
  (Some 1, Some 2025, Some (u "Январь")) /\
  exists mo label yr,
    extract_month_year (U := basic_chardb) sample_tokenize doc_two_months =
    (Some mo, yr, Some label) /\
    1 <= mo <= 12 /\
    (exists rx, In (mo, label, rx) MONTH_COMPILED /\
                search (U := basic_chardb) rx
                  (visible_blob (U := basic_chardb) sample_tokenize doc_two_months) <> None) /\
    forall n, month_matches (U := basic_chardb) n
                (visible_blob (U := basic_chardb) sample_tokenize doc_two_months) -> mo <= n.
Proof.
  assert (H1 : search (U := basic_chardb) META_RE doc_two_months = None)
    by (vm_compute; reflexivity).
  assert (H2 : month_matches (U := basic_chardb) 7
                 (visible_blob (U := basic_chardb) sample_tokenize doc_two_months)).
  { eexists; eexists. split.
    - do 6 right. left. reflexivity.
    - vm_compute. discriminate. }
  split; [exact H1|]. split; [exact H2|]. split; [vm_compute; reflexivity|].
  exact (smallest_matching_month basic_chardb sample_tokenize doc_two_months H1
           (ex_intro _ 7 H2)).
Defined.

(** C4: for every document resolved through the search of the visible text,
    with the match of the month beginning at offset [p] of the blob ([p] is
    the start of the leftmost match of the pattern of the month), the year
    returned is the value of the first sequence of the characters [2], [0]
    and two decimal digits of the blob that lies in the window from 40
    characters before [p] to 40 characters after [p]: the sequence at the
    least offset [i] of the blob with [p - 40 <= i] and [i + 4 <= p + 40];
    when no such sequence lies in the window the year is absent, and the
    month and its name are returned all the same. *)
Theorem year_from_window (U : CharDB) (HU : CharDBLaws U) (tokenize : str -> list event)
    (text : str) (mo : Z) (label : str) (p : Z) :
  search META_RE text = None ->
  find_month MONTH_COMPILED (visible_blob tokenize text) = Some (mo, label, p) ->
  (exists rx mt,
     In (mo, label, rx) MONTH_COMPILED /\
     search rx (visible_blob tokenize text) = Some mt /\ p = Z.of_nat (m_start mt)) /\
  exists yr,
    extract_month_year tokenize text = (Some mo, yr, Some label) /\
    (forall y, yr = Some y <->
       exists i,
         p - 40 <= Z.of_nat i /\ Z.of_nat i + 4 <= p + 40 /\
         year_at (visible_blob tokenize text) i y /\
         forall j y', (j < i)%nat ->
           p - 40 <= Z.of_nat j -> Z.of_nat j + 4 <= p + 40 ->
           ~ year_at (visible_blob tokenize text) j y') /\
    (yr = None <->
       forall i y, p - 40 <= Z.of_nat i -> Z.of_nat i + 4 <= p + 40 ->
         ~ year_at (visible_blob tokenize text) i y).
Proof.
  intros Hmeta Hfind.
  pose proof (find_month_some _ _ _ _ _ Hfind) as Hm. split; [exact Hm|].
  destruct Hm as (rx & mt & _ & Hmt & Hp).
  assert (Hpos : 0 <= p <= len (visible_blob tokenize text)).
  { pose proof (search_start_le _ _ _ Hmt). unfold len. lia. }
  destruct (window_years (visible_blob tokenize text) p Hpos) as [Hin Hout].
  unfold extract_month_year, month_year_of_blob.
  rewrite Hmeta, Hfind. fold (year_window (visible_blob tokenize text) p).
  set (blob := visible_blob tokenize text) in *.
  set (w := year_window blob p) in *.
  set (a := Z.to_nat (Z.max 0 (p - 40))) in *.
  pose proof (year_search w) as Hy.
  destruct (search YEAR_RE w) as [ym|].
  - destruct Hy as (d1 & d2 & rest & Hs & H1 & H2 & Hg & Hmin).
    assert (Hat : year_at w (m_start ym) (2000 + 10 * decimal d1 + decimal d2))
      by (exists d1, d2, rest; auto).
    destruct (Hin _ _ Hat) as (Hblob & Hlo & Hhi).
    eexists. split; [reflexivity|]. rewrite Hg, year_value. split.
    + intros y. split.
      * intros Hyr. injection Hyr as <-. exists (a + m_start ym)%nat.
        split; [exact Hlo|]. split; [exact Hhi|]. split; [exact Hblob|].
        intros j y' Hj Hjlo Hjhi Hjat.
        destruct (Hout _ _ Hjat Hjlo Hjhi) as (k & -> & Hk).
        apply (Hmin k y'); [lia|exact Hk].
      * intros (i & Hilo & Hihi & Hi & Hleast). f_equal.
        destruct (Hout _ _ Hi Hilo Hihi) as (k & -> & Hk).
        destruct (Nat.lt_trichotomy k (m_start ym)) as [Hlt|[Heq|Hgt]].
        -- exfalso. exact (Hmin k y Hlt Hk).
        -- subst k. exact (year_at_fun _ _ _ _ Hat Hk).
        -- exfalso. apply (Hleast (a + m_start ym)%nat _ ltac:(lia) Hlo Hhi Hblob).
    + split; [discriminate|]. intros Hnone. exfalso. exact (Hnone _ _ Hlo Hhi Hblob).
  - exists None. split; [reflexivity|]. split.
    + intros y. split; [discriminate|]. intros (i & Hilo & Hihi & Hi & _). exfalso.
      destruct (Hout _ _ Hi Hilo Hihi) as (k & _ & Hk). exact (Hy k y Hk).
    + split; [|reflexivity]. intros _ i y Hilo Hihi Hi.
      destruct (Hout _ _ Hi Hilo Hihi) as (k & _ & Hk). exact (Hy k y Hk).
Qed.

Lemma year_from_window_witness :
  search (U := basic_chardb) META_RE doc_years_outside = None /\
  find_month (U := basic_chardb) MONTH_COMPILED
    (visible_blob (U := basic_chardb) window_tokenize doc_years_outside) =
  Some (3, u "Март", 41) /\
  year_at (U := basic_chardb)
    (visible_blob (U := basic_chardb) window_tokenize doc_years_outside) 0 2019 /\
  year_at (U := basic_chardb)
    (visible_blob (U := basic_chardb) window_tokenize doc_years_outside) 78 2031 /\
  extract_month_year (U := basic_chardb) window_tokenize doc_years_outside =
  (Some 3, None, Some (u "Март")) /\
  (forall i y, 41 - 40 <= Z.of_nat i -> Z.of_nat i + 4 <= 41 + 40 ->
     ~ year_at (U := basic_chardb)
         (visible_blob (U := basic_chardb) window_tokenize doc_years_outside) i y) /\
  extract_month_year (U := basic_chardb) window_tokenize doc_year_at_end =
  (Some 3, Some 2031, Some (u "Март")) /\
  extract_month_year (U := basic_chardb) window_tokenize doc_year_at_start =
  (Some 3, Some 2019, Some (u "Март")).
Proof.
  assert (H1 : search (U := basic_chardb) META_RE doc_years_outside = None)
    by (vm_compute; reflexivity).
  assert (H2 : find_month (U := basic_chardb) MONTH_COMPILED
                 (visible_blob (U := basic_chardb) window_tokenize doc_years_outside) =
               Some (3, u "Март", 41)) by (vm_compute; reflexivity).
  assert (H3 : extract_month_year (U := basic_chardb) window_tokenize doc_years_outside =
               (Some 3, None, Some (u "Март"))) by (vm_compute; reflexivity).
  split; [exact H1|]. split; [exact H2|].
  split; [eexists _, _, _; repeat split; vm_compute; reflexivity|].
  split; [eexists _, _, _; repeat split; vm_compute; reflexivity|].
  split; [exact H3|].
  split; [|split; vm_compute; reflexivity].
  destruct (year_from_window basic_chardb basic_chardb_laws window_tokenize doc_years_outside
              3 (u "Март") 41 H1 H2) as (_ & yr & Hyr & _ & Hnone).
  apply (proj1 Hnone). rewrite H3 in Hyr. now injection Hyr as <-.
Defined.

(** ** Name resolution *)

Lemma in_skipn (x : char) n : forall l, In x (skipn n l) -> In x l.
Proof.
  induction n as [|n IH]; intros [|c l] H; cbn [skipn] in H; auto.
  right. now apply IH.
Qed.

(** C5, the claim as stated fails: the title [Report:Ivanov] has no
    separator followed by white space, and yet the name is [Ivanov], not the
    title. *)
Lemma unspaced_separator_matches :
  page_title (U := basic_chardb) sample_tokenize doc_unspaced = u "Report:Ivanov" /\
  (forall n seg, ~ name_suffix true (skipn n (u "Report:Ivanov")) seg) /\
  extract_name_from_html (U := basic_chardb) sample_tokenize doc_unspaced =
  Some (u "Ivanov") /\
  u "Ivanov" <> u "Report:Ivanov".
Proof.
  split; [vm_compute; reflexivity|]. split; [|split; [vm_compute; reflexivity|]].
  - intros n seg (sep & ws & c & rest & Ht & _ & _ & Hws & Hne & _).
    destruct ws as [|w ws]; [now apply Hne|].
    cbn [forallb] in Hws. apply andb_true_iff in Hws. destruct Hws as [Hw _].
    assert (Hin : In w (u "Report:Ivanov")).
    { apply in_skipn with (n := n). rewrite Ht. right. now left. }
    assert (Hall : forallb (fun x => negb (isspace x)) (u "Report:Ivanov") = true)
      by (vm_compute; reflexivity).
    rewrite forallb_forall in Hall. specialize (Hall w Hin).
    rewrite Hw in Hall. discriminate.
  - vm_compute. discriminate.
Qed.

(** C5, amended: for every document whose trimmed title is not empty, name
    resolution returns the trimmed captured segment when the title ends with
    a separator (one of [:], [-] and the en dash) followed by white space or
    by nothing and then by the segment: a capital Cyrillic or Latin letter
    and at least two more characters, none of them one of [|<>()], up to the
    end of the title; the separator is the leftmost one at which this holds.
    When the title ends with no such pattern, the trimmed title is
    returned as it is. *)
Theorem name_from_title (U : CharDB) (tokenize : str -> list event) (text : str) :
  page_title tokenize text <> [] ->
  (forall n seg,
     name_suffix false (skipn n (page_title tokenize text)) seg ->
     (forall n' seg', (n' < n)%nat ->
        ~ name_suffix false (skipn n' (page_title tokenize text)) seg') ->
     extract_name_from_html tokenize text = Some (strip seg)) /\
  ((forall n seg, ~ name_suffix false (skipn n (page_title tokenize text)) seg) ->
   extract_name_from_html tokenize text = Some (page_title tokenize text)).
Proof.
  intros Hne. unfold extract_name_from_html. fold (page_title tokenize text).
  apply nonempty_true in Hne. rewrite Hne. split.
  - intros n seg Hsuf Hmin.
    destruct (name_search_some _ _ _ Hsuf Hmin) as (mt & -> & ->). reflexivity.
  - intros Hnone. now rewrite (name_search_none _ Hnone).
Qed.

Lemma name_from_title_witness :
  page_title (U := basic_chardb) sample_tokenize doc_report <> [] /\
  name_suffix false (skipn 6 (page_title (U := basic_chardb) sample_tokenize doc_report))
    (u "Smith John") /\
  extract_name_from_html (U := basic_chardb) sample_tokenize doc_report =
  Some (strip (u "Smith John")).
Proof.
  assert (H1 : page_title (U := basic_chardb) sample_tokenize doc_report <> [])
    by (vm_compute; discriminate).
  assert (H2 : name_suffix false
                 (skipn 6 (page_title (U := basic_chardb) sample_tokenize doc_report))
                 (u "Smith John")).
  { exists (ch ":"), SP, (ch "S"), (u "mith John").
    repeat split; try (vm_compute; reflexivity); try discriminate.
    vm_compute. lia. }
  split; [exact H1|]. split; [exact H2|].
  refine (proj1 (name_from_title basic_chardb sample_tokenize doc_report H1) 6%nat
            (u "Smith John") H2 _).
  intros n' seg' Hlt Hs. apply (name_suffix_match _ _ O) in Hs.
  do 6 (destruct n' as [|n']; [vm_compute in Hs; discriminate|]). lia.
Defined.

(** C6, the claim as stated fails: the stem of the file [ .html] is one
    space, which is no underscore, hyphen or period; with no title and no
    heading in the document, the display name is empty. *)
Lemma blank_stem_empty_name :
  existsb (fun c => negb (is_stem_separator c)) (u " ") = true /\
  display_name (U := basic_chardb) sample_tokenize doc_untitled (u " ") = [].
Proof. split; vm_compute; reflexivity. Qed.

(** C6, amended: for every document whose filename stem contains at least
    one character that is neither an underscore, a hyphen or a period nor
    white space, the display name, after the white space of the resolved
    name is collapsed and trimmed, is not empty, whichever rule resolves the
    name (title, trailing segment of the title, heading, filename). *)
Theorem display_name_not_empty (U : CharDB) (HU : CharDBLaws U) (tokenize : str -> list event)
    (text stem : str) :
  existsb (fun c => negb (is_stem_separator c) && negb (isspace c)) stem = true ->
  display_name tokenize text stem <> [].
Proof.
  intros Hstem. apply nonempty_true. unfold display_name.
  rewrite strip_nonempty. apply re_sub_spaces_nonspace.
  unfold resolved_name.
  destruct (extract_name_from_html tokenize text) as [nm|] eqn:E.
  - apply extract_name_nonspace in E.
    now rewrite (has_nonspace_nonempty _ E).
  - now apply humanize_nonspace.
Qed.

Lemma display_name_not_empty_witness :
  existsb (fun c => negb (is_stem_separator c) && negb (isspace c)) (u "b") = true /\
  display_name (U := basic_chardb) sample_tokenize doc_tagged (u "b") = u "B" /\
  display_name (U := basic_chardb) sample_tokenize doc_tagged (u "b") <> [].
Proof.
  assert (H : existsb (fun c => negb (is_stem_separator c) && negb (isspace c)) (u "b") = true)
    by (vm_compute; reflexivity).
  split; [exact H|]. split; [vm_compute; reflexivity|].
  exact (display_name_not_empty basic_chardb basic_chardb_laws sample_tokenize doc_tagged (u "b") H).
Defined.

(** C7, the claim as stated fails: on the stem [aB] the name is [Ab],
    while capitalizing the first letter of the segment, as the claim words
    it, gives [AB]. *)
Lemma capitalize_lowers_the_rest :
  title_text (feed (U := basic_chardb) sample_tokenize new_parser doc_untitled) = [] /\
  h1_text (feed (U := basic_chardb) sample_tokenize new_parser doc_untitled) = [] /\
  resolved_name (U := basic_chardb) sample_tokenize doc_untitled (u "aB") = u "Ab" /\
  spec_humanize (U := basic_chardb) (u "aB") = u "AB" /\
  u "Ab" <> u "AB".
Proof. repeat split; try (vm_compute; reflexivity). vm_compute. discriminate. Qed.

(** C7, amended: when both the title and the heading text buffers are
    empty, the name is derived from the filename stem by splitting it on
    runs of underscore, hyphen or period, replacing each non-empty segment
    by what [str.capitalize] returns for it, and joining the segments with
    single spaces; for every segment made of ASCII characters only, what
    [str.capitalize] returns is the segment with its first character in
    upper case and all its other characters in lower case; in particular
    the stem [report_2025_07] yields [Report 2025 07]. *)
Theorem name_from_filename (U : CharDB) (HU : CharDBLaws U) (tokenize : str -> list event)
    (text : str) :
  title_text (feed tokenize new_parser text) = [] ->
  h1_text (feed tokenize new_parser text) = [] ->
  (forall stem,
     resolved_name tokenize text stem = join SP (map str_capitalize (segments stem))) /\
  (forall seg, forallb is_ascii seg = true -> str_capitalize seg = ascii_capitalize seg) /\
  (forall stem, forallb is_ascii stem = true ->
     resolved_name tokenize text stem = join SP (map ascii_capitalize (segments stem))) /\
  resolved_name tokenize text (u "report_2025_07") = u "Report 2025 07".
Proof.
  intros Ht Hh.
  assert (Hres : forall stem, resolved_name tokenize text stem =
                              join SP (map str_capitalize (segments stem))).
  { intros stem. unfold resolved_name, extract_name_from_html. rewrite Ht, Hh.
    cbn [join strip rstrip lstrip rev nonempty]. apply humanize_segments. }
  assert (Hascii : forall stem, forallb is_ascii stem = true ->
                     resolved_name tokenize text stem =
                     join SP (map ascii_capitalize (segments stem))).
  { intros stem Hs. rewrite Hres. f_equal. apply map_ext_in. intros seg Hseg.
    apply str_capitalize_ascii. unfold segments in Hseg. apply filter_In in Hseg.
    exact (pieces_forall is_ascii stem Hs seg (proj1 Hseg)). }
  split; [exact Hres|]. split; [exact str_capitalize_ascii|]. split; [exact Hascii|].
  rewrite Hascii by reflexivity. reflexivity.
Qed.

Lemma name_from_filename_witness :
  title_text (feed (U := basic_chardb) sample_tokenize new_parser doc_tagged) = [] /\
  h1_text (feed (U := basic_chardb) sample_tokenize new_parser doc_tagged) = [] /\
  resolved_name (U := basic_chardb) sample_tokenize doc_tagged (u "report_2025_07") =
  u "Report 2025 07".
Proof.
  assert (H1 : title_text (feed (U := basic_chardb) sample_tokenize new_parser doc_tagged) = [])
    by (vm_compute; reflexivity).
  assert (H2 : h1_text (feed (U := basic_chardb) sample_tokenize new_parser doc_tagged) = [])
    by (vm_compute; reflexivity).
  split; [exact H1|]. split; [exact H2|].
  exact (proj2 (proj2 (proj2 (name_from_filename basic_chardb basic_chardb_laws
                                sample_tokenize doc_tagged H1 H2)))).
Defined.

(** ** The metadata check *)



(** ** The markup scanner *)

(** C10: when a chunk of text that is not only white space arrives while
    the scanner is inside a title and inside a heading at once, the trimmed
    chunk is appended to the title buffer and to the heading buffer, and
    once to the buffer of all the text; the two flags are left as they
    are. *)
Theorem chunk_inside_title_and_heading (U : CharDB) (p : SimpleTitleH1Parser) (data : str) :
  in_title p = true -> in_h1 p = true -> strip data <> [] ->
  handle_data p data =
  Parser true true (title_text p ++ [strip data]) (h1_text p ++ [strip data])
    (all_text p ++ [strip data]).
Proof.
  intros Ht Hh Hs. unfold handle_data. apply nonempty_true in Hs.
  now rewrite Hs, Ht, Hh.
Qed.

Lemma chunk_inside_title_and_heading_witness :
  in_title (fold_left (handle (U := basic_chardb))
              [StartTag (u "title") []; StartTag (u "h1") []] new_parser) = true /\
  in_h1 (fold_left (handle (U := basic_chardb))
           [StartTag (u "title") []; StartTag (u "h1") []] new_parser) = true /\
  strip (u " both ") <> [] /\
  handle_data
    (fold_left (handle (U := basic_chardb))
       [StartTag (u "title") []; StartTag (u "h1") []] new_parser) (u " both ") =
  Parser true true [u "both"] [u "both"] [u "both"].
Proof.
  assert (H1 : in_title (fold_left (handle (U := basic_chardb))
                 [StartTag (u "title") []; StartTag (u "h1") []] new_parser) = true)
    by (vm_compute; reflexivity).
  assert (H2 : in_h1 (fold_left (handle (U := basic_chardb))
                 [StartTag (u "title") []; StartTag (u "h1") []] new_parser) = true)
    by (vm_compute; reflexivity).
  assert (H3 : strip (u " both ") <> []) by (vm_compute; discriminate).
  split; [exact H1|]. split; [exact H2|]. split; [exact H3|].
  exact (chunk_inside_title_and_heading basic_chardb _ (u " both ") H1 H2 H3).
Defined.

(** * Further properties of the program *)

(** ** Trimmed strings *)

Lemma lstrip_app_nonspace l c r :
  isspace c = false -> lstrip (l ++ c :: r) = lstrip l ++ c :: r.
Proof.
  intros Hc. induction l as [|x l IH]; cbn [app lstrip].
  - now rewrite Hc.
  - destruct (isspace x); [exact IH|reflexivity].
Qed.

Lemma rstrip_cons_nonspace c t : isspace c = false -> rstrip (c :: t) = c :: rstrip t.
Proof.
  intros Hc. unfold rstrip. cbn [rev].
  rewrite (lstrip_app_nonspace (rev t) c [] Hc), rev_app_distr. reflexivity.
Qed.

Lemma lstrip_hd s : hd_nonspace (lstrip s) = true.
Proof.
  induction s as [|c s IH]; cbn [lstrip]; [reflexivity|].
  destruct (isspace c) eqn:E; [exact IH|]. cbn [hd_nonspace]. now rewrite E.
Qed.

Lemma lstrip_fixed s : hd_nonspace s = true -> lstrip s = s.
Proof.
  destruct s as [|c s]; [reflexivity|]. cbn [hd_nonspace lstrip].
  intros H. apply negb_true_iff in H. now rewrite H.
Qed.

Lemma rstrip_hd s : hd_nonspace s = true -> hd_nonspace (rstrip s) = true.
Proof.
  destruct s as [|c s]; [reflexivity|]. cbn [hd_nonspace]. intros H.
  apply negb_true_iff in H. rewrite (rstrip_cons_nonspace c s H).
  cbn [hd_nonspace]. now rewrite H.
Qed.

Lemma strip_trimmed s : trimmed (strip s) = true.
Proof.
  unfold trimmed, strip. rewrite (rstrip_hd _ (lstrip_hd s)).
  unfold rstrip. rewrite rev_involutive. apply lstrip_hd.
Qed.

Lemma trimmed_strip s : trimmed s = true -> strip s = s.
Proof.
  unfold trimmed. intros H. apply andb_true_iff in H. destruct H as [H1 H2].
  unfold strip, rstrip. rewrite (lstrip_fixed s H1), (lstrip_fixed _ H2).
  apply rev_involutive.
Qed.

Lemma strip_idempotent s : strip (strip s) = strip s.
Proof. apply trimmed_strip, strip_trimmed. Qed.

Lemma hd_nonspace_app a b :
  a <> [] -> hd_nonspace (a ++ b) = hd_nonspace a.
Proof. destruct a; [congruence|reflexivity]. Qed.

(** Chunks that are trimmed and not empty stay so when joined with single
    spaces. *)
Lemma join_hd xs :
  Forall (fun x => x <> [] /\ hd_nonspace x = true) xs ->
  hd_nonspace (join SP xs) = true.
Proof.
  intros H. destruct H as [|x xs [Hne Hx] Hxs]; [reflexivity|].
  cbn [join]. destruct xs as [|y ys]; [exact Hx|].
  now rewrite hd_nonspace_app.
Qed.

Lemma join_nonempty xs :
  xs <> [] -> Forall (fun x => x <> []) xs -> join SP xs <> [].
Proof.
  intros Hne H. destruct H as [|x xs Hx Hxs]; [congruence|].
  cbn [join]. destruct xs as [|y ys]; [exact Hx|].
  destruct x; [congruence|discriminate].
Qed.

Lemma join_last xs :
  Forall (fun x => x <> [] /\ hd_nonspace (rev x) = true) xs ->
  hd_nonspace (rev (join SP xs)) = true.
Proof.
  induction xs as [|x xs IH]; intros H; [reflexivity|].
  inversion H as [|? ? [Hne Hx] Hxs]; subst.
  cbn [join]. destruct xs as [|y ys]; [exact Hx|].
  rewrite !rev_app_distr, <- app_assoc.
  rewrite hd_nonspace_app; [exact (IH Hxs)|].
  intros E. apply (f_equal (@rev char)) in E. rewrite rev_involutive in E.
  revert E. apply join_nonempty; [discriminate|].
  eapply Forall_impl; [|exact Hxs]. now intros a [Ha _].
Qed.

Lemma join_trimmed xs :
  Forall (fun x => x <> [] /\ trimmed x = true) xs ->
  trimmed (join SP xs) = true.
Proof.
  intros H. unfold trimmed. rewrite join_hd, join_last; [reflexivity| |].
  - eapply Forall_impl; [|exact H]. intros a [Ha Ht].
    unfold trimmed in Ht. apply andb_true_iff in Ht. tauto.
  - eapply Forall_impl; [|exact H]. intros a [Ha Ht].
    unfold trimmed in Ht. apply andb_true_iff in Ht. tauto.
Qed.

(** ** The parser *)

Lemma subseq_app_keep a b x : subseq a b -> subseq (a ++ [x]) (b ++ [x]).
Proof.
  induction 1; cbn [app].
  - apply subseq_keep, subseq_nil.
  - now apply subseq_keep.
  - now apply subseq_skip.
Qed.

Lemma subseq_app_skip a b x : subseq a b -> subseq a (b ++ [x]).
Proof.
  induction 1; cbn [app].
  - apply subseq_skip, subseq_nil.
  - now apply subseq_keep.
  - now apply subseq_skip.
Qed.

Section ParserFacts.

Context {U : CharDB}.

Lemma handle_keeps p e : chunks_kept p -> chunks_kept (handle p e).
Proof.
  intros (Hall & Ht & Hh). destruct e as [tag attrs|tag|data]; cbn [handle].
  - unfold handle_starttag.
    destruct (str_eqb (str_lower tag) (u "title")); [now repeat split|].
    destruct (str_eqb (str_lower tag) (u "h1")); now repeat split.
  - unfold handle_endtag.
    destruct (str_eqb (str_lower tag) (u "title")); [now repeat split|].
    destruct (str_eqb (str_lower tag) (u "h1")); now repeat split.
  - unfold handle_data.
    destruct (nonempty (strip data)) eqn:E; cbn [negb]; [|now repeat split].
    apply nonempty_true in E.
    unfold chunks_kept. cbn [all_text title_text h1_text]. split; [|split].
    + apply Forall_app. split; [exact Hall|].
      constructor; [|constructor]. split; [exact E|apply strip_trimmed].
    + destruct (in_title p); [now apply subseq_app_keep|now apply subseq_app_skip].
    + destruct (in_h1 p); [now apply subseq_app_keep|now apply subseq_app_skip].
Qed.

Lemma fold_keeps evs : forall p, chunks_kept p -> chunks_kept (fold_left handle evs p).
Proof.
  induction evs as [|e evs IH]; intros p H; [exact H|].
  cbn [fold_left]. apply IH, handle_keeps, H.
Qed.

Lemma feed_keeps (tokenize : str -> list event) text :
  chunks_kept (feed tokenize new_parser text).
Proof.
  unfold feed. apply fold_keeps. unfold chunks_kept. cbn.
  repeat split; constructor.
Qed.

Lemma subseq_Forall (P : str -> Prop) a b : subseq a b -> Forall P b -> Forall P a.
Proof.
  induction 1 as [|x a b Hs IH|x a b Hs IH]; intros HP; [constructor| |].
  - inversion HP; subst. constructor; auto.
  - inversion HP; subst. auto.
Qed.

Lemma joined_chunks_trimmed xs :
  Forall (fun s => s <> [] /\ trimmed s = true) xs -> strip (join SP xs) = join SP xs.
Proof. intros H. apply trimmed_strip, join_trimmed, H. Qed.

Lemma title_chunks_kept (tokenize : str -> list event) text :
  Forall (fun s => s <> [] /\ trimmed s = true) (title_text (feed tokenize new_parser text)).
Proof.
  destruct (feed_keeps tokenize text) as (Hall & Ht & _).
  exact (subseq_Forall _ _ _ Ht Hall).
Qed.

Lemma h1_chunks_kept (tokenize : str -> list event) text :
  Forall (fun s => s <> [] /\ trimmed s = true) (h1_text (feed tokenize new_parser text)).
Proof.
  destruct (feed_keeps tokenize text) as (Hall & _ & Hh).
  exact (subseq_Forall _ _ _ Hh Hall).
Qed.

Lemma str_eqb_false (a b : str) : a <> b -> str_eqb a b = false.
Proof.
  intros H. destruct (str_eqb a b) eqn:E; [|reflexivity].
  apply str_eqb_eq in E. contradiction.
Qed.

(** Once the title is closed it stays closed, and collects nothing, until a
    start tag [title] comes; and so for the heading. *)
Lemma title_stays_closed evs : forall p,
  in_title p = false ->
  (forall tag attrs, In (StartTag tag attrs) evs -> str_lower tag <> u "title") ->
  in_title (fold_left handle evs p) = false /\
  title_text (fold_left handle evs p) = title_text p.
Proof.
  induction evs as [|e evs IH]; intros p Hp Hev; [now split|].
  cbn [fold_left].
  assert (Hstep : in_title (handle p e) = false /\ title_text (handle p e) = title_text p).
  { destruct e as [tag attrs|tag|data]; cbn [handle].
    - unfold handle_starttag.
      rewrite (str_eqb_false _ _ (Hev tag attrs (or_introl eq_refl))).
      destruct (str_eqb (str_lower tag) (u "h1")); now split.
    - unfold handle_endtag. destruct (str_eqb (str_lower tag) (u "title"));
        [|destruct (str_eqb (str_lower tag) (u "h1"))]; now split.
    - unfold handle_data. destruct (nonempty (strip data)); cbn [negb]; [|now split].
      cbn [in_title title_text]. now rewrite Hp. }
  destruct Hstep as [S1 S2]. rewrite <- S2. apply IH; [exact S1|].
  intros tag attrs Hin. apply (Hev tag attrs). now right.
Qed.

Lemma h1_stays_closed evs : forall p,
  in_h1 p = false ->
  (forall tag attrs, In (StartTag tag attrs) evs -> str_lower tag <> u "h1") ->
  in_h1 (fold_left handle evs p) = false /\
  h1_text (fold_left handle evs p) = h1_text p.
Proof.
  induction evs as [|e evs IH]; intros p Hp Hev; [now split|].
  cbn [fold_left].
  assert (Hstep : in_h1 (handle p e) = false /\ h1_text (handle p e) = h1_text p).
  { destruct e as [tag attrs|tag|data]; cbn [handle].
    - unfold handle_starttag.
      rewrite (str_eqb_false _ _ (Hev tag attrs (or_introl eq_refl))).
      destruct (str_eqb (str_lower tag) (u "title")); now split.
    - unfold handle_endtag. destruct (str_eqb (str_lower tag) (u "title"));
        [|destruct (str_eqb (str_lower tag) (u "h1"))]; now split.
    - unfold handle_data. destruct (nonempty (strip data)); cbn [negb]; [|now split].
      cbn [in_h1 h1_text]. now rewrite Hp. }
  destruct Hstep as [S1 S2]. rewrite <- S2. apply IH; [exact S1|].
  intros tag attrs Hin. apply (Hev tag attrs). now right.
Qed.

End ParserFacts.

(** *** Properties of the parser *)

(** X1: every chunk the parser collects from a document is non-empty and begins
    and ends with a character that is no white space: [handle_data] strips
    the data and drops what is blank. *)
Theorem collected_chunks_trimmed (U : CharDB) (tokenize : str -> list event) (text : str) :
  Forall (fun s => s <> [] /\ strip s = s) (all_text (feed tokenize new_parser text)) /\
  Forall (fun s => s <> [] /\ strip s = s) (title_text (feed tokenize new_parser text)) /\
  Forall (fun s => s <> [] /\ strip s = s) (h1_text (feed tokenize new_parser text)).
Proof.
  assert (Himp : forall l, Forall (fun s => s <> [] /\ trimmed s = true) l ->
                           Forall (fun s => s <> [] /\ strip s = s) l).
  { intros l H. eapply Forall_impl; [|exact H]. intros a [Ha Ht].
    split; [exact Ha|now apply trimmed_strip]. }
  split; [|split]; apply Himp.
  - exact (proj1 (feed_keeps tokenize text)).
  - apply title_chunks_kept.
  - apply h1_chunks_kept.
Qed.

(** X2: the chunks of the title and the chunks of the heading are chunks of the
    visible text, in the same order: what the parser files under the title
    or the heading it also files under the text. *)
Theorem title_and_heading_within_text (U : CharDB) (tokenize : str -> list event)
    (text : str) :
  subseq (title_text (feed tokenize new_parser text)) (all_text (feed tokenize new_parser text)) /\
  subseq (h1_text (feed tokenize new_parser text)) (all_text (feed tokenize new_parser text)).
Proof. exact (proj2 (feed_keeps tokenize text)). Qed.

(** X3: once the title is closed, the parser adds nothing to the text of
    the title until a start tag [title] comes, whatever other tags and data
    come; and the same holds for the heading and the start tag [h1]. *)
Theorem closed_element_collects_nothing (U : CharDB) (p : SimpleTitleH1Parser)
    (evs : list event) :
  (in_title p = false ->
   (forall tag attrs, In (StartTag tag attrs) evs -> str_lower tag <> u "title") ->
   title_text (fold_left handle evs p) = title_text p) /\
  (in_h1 p = false ->
   (forall tag attrs, In (StartTag tag attrs) evs -> str_lower tag <> u "h1") ->
   h1_text (fold_left handle evs p) = h1_text p).
Proof.
  split; intros Hp Hev.
  - exact (proj2 (title_stays_closed evs p Hp Hev)).
  - exact (proj2 (h1_stays_closed evs p Hp Hev)).
Qed.

Lemma closed_element_collects_nothing_witness :
  in_title
    (fold_left (handle (U := basic_chardb))
       [StartTag (u "title") []; Data (u "Report: Smith John"); EndTag (u "title")]
       new_parser) = false /\
  title_text
    (fold_left (handle (U := basic_chardb))
       [StartTag (u "p") []; Data (u "за март 2024 года"); EndTag (u "p")]
       (fold_left (handle (U := basic_chardb))
          [StartTag (u "title") []; Data (u "Report: Smith John"); EndTag (u "title")]
          new_parser)) =
  [u "Report: Smith John"].
Proof.
  split; [vm_compute; reflexivity|].
  refine (proj1 (closed_element_collects_nothing basic_chardb
                   (fold_left (handle (U := basic_chardb))
                      [StartTag (u "title") []; Data (u "Report: Smith John");
                       EndTag (u "title")] new_parser)
                   [StartTag (u "p") []; Data (u "за март 2024 года"); EndTag (u "p")])
            _ _).
  - vm_compute. reflexivity.
  - intros tag attrs Hin. destruct Hin as [Heq|[Heq|[Heq|[]]]]; inversion Heq; subst.
    vm_compute. discriminate.
Defined.

(** ** The name of a document *)

Section NameFacts.

Context {U : CharDB}.
Variable tokenize : str -> list event.

Lemma joined_chunks_empty xs :
  Forall (fun s => s <> [] /\ trimmed s = true) xs ->
  nonempty (strip (join SP xs)) = false -> xs = [].
Proof.
  intros H E. rewrite (joined_chunks_trimmed xs H) in E.
  destruct xs as [|x xs]; [reflexivity|]. exfalso.
  apply nonempty_false in E. revert E. apply join_nonempty; [discriminate|].
  eapply Forall_impl; [|exact H]. now intros a [Ha _].
Qed.

Lemma joined_chunks_nonempty xs :
  Forall (fun s => s <> [] /\ trimmed s = true) xs -> xs <> [] ->
  nonempty (strip (join SP xs)) = true.
Proof.
  intros H Hne. destruct (nonempty (strip (join SP xs))) eqn:E; [reflexivity|].
  now apply joined_chunks_empty in E.
Qed.

End NameFacts.

(** *** Properties of the name *)

(** X4: a document in which the tokenizer reports no start tag [title] and no
    start tag [h1] (in any case of the letters) has no name of its own: the
    name is the one made from the file name. *)
Theorem no_title_no_heading_tag (U : CharDB) (tokenize : str -> list event) (text : str) :
  (forall tag attrs, In (StartTag tag attrs) (tokenize text) ->
     str_lower tag <> u "title" /\ str_lower tag <> u "h1") ->
  extract_name_from_html tokenize text = None /\
  forall stem, resolved_name tokenize text stem = humanize_from_filename stem.
Proof.
  intros H.
  destruct (title_stays_closed (tokenize text) new_parser eq_refl
              (fun tag attrs Hin => proj1 (H tag attrs Hin))) as [_ Ht].
  destruct (h1_stays_closed (tokenize text) new_parser eq_refl
              (fun tag attrs Hin => proj2 (H tag attrs Hin))) as [_ Hh].
  cbn [title_text h1_text new_parser] in Ht, Hh.
  assert (E : extract_name_from_html tokenize text = None).
  { unfold extract_name_from_html, feed. now rewrite Ht, Hh. }
  split; [exact E|]. intros stem. unfold resolved_name. now rewrite E.
Qed.

Lemma no_title_no_heading_tag_witness :
  extract_name_from_html (U := basic_chardb) sample_tokenize doc_untitled = None /\
  resolved_name (U := basic_chardb) sample_tokenize doc_untitled (u "q3_report") =
  humanize_from_filename (U := basic_chardb) (u "q3_report").
Proof.
  assert (H : forall tag attrs, In (StartTag tag attrs) (sample_tokenize doc_untitled) ->
                str_lower (CharDB := basic_chardb) tag <> u "title" /\
                str_lower (CharDB := basic_chardb) tag <> u "h1").
  { intros tag attrs Hin. vm_compute in Hin.
    destruct Hin as [Heq|[Heq|[Heq|[]]]]; inversion Heq; subst.
    split; vm_compute; discriminate. }
  destruct (no_title_no_heading_tag basic_chardb sample_tokenize doc_untitled H) as [H1 H2].
  split; [exact H1|exact (H2 (u "q3_report"))].
Defined.

(** X5: when the parser collected no title and did collect heading text, the
    name is the chunks of the heading joined with single spaces, whole: the
    trailing segment after a separator is not taken from a heading. *)
Theorem heading_fallback (U : CharDB) (tokenize : str -> list event) (text : str) :
  title_text (feed tokenize new_parser text) = [] ->
  h1_text (feed tokenize new_parser text) <> [] ->
  extract_name_from_html tokenize text =
  Some (join SP (h1_text (feed tokenize new_parser text))).
Proof.
  intros Ht Hh. unfold extract_name_from_html. rewrite Ht.
  change (nonempty (strip (join SP []))) with false. cbv iota.
  rewrite (joined_chunks_nonempty _ (h1_chunks_kept tokenize text) Hh).
  now rewrite (joined_chunks_trimmed _ (h1_chunks_kept tokenize text)).
Qed.

Lemma heading_fallback_witness :
  extract_name_from_html (U := basic_chardb) more_tokenize doc_heading =
  Some (join SP (h1_text (feed (U := basic_chardb) more_tokenize new_parser doc_heading))) /\
  join SP (h1_text (feed (U := basic_chardb) more_tokenize new_parser doc_heading)) =
  u "Report: Ivanov".
Proof.
  split; [|vm_compute; reflexivity].
  apply (heading_fallback basic_chardb more_tokenize doc_heading).
  - vm_compute. reflexivity.
  - vm_compute. discriminate.
Defined.

(** X6: [extract_name_from_html] returns [None] exactly when the parser
    collected neither title text nor heading text. *)
Theorem name_absent_iff (U : CharDB) (tokenize : str -> list event) (text : str) :
  extract_name_from_html tokenize text = None <->
  title_text (feed tokenize new_parser text) = [] /\
  h1_text (feed tokenize new_parser text) = [].
Proof.
  unfold extract_name_from_html. split.
  - destruct (nonempty (strip (join SP (title_text (feed tokenize new_parser text))))) eqn:Et.
    + destruct (search NAME_RE _); discriminate.
    + destruct (nonempty (strip (join SP (h1_text (feed tokenize new_parser text))))) eqn:Eh;
        [discriminate|]. intros _. split.
      * exact (joined_chunks_empty _ (title_chunks_kept tokenize text) Et).
      * exact (joined_chunks_empty _ (h1_chunks_kept tokenize text) Eh).
  - intros [-> ->]. reflexivity.
Qed.

(** X7: a name taken from the document is never empty and neither begins nor
    ends with white space; so the fallback to the file name in [main] is
    taken only when [extract_name_from_html] returns [None]. *)
Theorem name_from_document_trimmed (U : CharDB) (tokenize : str -> list event)
    (text nm : str) :
  extract_name_from_html tokenize text = Some nm ->
  nm <> [] /\ strip nm = nm /\ forall stem, resolved_name tokenize text stem = nm.
Proof.
  intros H.
  pose proof (extract_name_nonspace tokenize text nm H) as Hns.
  assert (Hne : nonempty nm = true) by now apply has_nonspace_nonempty.
  split; [now apply nonempty_true|]. split.
  - revert H. unfold extract_name_from_html.
    destruct (nonempty (strip (join SP (title_text (feed tokenize new_parser text))))).
    + destruct (search NAME_RE _); intros E; inversion E; apply strip_idempotent.
    + destruct (nonempty (strip (join SP (h1_text (feed tokenize new_parser text)))));
        intros E; inversion E; apply strip_idempotent.
  - intros stem. unfold resolved_name. now rewrite H, Hne.
Qed.

Lemma name_from_document_trimmed_witness :
  extract_name_from_html (U := basic_chardb) sample_tokenize doc_report =
  Some (u "Smith John") /\
  u "Smith John" <> [] /\ strip (u "Smith John") = u "Smith John" /\
  resolved_name (U := basic_chardb) sample_tokenize doc_report (u "a") = u "Smith John".
Proof.
  assert (H : extract_name_from_html (U := basic_chardb) sample_tokenize doc_report =
              Some (u "Smith John")) by (vm_compute; reflexivity).
  destruct (name_from_document_trimmed basic_chardb sample_tokenize doc_report
              (u "Smith John") H) as (H1 & H2 & H3).
  split; [exact H|]. split; [exact H1|]. split; [exact H2|exact (H3 (u "a"))].
Defined.

(** ** What a pattern finds *)

Section Completeness.

Context {U : CharDB}.
Variable icase : bool.

(** The matcher finds a match wherever the pattern has one: it backtracks
    over every way of matching. *)
Lemma m_complete : forall r s i cs k w s',
  s = w ++ s' -> lang icase r w s' ->
  (forall cs', k s' (i + List.length w)%nat cs' <> None) ->
  m icase r s i cs k <> None.
Proof.
  induction r as [|a|r1 IH1 r2 IH2|r1 IH1 r2 IH2|r1 IH1|a lo hi|g r1 IH1|];
    intros s i cs k w s' Hs L Hk; cbn [m]; cbn [lang] in L.
  - subst. cbn [app List.length] in *. rewrite Nat.add_0_r in Hk. apply Hk.
  - destruct L as (c & -> & Hc). subst s. cbn [app]. rewrite Hc.
    specialize (Hk cs). cbn [List.length] in Hk. now rewrite Nat.add_1_r in Hk.
  - destruct L as (w1 & w2 & -> & L1 & L2). rewrite <- app_assoc in Hs.
    apply (IH1 s i cs _ w1 (w2 ++ s') Hs L1). intros cs1.
    apply (IH2 (w2 ++ s') _ cs1 k w2 s' eq_refl L2). intros cs2.
    rewrite <- Nat.add_assoc, <- length_app. apply Hk.
  - destruct (m icase r1 s i cs k) eqn:E; [discriminate|].
    destruct L as [L|L].
    + exfalso. revert E. exact (IH1 s i cs k w s' Hs L Hk).
    + exact (IH2 s i cs k w s' Hs L Hk).
  - destruct (m icase r1 s i cs k) eqn:E; [discriminate|].
    destruct L as [L|L].
    + exfalso. revert E. exact (IH1 s i cs k w s' Hs L Hk).
    + subst. cbn [app List.length] in *. rewrite Nat.add_0_r in Hk. apply Hk.
  - destruct L as (Hall & Hlo & Hhi). intros E.
    assert (Hok : rep_ok icase a lo hi s (List.length w)).
    { subst s. unfold rep_ok. rewrite length_app, firstn_prefix.
      repeat split; try assumption; lia. }
    pose proof (rep_complete icase a s lo hi i cs k _ E Hok) as Hn.
    subst s. rewrite skipn_prefix in Hn. exact (Hk cs Hn).
  - apply (IH1 s i cs _ w s' Hs L). intros cs'. apply Hk.
  - destruct L as [-> Hend]. subst s. cbn [app List.length] in *. rewrite Hend.
    rewrite Nat.add_0_r in Hk. apply Hk.
Qed.

Lemma lits_lang w : forall l rest,
  Forall2 (fun c x => atom_match icase (Lit c) x = true) w l -> lang icase (lits w) l rest.
Proof.
  induction w as [|c w IH]; intros l rest H; inversion H as [|? x ? l' Hx Hl]; subst;
    cbn [lits lang]; [reflexivity|].
  exists [x], l'. split; [reflexivity|]. split; [exists x; auto|apply IH, Hl].
Qed.

Lemma lang_nullable : forall r rest, nullable r = true -> lang icase r [] rest.
Proof.
  induction r as [|a|r1 IH1 r2 IH2|r1 IH1 r2 IH2|r1 IH1|a lo hi|g r1 IH1|];
    intros rest H; cbn [nullable] in H; cbn [lang]; try discriminate; auto.
  - apply andb_true_iff in H. destruct H as [H1 H2]. exists [], [].
    split; [reflexivity|]. split; [apply IH1, H1|apply IH2, H2].
  - apply orb_true_iff in H. destruct H as [H|H]; [left; apply IH1, H|right; apply IH2, H].
  - destruct lo; [|discriminate]. cbn. repeat split; try lia. destruct hi; [lia|exact I].
Qed.

End Completeness.

Section SearchFacts.

Context {U : CharDB}.

Lemma lang_search rx pre w post :
  lang (ignorecase rx) (pat rx) w post -> search rx (pre ++ w ++ post) <> None.
Proof.
  intros L E. unfold search in E.
  assert (Hn : (List.length pre <= List.length (pre ++ w ++ post))%nat)
    by (rewrite length_app; lia).
  pose proof (search_from_none _ _ _ 0%nat _ E Hn) as Hm.
  rewrite skipn_prefix in Hm. revert Hm. unfold match_at.
  apply (m_complete _ _ _ _ _ _ w post eq_refl L). intros cs'. discriminate.
Qed.

Lemma search_lang rx s :
  search rx s <> None ->
  exists pre w post, s = pre ++ w ++ post /\ lang (ignorecase rx) (pat rx) w post.
Proof.
  intros H. destruct (search rx s) as [mt|] eqn:E; [|congruence].
  unfold search in E. apply search_from_some in E.
  destruct E as (n & _ & _ & Hm & _). unfold match_at in Hm.
  apply m_sound in Hm. destruct Hm as (w & s' & cs' & Hw & L & _).
  exists (firstn n s), w, s'. split; [|exact L].
  rewrite <- Hw. symmetry. apply firstn_skipn.
Qed.

(** *** The months with a stem *)

Lemma month_stem_pattern n w :
  In (n, w) month_stems ->
  exists label tail,
    nullable tail = true /\
    In (n, label, Compile (Cat (lits w) tail) true) MONTH_COMPILED /\
    forall name rx, In (n, name, rx) MONTH_COMPILED -> rx = Compile (Cat (lits w) tail) true.
Proof.
  intros H. cbn in H.
  destruct H as [H|[H|[H|[H|[H|[]]]]]]; inversion H; subst; clear H;
    eexists _, _; (split; [|split; [cbn; auto 15|]]);
    try (intros name rx Hin; cbn in Hin;
         repeat (destruct Hin as [Hin|Hin]; [inversion Hin; subst; try reflexivity|]);
         destruct Hin);
    reflexivity.
Qed.

Lemma stem_matches n w pre l post :
  In (n, w) month_stems -> same_word w l -> month_matches n (pre ++ l ++ post).
Proof.
  intros Hin Hl.
  destruct (month_stem_pattern n w Hin) as (label & tail & Hnull & Htab & _).
  exists label, (Compile (Cat (lits w) tail) true). split; [exact Htab|].
  apply lang_search. cbn [pat ignorecase lang]. exists l, [].
  split; [now rewrite app_nil_r|]. split; [apply lits_lang, Hl|apply lang_nullable, Hnull].
Qed.

End SearchFacts.

Section MetaGroups.

Context {U : CharDB} {HU : CharDBLaws U}.

(** One component of a concatenation, with the offset [d] of the matcher in
    the subject [s0]. *)
Lemma m_cat_step ic r1 r2 s0 i d cs k x :
  m ic (Cat r1 r2) (skipn d s0) (i + d)%nat cs k = Some x ->
  exists d' cs', m ic r2 (skipn d' s0) (i + d')%nat cs' k = Some x.
Proof.
  cbn [m]. intros H. apply m_sound in H. destruct H as (w & s' & cs' & Hs & _ & H).
  exists (d + List.length w)%nat, cs'.
  replace (skipn (d + List.length w) s0) with s'.
  2:{ rewrite (Nat.add_comm d), <- skipn_skipn, Hs. symmetry. apply skipn_prefix. }
  now rewrite Nat.add_assoc.
Qed.

Lemma rep_ok_exact ic a n s k :
  rep_ok ic a n (Some n) s k ->
  k = n /\ List.length (firstn n s) = n /\ forallb (atom_match ic a) (firstn n s) = true.
Proof.
  intros (H1 & H2 & H3 & H4). assert (k = n) by lia. subst k.
  repeat split; [|exact H4]. rewrite length_firstn. lia.
Qed.

(** The two groups of a match of [META_RE]: four and two decimal digits. *)
Lemma meta_match_groups s i e cs :
  match_at true (pat META_RE) s i = Some (e, cs) ->
  exists d,
    lookup_cap 1 cs = Some ((i + d)%nat, (i + d + 4)%nat) /\
    lookup_cap 2 cs = Some ((i + d + 5)%nat, (i + d + 7)%nat) /\
    List.length (firstn 4 (skipn d s)) = 4%nat /\
    forallb isdecimal (firstn 4 (skipn d s)) = true /\
    List.length (firstn 2 (skipn (d + 5) s)) = 2%nat /\
    forallb isdecimal (firstn 2 (skipn (d + 5) s)) = true.
Proof.
  unfold match_at. rewrite meta_pat. cbn [cat]. intros H.
  change s with (skipn 0 s) in H. rewrite <- (Nat.add_0_r i) in H.
  do 9 (apply m_cat_step in H; destruct H as (? & ? & H)).
  match type of H with m _ _ (skipn ?d0 _) _ ?c _ = _ => set (d := d0) in *; set (cs9 := c) in * end.
  cbn [m] in H. apply rep_sound in H. destruct H as (n1 & Hok1 & H).
  apply rep_ok_exact in Hok1. destruct Hok1 as (-> & Hl1 & Hd1).
  destruct (skipn 4 (skipn d s)) as [|c s1] eqn:E1; [discriminate|].
  destruct (atom_match true (Lit (ch "-")) c); [|discriminate].
  apply rep_sound in H. destruct H as (n2 & Hok2 & H).
  apply rep_ok_exact in Hok2. destruct Hok2 as (-> & Hl2 & Hd2).
  destruct (skipn 2 s1) as [|q s2]; [discriminate|].
  destruct (atom_match true (OneOf quotes) q); [|discriminate].
  unfold accept in H. inversion H; subst e cs. clear H.
  assert (E5 : skipn (d + 5) s = s1).
  { replace (d + 5)%nat with (1 + (4 + d))%nat by lia.
    rewrite <- !skipn_skipn, E1. reflexivity. }
  exists d. cbn [lookup_cap Nat.eqb]. rewrite E5.
  repeat split; try assumption; repeat f_equal; lia.
Qed.

Lemma meta_search_groups text mt :
  search META_RE text = Some mt ->
  List.length (group text mt 1) = 4%nat /\ forallb isdecimal (group text mt 1) = true /\
  List.length (group text mt 2) = 2%nat /\ forallb isdecimal (group text mt 2) = true.
Proof.
  unfold search. intros H. apply search_from_some in H.
  destruct H as (n & _ & _ & Hm & _). cbn [ignorecase Nat.add] in Hm.
  apply meta_match_groups in Hm.
  destruct Hm as (d & C1 & C2 & L1 & D1 & L2 & D2).
  unfold group. rewrite C1, C2.
  replace (n + d + 4 - (n + d))%nat with 4%nat by lia.
  replace (n + d + 7 - (n + d + 5))%nat with 2%nat by lia.
  replace (n + d + 5)%nat with (d + 5 + n)%nat by lia.
  replace (n + d)%nat with (d + n)%nat by lia.
  rewrite <- (skipn_skipn (d + 5) n text), <- (skipn_skipn d n text). auto.
Qed.

(** *** Values of decimal numerals *)

Lemma int_of_bound :
  (forall c, isdecimal c = true -> 0 <= decimal c <= 9) ->
  forall s, forallb isdecimal s = true -> 0 <= int_of s < 10 ^ Z.of_nat (List.length s).
Proof.
  intros Hdec s. induction s as [|c s IH] using rev_ind; intros H.
  - cbn. lia.
  - rewrite forallb_app in H. apply andb_true_iff in H. destruct H as [Hs Hc].
    cbn [forallb] in Hc. rewrite andb_true_r in Hc.
    rewrite int_of_app, length_app. cbn [List.length].
    rewrite Nat.add_1_r, Nat2Z.inj_succ, Z.pow_succ_r by lia.
    specialize (IH Hs). specialize (Hdec c Hc). lia.
Qed.

End MetaGroups.

Section PeriodFacts.

Context {U : CharDB} {HU : CharDBLaws U}.

Lemma month_label_in_table num name rx :
  In (num, name, rx) MONTH_COMPILED -> MONTHS_get MONTHS num = Some name.
Proof.
  intros H. cbn in H.
  repeat (destruct H as [H|H]; [inversion H; subst; reflexivity|]). destruct H.
Qed.

Lemma months_get_inside mo label : MONTHS_get MONTHS mo = Some label -> 1 <= mo <= 12.
Proof.
  intros H. destruct (Z_le_dec 1 mo) as [H1|H1]; [destruct (Z_le_dec mo 12) as [H2|H2]|];
    [lia| |]; rewrite months_get_outside in H by lia; discriminate.
Qed.

Lemma month_found blob n :
  month_matches n blob ->
  exists mo label p, find_month MONTH_COMPILED blob = Some (mo, label, p) /\ mo <= n.
Proof.
  intros (name & rx & Hin & Hm).
  destruct (find_month MONTH_COMPILED blob) as [[[mo label] p]|] eqn:E.
  - exists mo, label, p. split; [reflexivity|].
    exact (find_month_least _ _ _ _ _ month_compiled_ascending E _ _ _ Hin Hm).
  - exfalso. apply Hm. exact (find_month_none _ _ E _ _ _ Hin).
Qed.

Lemma meta_shape_lang w post : meta_shape w -> lang true (pat META_RE) w post.
Proof.
  intros (lt & ws1 & nm & q1 & rm & q2 & ws2 & ct & q3 & ys & dash & ms & q4 &
          -> & Hlt & [N1 Hws1] & Hnm & Hq1 & Hrm & Hq2 & [N2 Hws2] & Hct & Hq3 &
          [Ly Hys] & Hdash & [Lm Hms] & Hq4).
  rewrite meta_pat. cbn [cat].
  assert (Hrun : forall ws rest, ws <> [] -> forallb isspace ws = true ->
                   lang true (Rep Space 1 None) ws rest).
  { intros ws rest Hne Hall. cbn [lang]. split; [exact Hall|].
    split; [|exact I]. destruct ws; [congruence|cbn; lia]. }
  inversion Hdash as [|? d ? ? Hd Hnil]; subst. inversion Hnil; subst.
  cbn [lang].
  exists lt; eexists.
  split; [reflexivity|]. split; [apply lits_lang, Hlt|]. exists ws1; eexists.
  split; [reflexivity|]. split; [apply Hrun; assumption|]. exists nm; eexists.
  split; [reflexivity|]. split; [apply lits_lang, Hnm|]. exists [q1]; eexists.
  split; [reflexivity|]. split; [exists q1; auto|]. exists rm; eexists.
  split; [reflexivity|]. split; [apply lits_lang, Hrm|]. exists [q2]; eexists.
  split; [reflexivity|]. split; [exists q2; auto|]. exists ws2; eexists.
  split; [reflexivity|]. split; [apply Hrun; assumption|]. exists ct; eexists.
  split; [reflexivity|]. split; [apply lits_lang, Hct|]. exists [q3]; eexists.
  split; [reflexivity|]. split; [exists q3; auto|]. exists ys; eexists.
  split; [reflexivity|]. split; [split; [exact Hys|lia]|]. exists [d]; eexists.
  split; [reflexivity|]. split; [exists d; auto|]. exists ms; eexists.
  split; [reflexivity|]. split; [split; [exact Hms|lia]|].
  exists q4; auto.
Qed.

End PeriodFacts.

(** X8: whatever the document, the month, the year and the name of the
    month come back consistent in this direction: without a month there is
    neither a year nor a name; and a name is always the name [MONTHS] gives
    to the month returned, which is then one of 1 to 12. *)
Theorem period_result_shape (U : CharDB) (tokenize : str -> list event) (text : str)
    (mo yr : option Z) (nm : option str) :
  extract_month_year tokenize text = (mo, yr, nm) ->
  (mo = None -> yr = None /\ nm = None) /\
  (forall label, nm = Some label ->
     exists n, mo = Some n /\ 1 <= n <= 12 /\ MONTHS_get MONTHS n = Some label).
Proof.
  unfold extract_month_year, month_year_of_blob.
  destruct (search META_RE text) as [meta|].
  - intros H. inversion H; subst. split; [discriminate|].
    intros label Hl. eexists. split; [reflexivity|].
    split; [exact (months_get_inside _ _ Hl)|exact Hl].
  - destruct (find_month MONTH_COMPILED (visible_blob tokenize text))
      as [[[num name] pos]|] eqn:E; intros H; inversion H; subst.
    + split; [discriminate|]. intros label Hl. inversion Hl; subst.
      destruct (find_month_some _ _ _ _ _ E) as (rx & mt & Hin & _).
      exists num. split; [reflexivity|].
      split; [exact (month_compiled_range _ _ _ Hin)|exact (month_label_in_table _ _ _ Hin)].
    + split; [auto|discriminate].
Qed.

Lemma period_result_shape_witness :
  extract_month_year (U := basic_chardb) sample_tokenize doc_report =
  (Some 3, Some 2024, Some (u "Март")) /\
  exists n, Some 3 = Some n /\ 1 <= n <= 12 /\ MONTHS_get MONTHS n = Some (u "Март").
Proof.
  assert (H : extract_month_year (U := basic_chardb) sample_tokenize doc_report =
              (Some 3, Some 2024, Some (u "Март"))) by (vm_compute; reflexivity).
  split; [exact H|].
  exact (proj2 (period_result_shape basic_chardb sample_tokenize doc_report _ _ _ H)
           (u "Март") eq_refl).
Defined.

(** X9: [extract_month_year] returns no period at all exactly when the
    document has no recognized metadata tag and none of the twelve patterns
    of [MONTH_COMPILED] is found in its visible text. *)
Theorem period_absent_iff (U : CharDB) (tokenize : str -> list event) (text : str) :
  extract_month_year tokenize text = (None, None, None) <->
  search META_RE text = None /\
  forall n, ~ month_matches n (visible_blob tokenize text).
Proof.
  unfold extract_month_year, month_year_of_blob. split.
  - destruct (search META_RE text) as [meta|]; [discriminate|].
    destruct (find_month MONTH_COMPILED (visible_blob tokenize text))
      as [[[num name] pos]|] eqn:E; [discriminate|].
    intros _. split; [reflexivity|].
    intros n (name & rx & Hin & Hm). apply Hm.
    exact (find_month_none _ _ E _ _ _ Hin).
  - intros [-> Hno].
    destruct (find_month MONTH_COMPILED (visible_blob tokenize text))
      as [[[num name] pos]|] eqn:E; [|reflexivity].
    exfalso. destruct (find_month_some _ _ _ _ _ E) as (rx & mt & Hin & Hs & _).
    apply (Hno num). exists name, rx. split; [exact Hin|congruence].
Qed.

(** X10: the numbers that come back, for a character database whose decimal
    digits have the values 0 to 9: a year is between 0 and 9999 and a month
    between 0 and 99; when the document has no recognized metadata tag, the
    year is between 2000 and 2099 and the month between 1 and 12. *)
Theorem period_bounds (U : CharDB) (HU : CharDBLaws U) (tokenize : str -> list event)
    (text : str) (mo yr : option Z) (nm : option str) :
  (forall c, isdecimal c = true -> 0 <= decimal c <= 9) ->
  extract_month_year tokenize text = (mo, yr, nm) ->
  (forall y, yr = Some y -> 0 <= y <= 9999) /\
  (forall n, mo = Some n -> 0 <= n <= 99) /\
  (search META_RE text = None ->
   (forall y, yr = Some y -> 2000 <= y <= 2099) /\
   (forall n, mo = Some n -> 1 <= n <= 12)).
Proof.
  intros Hdec. unfold extract_month_year, month_year_of_blob.
  destruct (search META_RE text) as [meta|] eqn:Em.
  - intros H. injection H as <- <- <-.
    destruct (meta_search_groups _ _ Em) as (L1 & D1 & L2 & D2).
    pose proof (int_of_bound Hdec _ D1) as B1. rewrite L1 in B1.
    pose proof (int_of_bound Hdec _ D2) as B2. rewrite L2 in B2.
    change (10 ^ Z.of_nat 4) with 10000 in B1. change (10 ^ Z.of_nat 2) with 100 in B2.
    split; [|split]; [| |discriminate]; intros v Hv; injection Hv as <-; lia.
  - destruct (find_month MONTH_COMPILED (visible_blob tokenize text))
      as [[[num name] pos]|] eqn:E; intros H; injection H as <- <- <-.
    2:{ split; [|split; [|split]]; discriminate. }
    destruct (find_month_some _ _ _ _ _ E) as (rx & mt & Hin & _).
    pose proof (month_compiled_range _ _ _ Hin) as Hr.
    assert (Hy : forall y,
              match search YEAR_RE (slice (visible_blob tokenize text) (Z.max 0 (pos - 40))
                                      (Z.min (len (visible_blob tokenize text)) (pos + 40))) with
              | Some ym => Some (int_of (group (slice (visible_blob tokenize text)
                                                  (Z.max 0 (pos - 40))
                                                  (Z.min (len (visible_blob tokenize text))
                                                     (pos + 40))) ym 1))
              | None => None
              end = Some y -> 2000 <= y <= 2099).
    { intros y Hy.
      pose proof (year_search (slice (visible_blob tokenize text) (Z.max 0 (pos - 40))
                                 (Z.min (len (visible_blob tokenize text)) (pos + 40)))) as Hs.
      destruct (search YEAR_RE _) as [ym|]; [|discriminate].
      destruct Hs as (d1 & d2 & rest & _ & H1 & H2 & Hg & _).
      rewrite Hg, year_value in Hy.
      assert (Hv : y = 2000 + 10 * decimal d1 + decimal d2) by congruence.
      pose proof (Hdec _ H1). pose proof (Hdec _ H2). lia. }
    split; [|split; [|split]].
    + intros y Hyr. specialize (Hy y Hyr). lia.
    + intros n Hn. assert (n = num) by congruence. lia.
    + exact Hy.
    + intros n Hn. assert (n = num) by congruence. lia.
Qed.

Lemma period_bounds_witness :
  extract_month_year (U := basic_chardb) sample_tokenize doc_report =
  (Some 3, Some 2024, Some (u "Март")) /\
  search (U := basic_chardb) META_RE doc_report = None /\
  2000 <= 2024 <= 2099 /\ 1 <= 3 <= 12.
Proof.
  assert (Hdec : forall c, isdecimal (CharDB := basic_chardb) c = true ->
                           0 <= decimal (CharDB := basic_chardb) c <= 9).
  { intros c H. cbn in H |- *. unfold basic_isdecimal in H. lia. }
  assert (H : extract_month_year (U := basic_chardb) sample_tokenize doc_report =
              (Some 3, Some 2024, Some (u "Март"))) by (vm_compute; reflexivity).
  assert (Hm : search (U := basic_chardb) META_RE doc_report = None)
    by (vm_compute; reflexivity).
  destruct (period_bounds basic_chardb basic_chardb_laws sample_tokenize doc_report
              _ _ _ Hdec H) as (_ & _ & Hh).
  destruct (Hh Hm) as [Hy Hn].
  split; [exact H|]. split; [exact Hm|].
  split; [exact (Hy 2024 eq_refl)|exact (Hn 3 eq_refl)].
Defined.

(** X11: for January, February, March, April and August the endings of the
    pattern of [MONTHS] may all be absent, so that the pattern is found in a
    text exactly when the text contains the stem of the month ([янв],
    [фев], [март], [апрел], [август]) up to the case of the letters, be it
    inside a longer word. *)
Theorem month_stem_is_enough (U : CharDB) (n : Z) (w blob : str) :
  In (n, w) month_stems ->
  (month_matches n blob <->
   exists pre l post, blob = pre ++ l ++ post /\ same_word w l).
Proof.
  intros Hin. destruct (month_stem_pattern n w Hin) as (label & tail & Hnull & Htab & Huniq).
  split.
  - intros (name & rx & Hrx & Hs). rewrite (Huniq _ _ Hrx) in Hs.
    apply search_lang in Hs. destruct Hs as (pre & wd & post & -> & L).
    cbn [pat ignorecase lang] in L. destruct L as (w1 & w2 & -> & L1 & _).
    exists pre, w1, (w2 ++ post). split; [now rewrite <- app_assoc|].
    exact (lang_lits _ _ _ _ L1).
  - intros (pre & l & post & -> & Hl). now apply (stem_matches n w).
Qed.

Lemma month_stem_is_enough_witness :
  In (3, u "март") month_stems /\
  month_matches (U := basic_chardb) 3 (u "Новый смартфон 2024").
Proof.
  assert (Hin : In (3, u "март") month_stems) by (vm_compute; auto).
  split; [exact Hin|].
  apply (proj2 (month_stem_is_enough basic_chardb 3 (u "март") (u "Новый смартфон 2024") Hin)).
  exists (u "Новый с"), (u "март"), (u "фон 2024").
  split; [vm_compute; reflexivity|]. repeat constructor.
Defined.

(** X12: the patterns of the months have no word boundary: when a document
    without a recognized metadata tag has in its visible text the stem of
    January, February, March, April or August, up to case and be it inside
    a longer word, a month is returned, and it is that month or an earlier
    one. *)
Theorem month_inside_a_word (U : CharDB) (tokenize : str -> list event)
    (text pre l post : str) (n : Z) (w : str) :
  search META_RE text = None ->
  In (n, w) month_stems ->
  visible_blob tokenize text = pre ++ l ++ post ->
  same_word w l ->
  exists mo yr label,
    extract_month_year tokenize text = (Some mo, yr, Some label) /\ mo <= n.
Proof.
  intros Hmeta Hin Hblob Hl.
  unfold extract_month_year, month_year_of_blob. rewrite Hmeta, Hblob.
  destruct (month_found _ n (stem_matches n w pre l post Hin Hl))
    as (mo & label & p & -> & Hle).
  eexists mo, _, label. split; [reflexivity|exact Hle].
Qed.

Lemma month_inside_a_word_witness :
  search (U := basic_chardb) META_RE doc_smartphone = None /\
  visible_blob (U := basic_chardb) more_tokenize doc_smartphone =
  u "Новый с" ++ u "март" ++ u "фон 2024" /\
  extract_month_year (U := basic_chardb) more_tokenize doc_smartphone =
  (Some 3, Some 2024, Some (u "Март")) /\
  exists mo yr label,
    extract_month_year (U := basic_chardb) more_tokenize doc_smartphone =
    (Some mo, yr, Some label) /\ mo <= 3.
Proof.
  assert (H1 : search (U := basic_chardb) META_RE doc_smartphone = None)
    by (vm_compute; reflexivity).
  assert (H2 : In (3, u "март") month_stems) by (vm_compute; auto).
  assert (H3 : visible_blob (U := basic_chardb) more_tokenize doc_smartphone =
               u "Новый с" ++ u "март" ++ u "фон 2024") by (vm_compute; reflexivity).
  assert (H4 : same_word (U := basic_chardb) (u "март") (u "март")) by repeat constructor.
  split; [exact H1|]. split; [exact H3|]. split; [vm_compute; reflexivity|].
  exact (month_inside_a_word basic_chardb more_tokenize doc_smartphone _ _ _ 3 (u "март")
           H1 H2 H3 H4).
Defined.

(** *** What is read from a recognized tag *)

Section MetaRead.

Context {U : CharDB} {HU : CharDBLaws U}.

(** One component of a concatenation, with what it matched and the offset
    [d] of the matcher in the subject [s0]. *)
Lemma m_cat_lang ic r1 r2 s0 i d cs k x :
  m ic (Cat r1 r2) (skipn d s0) (i + d)%nat cs k = Some x ->
  exists w cs',
    skipn d s0 = w ++ skipn (d + List.length w) s0 /\
    lang ic r1 w (skipn (d + List.length w) s0) /\
    m ic r2 (skipn (d + List.length w) s0) (i + (d + List.length w))%nat cs' k = Some x.
Proof.
  cbn [m]. intros H. apply m_sound in H. destruct H as (w & s' & cs' & Hs & L & H).
  assert (E : skipn (d + List.length w) s0 = s').
  { rewrite (Nat.add_comm d), <- skipn_skipn, Hs. apply skipn_prefix. }
  exists w, cs'. rewrite E. split; [exact Hs|]. split; [exact L|].
  now rewrite Nat.add_assoc.
Qed.

Lemma lang_quote w rest :
  lang true (Atom (OneOf quotes)) w rest ->
  exists q, w = [q] /\ atom_match true (OneOf quotes) q = true.
Proof. cbn [lang]. auto. Qed.

(** A match of [META_RE]: the tag it covers, and its two groups. *)
Lemma meta_match_full s i e cs :
  match_at true (pat META_RE) s i = Some (e, cs) ->
  exists w ys ms rest d,
    s = w ++ rest /\ meta_shape_of ys ms w /\
    lookup_cap 1 cs = Some ((i + d)%nat, (i + d + 4)%nat) /\
    lookup_cap 2 cs = Some ((i + d + 5)%nat, (i + d + 7)%nat) /\
    firstn 4 (skipn d s) = ys /\ firstn 2 (skipn (d + 5) s) = ms.
Proof.
  unfold match_at. rewrite meta_pat. cbn [cat]. intros H.
  change s with (skipn 0 s) in H. rewrite <- (Nat.add_0_r i) in H.
  apply m_cat_lang in H. destruct H as (lt & c1 & E1 & L1 & H).
  apply m_cat_lang in H. destruct H as (ws1 & c2 & E2 & L2 & H).
  apply m_cat_lang in H. destruct H as (nm & c3 & E3 & L3 & H).
  apply m_cat_lang in H. destruct H as (w4 & c4 & E4 & L4 & H).
  apply m_cat_lang in H. destruct H as (rm & c5 & E5 & L5 & H).
  apply m_cat_lang in H. destruct H as (w6 & c6 & E6 & L6 & H).
  apply m_cat_lang in H. destruct H as (ws2 & c7 & E7 & L7 & H).
  apply m_cat_lang in H. destruct H as (ct & c8 & E8 & L8 & H).
  apply m_cat_lang in H. destruct H as (w9 & c9 & E9 & L9 & H).
  apply lang_quote in L4. destruct L4 as (q1 & -> & Hq1).
  apply lang_quote in L6. destruct L6 as (q2 & -> & Hq2).
  apply lang_quote in L9. destruct L9 as (q3 & -> & Hq3).
  match type of H with m _ _ (skipn ?d0 _) _ _ _ = _ => set (d := d0) in * end.
  cbn [m] in H. apply rep_sound in H. destruct H as (n1 & Hok1 & H).
  apply rep_ok_exact in Hok1. destruct Hok1 as (-> & Hl1 & Hd1).
  destruct (skipn 4 (skipn d s)) as [|c s1] eqn:F1; [discriminate|].
  destruct (atom_match true (Lit (ch "-")) c) eqn:Hc; [|discriminate].
  apply rep_sound in H. destruct H as (n2 & Hok2 & H).
  apply rep_ok_exact in Hok2. destruct Hok2 as (-> & Hl2 & Hd2).
  destruct (skipn 2 s1) as [|q4 s2] eqn:F2; [discriminate|].
  destruct (atom_match true (OneOf quotes) q4) eqn:Hq4; [|discriminate].
  unfold accept in H. injection H as <- <-.
  assert (F5 : skipn (d + 5) s = s1).
  { replace (d + 5)%nat with (1 + (4 + d))%nat by lia.
    rewrite <- !skipn_skipn, F1. reflexivity. }
  assert (Hd : skipn d s = firstn 4 (skipn d s) ++ [c] ++ firstn 2 s1 ++ [q4] ++ s2).
  { rewrite <- (firstn_skipn 4 (skipn d s)) at 1. rewrite F1.
    rewrite <- (firstn_skipn 2 s1) at 1. rewrite F2. reflexivity. }
  exists (lt ++ ws1 ++ nm ++ [q1] ++ rm ++ [q2] ++ ws2 ++ ct ++ [q3]
            ++ firstn 4 (skipn d s) ++ [c] ++ firstn 2 s1 ++ [q4]),
    (firstn 4 (skipn d s)), (firstn 2 s1), s2, d.
  split.
  { change (skipn 0 s) with s in E1. rewrite E1 at 1. rewrite E2 at 1. rewrite E3 at 1.
    rewrite E4 at 1. rewrite E5 at 1. rewrite E6 at 1. rewrite E7 at 1. rewrite E8 at 1.
    rewrite E9 at 1. fold d. rewrite Hd at 1.
    repeat rewrite <- app_assoc. reflexivity. }
  split.
  { exists lt, ws1, nm, q1, rm, q2, ws2, ct, q3, [c], q4.
    split; [reflexivity|].
    split; [exact (lang_lits _ _ _ _ L1)|].
    split; [exact (lang_spaces _ _ L2)|].
    split; [exact (lang_lits _ _ _ _ L3)|].
    split; [exact Hq1|].
    split; [exact (lang_lits _ _ _ _ L5)|].
    split; [exact Hq2|].
    split; [exact (lang_spaces _ _ L7)|].
    split; [exact (lang_lits _ _ _ _ L8)|].
    split; [exact Hq3|].
    split; [split; [exact Hl1|exact Hd1]|].
    split; [repeat constructor; exact Hc|].
    split; [split; [exact Hl2|exact Hd2]|exact Hq4]. }
  cbn [lookup_cap Nat.eqb]. rewrite F5.
  repeat split; repeat f_equal; lia.
Qed.

Lemma meta_search_full text mt :
  search META_RE text = Some mt ->
  exists pre w post ys ms,
    text = pre ++ w ++ post /\ List.length pre = m_start mt /\
    meta_shape_of ys ms w /\ group text mt 1 = ys /\ group text mt 2 = ms.
Proof.
  unfold search. intros H. apply search_from_some in H.
  destruct H as (n & Hn & Hs & Hm & _). cbn [ignorecase Nat.add] in Hm, Hs.
  apply meta_match_full in Hm.
  destruct Hm as (w & ys & ms & rest & d & Hw & Hshape & C1 & C2 & G1 & G2).
  exists (firstn n text), w, rest, ys, ms.
  split; [rewrite <- Hw; symmetry; apply firstn_skipn|].
  split; [rewrite length_firstn; lia|]. split; [exact Hshape|].
  unfold group. rewrite C1, C2.
  replace (n + d + 4 - (n + d))%nat with 4%nat by lia.
  replace (n + d + 7 - (n + d + 5))%nat with 2%nat by lia.
  replace (n + d + 5)%nat with (d + 5 + n)%nat by lia.
  replace (n + d)%nat with (d + n)%nat by lia.
  rewrite <- (skipn_skipn (d + 5) n text), <- (skipn_skipn d n text). auto.
Qed.

(** A recognized tag stands at or before every tag of the shape. *)
Lemma meta_search_leftmost pre w post mt :
  meta_shape w -> search META_RE (pre ++ w ++ post) = Some mt ->
  (m_start mt <= List.length pre)%nat.
Proof.
  intros Hw H. unfold search in H. apply search_from_some in H.
  destruct H as (n & _ & Hs & _ & Hmin). cbn [ignorecase Nat.add] in Hs, Hmin.
  destruct (Nat.le_gt_cases n (List.length pre)) as [Hle|Hgt]; [lia|].
  exfalso. specialize (Hmin _ Hgt). rewrite skipn_prefix in Hmin.
  revert Hmin. unfold match_at.
  apply (m_complete true _ _ _ _ _ w post eq_refl (meta_shape_lang w post Hw)).
  intros cs'. discriminate.
Qed.

End MetaRead.

(** X13: every tag of the shape [META_RE] describes is recognized, whatever
    the case of its letters, its quote characters and the amount of white
    space in it, and wherever it stands in the document: the month and the
    year are then read from a tag of that shape that stands in the document
    at or before the given one, as the values of its two digits of the month
    and its four digits of the year, with the label [MONTHS] gives to that
    month; and they are the same whatever the parser collects, for the
    visible text is not searched. *)
Theorem shaped_tag_recognized (U : CharDB) (pre w post : str) :
  meta_shape w ->
  exists pre' w' post' ys ms,
    pre ++ w ++ post = pre' ++ w' ++ post' /\
    (List.length pre' <= List.length pre)%nat /\
    meta_shape_of ys ms w' /\
    forall tokenize : str -> list event,
      extract_month_year tokenize (pre ++ w ++ post) =
      (Some (int_of ms), Some (int_of ys), MONTHS_get MONTHS (int_of ms)).
Proof.
  intros Hw.
  assert (Hs : search META_RE (pre ++ w ++ post) <> None)
    by (apply lang_search, meta_shape_lang, Hw).
  destruct (search META_RE (pre ++ w ++ post)) as [mt|] eqn:E; [|congruence].
  destruct (meta_search_full _ _ E) as (pre' & w' & post' & ys & ms & Ht & Hl & Hshape & G1 & G2).
  exists pre', w', post', ys, ms. split; [exact Ht|].
  split; [rewrite Hl; exact (meta_search_leftmost _ _ _ _ Hw E)|].
  split; [exact Hshape|].
  intros tokenize. unfold extract_month_year. now rewrite E, G1, G2.
Qed.

Lemma shaped_tag_recognized_witness :
  meta_shape (U := basic_chardb) (u "<META  NAME='report-month' CONTENT='2031-11'") /\
  extract_month_year (U := basic_chardb) more_tokenize doc_upper_tag =
  (Some 11, Some 2031, Some (u "Ноябрь")) /\
  exists pre' w' post' ys ms,
    doc_upper_tag = pre' ++ w' ++ post' /\
    (List.length pre' <= 0)%nat /\
    meta_shape_of (U := basic_chardb) ys ms w' /\
    forall tokenize : str -> list event,
      extract_month_year (U := basic_chardb) tokenize doc_upper_tag =
      (Some (int_of (U := basic_chardb) ms), Some (int_of (U := basic_chardb) ys),
       MONTHS_get MONTHS (int_of (U := basic_chardb) ms)).
Proof.
  assert (Hw : meta_shape (U := basic_chardb)
                 (u "<META  NAME='report-month' CONTENT='2031-11'")).
  { exists (u "<META"), (u "  "), (u "NAME="), (ch "'"), (u "report-month"), (ch "'"),
      (u " "), (u "CONTENT="), (ch "'"), (u "2031"), (u "-"), (u "11"), (ch "'").
    split; [vm_compute; reflexivity|].
    repeat split; try discriminate; try (vm_compute; reflexivity); repeat constructor. }
  split; [exact Hw|]. split; [vm_compute; reflexivity|].
  exact (shaped_tag_recognized basic_chardb []
           (u "<META  NAME='report-month' CONTENT='2031-11'") (u ">") Hw).
Defined.

(** ** Words, and the display name *)

Lemma no_nonspace_spaces s : has_nonspace s = false <-> forallb isspace s = true.
Proof.
  unfold has_nonspace. induction s as [|c s IH]; cbn [existsb forallb]; [tauto|].
  rewrite orb_false_iff, andb_true_iff, negb_false_iff. tauto.
Qed.

Lemma all_nonspace_hd s :
  forallb (fun c => negb (isspace c)) s = true -> hd_nonspace s = true.
Proof. destruct s as [|c s]; cbn; [reflexivity|]. intros H. now apply andb_true_iff in H. Qed.

Lemma all_nonspace_trimmed s :
  forallb (fun c => negb (isspace c)) s = true -> strip s = s.
Proof.
  intros H. apply trimmed_strip. unfold trimmed.
  rewrite (all_nonspace_hd _ H), all_nonspace_hd; [reflexivity|].
  rewrite forallb_forall in *. intros x Hx. apply H. now apply in_rev.
Qed.

Lemma lstrip_app s t : has_nonspace s = true -> lstrip (s ++ t) = lstrip s ++ t.
Proof.
  induction s as [|c s IH]; [discriminate|]. unfold has_nonspace. cbn [existsb app lstrip].
  destruct (isspace c); cbn [negb orb]; [exact IH|reflexivity].
Qed.

Lemma rstrip_app_nonspace a b : has_nonspace b = true -> rstrip (a ++ b) = a ++ rstrip b.
Proof.
  intros H. unfold rstrip. rewrite rev_app_distr, lstrip_app by now rewrite has_nonspace_rev.
  now rewrite rev_app_distr, rev_involutive.
Qed.

Lemma rstrip_app_spaces a b : forallb isspace b = true -> rstrip (a ++ b) = rstrip a.
Proof.
  intros H. unfold rstrip. rewrite rev_app_distr, lstrip_spaces; [reflexivity|].
  rewrite forallb_forall in *. intros x Hx. apply H. now apply in_rev.
Qed.

(** *** The words of a string *)

Lemma space_pieces_free pre :
  forallb (fun c => negb (isspace c)) pre = true -> space_pieces pre = [pre].
Proof.
  induction pre as [|x pre IH]; cbn [space_pieces forallb]; [reflexivity|].
  intros H. apply andb_true_iff in H. destruct H as [Hx H].
  apply negb_true_iff in Hx. now rewrite Hx, (IH H).
Qed.

Lemma space_pieces_split pre c rest :
  forallb (fun c => negb (isspace c)) pre = true -> isspace c = true ->
  space_pieces (pre ++ c :: rest) = pre :: space_pieces rest.
Proof.
  intros Hpre Hc. induction pre as [|x pre IH]; cbn [space_pieces app].
  - now rewrite Hc.
  - cbn [forallb] in Hpre. apply andb_true_iff in Hpre. destruct Hpre as [Hx Hpre].
    apply negb_true_iff in Hx. now rewrite Hx, (IH Hpre).
Qed.

Lemma words_skip ws t : forallb isspace ws = true -> words (ws ++ t) = words t.
Proof.
  unfold words. induction ws as [|c ws IH]; cbn [app forallb space_pieces]; [reflexivity|].
  intros H. apply andb_true_iff in H. destruct H as [Hc H].
  rewrite Hc. cbn [filter nonempty]. exact (IH H).
Qed.

Lemma words_free pre :
  forallb (fun c => negb (isspace c)) pre = true -> words pre = filter nonempty [pre].
Proof. intros H. unfold words. now rewrite space_pieces_free. Qed.

Lemma words_split pre c rest :
  forallb (fun c => negb (isspace c)) pre = true -> isspace c = true ->
  words (pre ++ c :: rest) = filter nonempty [pre] ++ words rest.
Proof.
  intros Hpre Hc. unfold words. rewrite (space_pieces_split _ _ rest Hpre Hc).
  change (pre :: space_pieces rest) with ([pre] ++ space_pieces rest).
  apply filter_app.
Qed.

Lemma words_lstrip s : words (lstrip s) = words s.
Proof.
  rewrite lstrip_run.
  pose proof (words_skip (firstn (run isspace s) s) (skipn (run isspace s) s)
                (run_firstn isspace s)) as H.
  now rewrite firstn_skipn in H.
Qed.

Lemma words_blank s : has_nonspace s = false -> words s = [].
Proof.
  intros H. apply no_nonspace_spaces in H.
  rewrite <- (app_nil_r s). now rewrite words_skip.
Qed.

Lemma space_pieces_nonspace : forall s w,
  In w (space_pieces s) -> forallb (fun c => negb (isspace c)) w = true.
Proof.
  induction s as [|c s IH]; intros w Hin; cbn [space_pieces] in Hin.
  - destruct Hin as [<-|[]]. reflexivity.
  - destruct (isspace c) eqn:Ec.
    + destruct Hin as [<-|Hin]; [reflexivity|exact (IH _ Hin)].
    + destruct (space_pieces s) as [|y ys].
      * destruct Hin as [<-|[]]. cbn [forallb]. now rewrite Ec.
      * destruct Hin as [<-|Hin].
        -- cbn [forallb]. rewrite Ec. exact (IH y (or_introl eq_refl)).
        -- exact (IH w (or_intror Hin)).
Qed.

Lemma words_spec s :
  Forall (fun w => w <> [] /\ forallb (fun c => negb (isspace c)) w = true) (words s).
Proof.
  apply Forall_forall. intros w Hin. unfold words in Hin. apply filter_In in Hin.
  destruct Hin as [Hin Hne]. split; [now apply nonempty_true|].
  exact (space_pieces_nonspace _ _ Hin).
Qed.

(** Joining words and splitting again gives the words back. *)
Lemma words_join xs :
  Forall (fun w => w <> [] /\ forallb (fun c => negb (isspace c)) w = true) xs ->
  words (join SP xs) = xs.
Proof.
  induction xs as [|x xs IH]; intros H; [reflexivity|].
  inversion H as [|? ? [Hne Hx] Hxs]; subst. cbn [join].
  assert (Hf : filter nonempty [x] = [x]).
  { cbn. apply nonempty_true in Hne. now rewrite Hne. }
  destruct xs as [|y ys].
  - now rewrite words_free.
  - cbn [SP app]. rewrite words_split by (assumption || reflexivity).
    now rewrite Hf, (IH Hxs).
Qed.

(** *** [re.sub(r"\s+", " ", name).strip()] *)

Section DisplayFacts.

Context {U : CharDB} {HU : CharDBLaws U}.

Lemma re_sub_fuel_nil fuel repl : re_sub_fuel fuel SPACES_RE repl [] = [].
Proof. destruct fuel; reflexivity. Qed.

Lemma re_sub_fuel_hd fuel s :
  hd_nonspace s = true -> s <> [] ->
  hd_nonspace (re_sub_fuel fuel SPACES_RE SP s) = true /\
  has_nonspace (re_sub_fuel fuel SPACES_RE SP s) = true.
Proof.
  intros Hhd Hne. destruct s as [|c s]; [congruence|].
  cbn [hd_nonspace] in Hhd.
  assert (Hs : hd_nonspace (c :: s) = true /\ has_nonspace (c :: s) = true).
  { unfold has_nonspace. cbn [hd_nonspace existsb]. now rewrite Hhd. }
  destruct fuel as [|fuel]; [exact Hs|].
  cbn [re_sub_fuel]. rewrite spaces_search. cbn [run]. rewrite Hhd.
  cbn [skipn]. destruct (skipn _ s) as [|x rest]; [exact Hs|].
  cbn [m_start firstn app hd_nonspace]. unfold has_nonspace. cbn [existsb].
  now rewrite Hhd.
Qed.

Lemma all_nonspace_rstrip s :
  forallb (fun c => negb (isspace c)) s = true -> rstrip s = s.
Proof.
  intros H. unfold rstrip. rewrite lstrip_fixed; [apply rev_involutive|].
  apply all_nonspace_hd. rewrite forallb_forall in *. intros x Hx. apply H. now apply in_rev.
Qed.

Lemma strip_glue pre R ws :
  forallb (fun c => negb (isspace c)) pre = true ->
  (R = [] \/ hd_nonspace R = true /\ has_nonspace R = true) ->
  strip R = join SP ws -> (R = [] -> ws = []) ->
  strip (pre ++ SP ++ R) = join SP (filter nonempty [pre] ++ ws).
Proof.
  intros Hpre HR Hstrip Hnil. destruct pre as [|x pre].
  - cbn [app filter nonempty]. rewrite <- Hstrip. unfold strip, SP. cbn [app lstrip].
    reflexivity.
  - assert (Hne : x :: pre <> []) by discriminate.
    assert (Hhdp : hd_nonspace (x :: pre) = true) by now apply all_nonspace_hd.
    change (filter nonempty [x :: pre] ++ ws) with ((x :: pre) :: ws).
    remember (x :: pre) as p eqn:Ep. clear Ep x pre.
    unfold strip. rewrite lstrip_fixed by now rewrite hd_nonspace_app.
    destruct HR as [->|[Hhd Hns]].
    + rewrite (Hnil eq_refl), app_nil_r, rstrip_app_spaces by reflexivity.
      now rewrite (all_nonspace_rstrip _ Hpre).
    + rewrite app_assoc, rstrip_app_nonspace by exact Hns.
      assert (Hr : rstrip R = join SP ws).
      { rewrite <- Hstrip. unfold strip. now rewrite (lstrip_fixed _ Hhd). }
      rewrite Hr. destruct ws as [|w ws'].
      * exfalso. pose proof (strip_nonempty R) as Hn. rewrite Hns, Hstrip in Hn. discriminate.
      * rewrite <- app_assoc. reflexivity.
Qed.

Lemma normalize_fuel_words : forall fuel s,
  (List.length s < fuel)%nat ->
  strip (re_sub_fuel fuel SPACES_RE SP s) = join SP (words s).
Proof.
  induction fuel as [|fuel IH]; intros s Hlen; [lia|].
  cbn [re_sub_fuel]. rewrite spaces_search.
  set (n := run (fun c => negb (isspace c)) s).
  pose proof (run_firstn (fun c => negb (isspace c)) s) as Hpre.
  pose proof (run_stop (fun c => negb (isspace c)) s) as Hstop.
  pose proof (firstn_skipn n s) as Hs. fold n in Hpre, Hstop.
  destruct (skipn n s) as [|c rest] eqn:E.
  - rewrite app_nil_r in Hs. rewrite Hs in Hpre.
    rewrite (all_nonspace_trimmed _ Hpre), (words_free _ Hpre).
    destruct s; reflexivity.
  - apply negb_false_iff in Hstop. cbn [m_start m_end].
    replace (skipn (n + S (run isspace rest)) s) with (lstrip rest).
    2:{ rewrite Nat.add_comm, <- skipn_skipn, E. cbn [skipn]. apply lstrip_run. }
    rewrite <- Hs at 2. rewrite (words_split _ _ rest Hpre Hstop), <- (words_lstrip rest).
    assert (Hlt : (List.length (lstrip rest) < fuel)%nat).
    { rewrite lstrip_run, length_skipn. rewrite <- Hs in Hlen.
      rewrite length_app in Hlen. cbn [List.length] in Hlen. lia. }
    apply strip_glue; [exact Hpre| |exact (IH _ Hlt)|].
    + destruct (lstrip rest) as [|c' t'] eqn:Et.
      * left. apply re_sub_fuel_nil.
      * right. apply re_sub_fuel_hd; [|discriminate]. rewrite <- Et. apply lstrip_hd.
    + intros HR. destruct (lstrip rest) as [|c' t'] eqn:Et; [reflexivity|].
      exfalso.
      assert (Hh : hd_nonspace (c' :: t') = true) by (rewrite <- Et; apply lstrip_hd).
      destruct (re_sub_fuel_hd fuel (c' :: t') Hh ltac:(discriminate)) as [_ Hns].
      rewrite HR in Hns. discriminate.
Qed.

Lemma normalize_words s : strip (re_sub SPACES_RE SP s) = join SP (words s).
Proof. apply normalize_fuel_words. lia. Qed.

Lemma display_name_words (tokenize : str -> list event) text stem :
  display_name tokenize text stem = join SP (words (resolved_name tokenize text stem)).
Proof. apply normalize_words. Qed.

End DisplayFacts.

(** ** The name made from the file name *)

Lemma pieces_nonempty_list s : pieces s <> [].
Proof.
  destruct s as [|c s]; cbn [pieces]; [discriminate|].
  destruct (is_stem_separator c); [discriminate|]. destruct (pieces s); discriminate.
Qed.

Lemma pieces_app a c b :
  is_stem_separator c = true -> pieces (a ++ c :: b) = pieces a ++ pieces b.
Proof.
  intros Hc. induction a as [|x a IH]; cbn [app pieces].
  - now rewrite Hc.
  - rewrite IH. destruct (is_stem_separator x); [reflexivity|].
    pose proof (pieces_nonempty_list a) as Hne.
    destruct (pieces a) as [|y ys]; [congruence|reflexivity].
Qed.

Lemma segments_app a c b :
  is_stem_separator c = true -> segments (a ++ c :: b) = segments a ++ segments b.
Proof. intros Hc. unfold segments. rewrite (pieces_app a c b Hc). apply filter_app. Qed.

Lemma segments_separators ws : forallb is_stem_separator ws = true -> segments ws = [].
Proof.
  intros H. rewrite <- (app_nil_r ws). now rewrite segments_skip.
Qed.

Lemma pieces_nosep : forall s seg,
  In seg (pieces s) -> forallb (fun c => negb (is_stem_separator c)) seg = true.
Proof.
  induction s as [|c s IH]; intros seg Hin; cbn [pieces] in Hin.
  - destruct Hin as [<-|[]]. reflexivity.
  - destruct (is_stem_separator c) eqn:Ec.
    + destruct Hin as [<-|Hin]; [reflexivity|exact (IH _ Hin)].
    + destruct (pieces s) as [|y ys].
      * destruct Hin as [<-|[]]. cbn [forallb]. now rewrite Ec.
      * destruct Hin as [<-|Hin].
        -- cbn [forallb]. rewrite Ec. exact (IH y (or_introl eq_refl)).
        -- exact (IH seg (or_intror Hin)).
Qed.

Lemma blank_join xs :
  Forall (fun x => has_nonspace x = false) xs -> has_nonspace (join SP xs) = false.
Proof.
  induction xs as [|x xs IH]; intros H; [reflexivity|].
  inversion H as [|? ? Hx Hxs]; subst. cbn [join].
  destruct xs as [|y ys]; [exact Hx|].
  rewrite !has_nonspace_app, Hx, (IH Hxs). reflexivity.
Qed.

Lemma ascii_space_fixed c :
  isspace c = true -> ascii_toupper c = c /\ ascii_tolower c = c.
Proof.
  unfold isspace, ascii_toupper, ascii_tolower. intros H.
  destruct ((0x61 <=? c) && (c <=? 0x7A)) eqn:E1;
    destruct ((0x41 <=? c) && (c <=? 0x5A)) eqn:E2; split; try reflexivity; lia.
Qed.

Lemma ascii_capitalize_blank s :
  has_nonspace s = false -> has_nonspace (ascii_capitalize s) = false.
Proof.
  intros H. apply no_nonspace_spaces in H. apply no_nonspace_spaces.
  destruct s as [|c s]; [reflexivity|]. cbn [ascii_capitalize forallb] in *.
  apply andb_true_iff in H. destruct H as [Hc Hs].
  rewrite (proj1 (ascii_space_fixed c Hc)), Hc. cbn [andb].
  rewrite forallb_forall in *. intros x Hx. apply in_map_iff in Hx.
  destruct Hx as (y & <- & Hy). specialize (Hs y Hy).
  now rewrite (proj2 (ascii_space_fixed y Hs)).
Qed.

Section FilenameFacts.

Context {U : CharDB} {HU : CharDBLaws U}.

Lemma humanize_blank stem :
  forallb is_ascii stem = true ->
  forallb (fun c => is_stem_separator c || isspace c) stem = true ->
  has_nonspace (humanize_from_filename stem) = false.
Proof.
  intros Hascii Hall. rewrite humanize_segments. apply blank_join.
  apply Forall_forall. intros x Hx. apply in_map_iff in Hx.
  destruct Hx as (seg & <- & Hseg). unfold segments in Hseg.
  apply filter_In in Hseg. destruct Hseg as [Hseg _].
  pose proof (pieces_forall _ _ Hascii seg Hseg) as Ha.
  pose proof (pieces_forall _ _ Hall seg Hseg) as Hb.
  pose proof (pieces_nosep _ _ Hseg) as Hc.
  rewrite (str_capitalize_ascii seg Ha). apply ascii_capitalize_blank.
  apply no_nonspace_spaces. rewrite forallb_forall in *. intros c Hin.
  specialize (Hb c Hin). specialize (Hc c Hin).
  apply negb_true_iff in Hc. now rewrite Hc in Hb.
Qed.

Lemma display_name_nonempty_iff (tokenize : str -> list event) text stem :
  display_name tokenize text stem = [] <->
  has_nonspace (resolved_name tokenize text stem) = false.
Proof.
  split.
  - intros H. destruct (has_nonspace (resolved_name tokenize text stem)) eqn:E; [|reflexivity].
    exfalso. unfold display_name in H.
    pose proof (strip_nonempty (re_sub SPACES_RE SP (resolved_name tokenize text stem))) as Hn.
    rewrite (re_sub_spaces_nonspace SP _ E), H in Hn. discriminate.
  - intros H. rewrite display_name_words, (words_blank _ H). reflexivity.
Qed.

End FilenameFacts.

(** X14: the display name of [main] is the resolved name cut into words at
    white space and joined again with single spaces. *)
Theorem display_name_is_words (U : CharDB) (tokenize : str -> list event)
    (text stem : str) :
  display_name tokenize text stem = join SP (words (resolved_name tokenize text stem)).
Proof. apply normalize_words. Qed.

(** X15: the display name is in normal form: collapsing its white space and
    trimming it once more, as [main] does, gives it back unchanged. *)
Theorem display_name_normal (U : CharDB) (tokenize : str -> list event)
    (text stem : str) :
  strip (re_sub SPACES_RE SP (display_name tokenize text stem)) =
  display_name tokenize text stem.
Proof.
  rewrite normalize_words, display_name_words.
  now rewrite (words_join _ (words_spec _)).
Qed.

(** X16: for a file whose stem is ASCII, the display name is empty exactly
    when the document gives no name and every character of the stem is an
    underscore, a hyphen, a period or white space. *)
Theorem display_name_empty_iff (U : CharDB) (HU : CharDBLaws U)
    (tokenize : str -> list event) (text stem : str) :
  forallb is_ascii stem = true ->
  (display_name tokenize text stem = [] <->
   extract_name_from_html tokenize text = None /\
   forallb (fun c => is_stem_separator c || isspace c) stem = true).
Proof.
  intros Hascii. rewrite display_name_nonempty_iff. unfold resolved_name. split.
  - destruct (extract_name_from_html tokenize text) as [nm|] eqn:E.
    + pose proof (extract_name_nonspace tokenize text nm E) as Hns.
      rewrite (has_nonspace_nonempty _ Hns), Hns. discriminate.
    + intros H. split; [reflexivity|].
      destruct (existsb (fun c => negb (is_stem_separator c) && negb (isspace c)) stem) eqn:Ex.
      * rewrite (humanize_nonspace stem Ex) in H. discriminate.
      * rewrite forallb_forall. intros c Hin.
        destruct (is_stem_separator c || isspace c) eqn:Ec; [reflexivity|].
        apply orb_false_iff in Ec. destruct Ec as [E1 E2].
        assert (Hex : existsb (fun c => negb (is_stem_separator c) && negb (isspace c)) stem
                      = true).
        { apply existsb_exists. exists c. split; [exact Hin|]. now rewrite E1, E2. }
        congruence.
  - intros [-> Hall]. now apply humanize_blank.
Qed.

Lemma display_name_empty_iff_witness :
  forallb is_ascii (u "_ -.") = true /\
  display_name (U := basic_chardb) sample_tokenize doc_untitled (u "_ -.") = [].
Proof.
  assert (H : forallb is_ascii (u "_ -.") = true) by reflexivity.
  split; [exact H|].
  apply (proj2 (display_name_empty_iff basic_chardb basic_chardb_laws sample_tokenize
                  doc_untitled (u "_ -.") H)).
  split; vm_compute; reflexivity.
Defined.

(** X17: in a file name, separators at the beginning, separators at the
    end and repeated separators make no difference to the name made from
    it: a run of underscores, hyphens and periods counts as one separator,
    and none is needed at the ends. *)
Theorem separator_runs_collapse (U : CharDB) (ws : str) :
  forallb is_stem_separator ws = true ->
  (forall s, humanize_from_filename (ws ++ s) = humanize_from_filename s) /\
  (forall s, humanize_from_filename (s ++ ws) = humanize_from_filename s) /\
  (forall a c b, is_stem_separator c = true ->
     humanize_from_filename (a ++ c :: ws ++ b) = humanize_from_filename (a ++ c :: b)).
Proof.
  intros Hws. split; [|split].
  - intros s. now rewrite !humanize_segments, segments_skip.
  - intros s. rewrite !humanize_segments. destruct ws as [|c ws'].
    + now rewrite app_nil_r.
    + cbn [forallb] in Hws. apply andb_true_iff in Hws. destruct Hws as [Hc Hws].
      now rewrite (segments_app s c ws' Hc), (segments_separators _ Hws), app_nil_r.
  - intros a c b Hc. rewrite !humanize_segments.
    now rewrite !(segments_app a c _ Hc), segments_skip.
Qed.

Lemma separator_runs_collapse_witness :
  forallb is_stem_separator (u "_-") = true /\
  humanize_from_filename (U := basic_chardb) (u "_-" ++ u "q3.report") =
  humanize_from_filename (U := basic_chardb) (u "q3.report") /\
  humanize_from_filename (U := basic_chardb) (u "q3" ++ ch "." :: u "_-" ++ u "report") =
  humanize_from_filename (U := basic_chardb) (u "q3" ++ ch "." :: u "report") /\
  humanize_from_filename (U := basic_chardb) (u "q3.report") = u "Q3 Report".
Proof.
  assert (H : forallb is_stem_separator (u "_-") = true) by reflexivity.
  destruct (separator_runs_collapse basic_chardb (u "_-") H) as (H1 & _ & H3).
  split; [exact H|]. split; [exact (H1 (u "q3.report"))|].
  split; [exact (H3 (u "q3") (ch ".") (u "report") eq_refl)|vm_compute; reflexivity].
Defined.

(** ** The visible text and the title *)

Lemma fold_all_text {U : CharDB} evs : forall p,
  all_text (fold_left handle evs p) =
  all_text p ++ filter nonempty (map strip (data_of evs)).
Proof.
  induction evs as [|e evs IH]; intros p; cbn [fold_left data_of map filter].
  - now rewrite app_nil_r.
  - rewrite IH. destruct e as [tag attrs|tag|data]; cbn [handle data_of].
    + unfold handle_starttag.
      destruct (str_eqb (str_lower tag) (u "title")); [reflexivity|].
      destruct (str_eqb (str_lower tag) (u "h1")); reflexivity.
    + unfold handle_endtag.
      destruct (str_eqb (str_lower tag) (u "title")); [reflexivity|].
      destruct (str_eqb (str_lower tag) (u "h1")); reflexivity.
    + unfold handle_data. cbn [map filter].
      destruct (nonempty (strip data)); cbn [negb all_text]; [|reflexivity].
      now rewrite <- app_assoc.
Qed.

(** X18: the visible text is all the data of the document, whatever tags
    stand around it: the chunks of [all_text] are the data of the handler
    calls, stripped, without the blank ones, in their order; the search for
    the month runs over them joined with single spaces. *)
Theorem visible_text_is_all_data (U : CharDB) (tokenize : str -> list event) (text : str) :
  all_text (feed tokenize new_parser text) =
  filter nonempty (map strip (data_of (tokenize text))) /\
  visible_blob tokenize text =
  join SP (filter nonempty (map strip (data_of (tokenize text)))).
Proof.
  assert (H : all_text (feed tokenize new_parser text) =
              filter nonempty (map strip (data_of (tokenize text))))
    by (unfold feed; now rewrite fold_all_text).
  split; [exact H|]. unfold visible_blob. now rewrite H.
Qed.

(** X19: a name taken from the title is the end of the trimmed title: the
    whole title, or the segment after a separator up to the end of the
    title, which needs no trimming. *)
Theorem name_is_title_suffix (U : CharDB) (tokenize : str -> list event)
    (text nm : str) :
  page_title tokenize text <> [] ->
  extract_name_from_html tokenize text = Some nm ->
  exists pre, page_title tokenize text = pre ++ nm.
Proof.
  intros Hne. unfold extract_name_from_html. fold (page_title tokenize text).
  assert (Htrim : trimmed (page_title tokenize text) = true) by apply strip_trimmed.
  apply nonempty_true in Hne. rewrite Hne.
  destruct (search NAME_RE (page_title tokenize text)) as [mt|] eqn:E;
    intros H; injection H as <-; [|now exists []].
  apply name_search_inv in E. destruct E as (n & seg & Hsuf & ->).
  destruct Hsuf as (sep & ws & c & rest & Ht & Hseg & _ & _ & _ & Hc & _).
  assert (Hsplit : page_title tokenize text =
                   (firstn n (page_title tokenize text) ++ sep :: ws) ++ seg).
  { rewrite <- app_assoc. cbn [app]. rewrite <- Ht. symmetry. apply firstn_skipn. }
  assert (Hs : trimmed seg = true).
  { unfold trimmed. apply andb_true_iff. split.
    - rewrite Hseg. cbn [hd_nonspace]. now rewrite (capital_nonspace _ Hc).
    - unfold trimmed in Htrim. apply andb_true_iff in Htrim. destruct Htrim as [_ Hlast].
      rewrite Hsplit, rev_app_distr, hd_nonspace_app in Hlast; [exact Hlast|].
      rewrite Hseg. cbn [rev]. now destruct (rev rest). }
  rewrite (trimmed_strip _ Hs). eexists. exact Hsplit.
Qed.

Lemma name_is_title_suffix_witness :
  page_title (U := basic_chardb) sample_tokenize doc_report = u "Report: Smith John" /\
  extract_name_from_html (U := basic_chardb) sample_tokenize doc_report =
  Some (u "Smith John") /\
  exists pre, page_title (U := basic_chardb) sample_tokenize doc_report =
              pre ++ u "Smith John".
Proof.
  assert (H1 : page_title (U := basic_chardb) sample_tokenize doc_report <> [])
    by (vm_compute; discriminate).
  assert (H2 : extract_name_from_html (U := basic_chardb) sample_tokenize doc_report =
               Some (u "Smith John")) by (vm_compute; reflexivity).
  split; [vm_compute; reflexivity|]. split; [exact H2|].
  exact (name_is_title_suffix basic_chardb sample_tokenize doc_report
           (u "Smith John") H1 H2).
Defined.
